(** * ValueView: the [valueview] widget and its [Expert] base class

    A shallow embedding of [src/jquery.valueview.valueview.js] (the widget) and
    of [jQuery.valueview.Expert] (the abstract editing strategy), with the
    asynchronous collaborators (the timer that delays parsing, the parser
    service, the formatter service) made explicit as tables of pending jobs
    whose completion is an input of the model.  The two services answer
    after the method that called them has returned; the promise an expert's
    [draw] returns is settled when [draw] returns.  Handlers of the events the
    widget triggers are not modelled: the events are recorded.

    The [eachchange] special event of [jquery.event.special.eachchange.js]
    has a module of its own, [Eachchange]. *)

From stdpp Require Import gmap strings list fin_maps.

Local Open Scope string_scope.

(** ** JavaScript values *)

(** A [dataValues.DataValue] object.  [dv_ref] stands for the identity of the
    object, so that [===] on two data values is equality of the records;
    [dv_type] is what [getType()] returns and [dv_json] is
    [JSON.stringify( value.toJSON() )]. *)
Record DataValue := {
  dv_ref : nat;
  dv_type : string;
  dv_json : string
}.

#[global] Instance DataValue_eq_dec : EqDecision DataValue.
Proof. solve_decision. Defined.

(** The JavaScript values the widget can be handed. *)
Inductive JsValue :=
  | JsUndefined
  | JsNull
  | JsBoolean (b : bool)
  | JsNumber (n : Z)
  | JsString (s : string)
  | JsData (d : DataValue).

#[global] Instance JsValue_eq_dec : EqDecision JsValue.
Proof. solve_decision. Defined.

(** [a === b] *)
Definition strict_eq (a b : JsValue) : bool := bool_decide (a = b).

(** [x instanceof dv.DataValue] *)
Definition instanceof_DataValue (x : JsValue) : bool :=
  match x with JsData _ => true | _ => false end.

(** Truthiness of a string-or-null/undefined value such as [message],
    [options.dataTypeId] or the result of [element.html()]. *)
Definition truthy_string (s : option string) : bool :=
  match s with
  | Some (String _ _) => true
  | _ => false
  end.

(** [null] or a data value, seen as a JavaScript value. *)
Definition of_data (v : option DataValue) : JsValue :=
  match v with Some d => JsData d | None => JsNull end.

(** [JSON.stringify( a.toJSON() ) === JSON.stringify( b.toJSON() )] *)
Definition same_json (a b : DataValue) : bool :=
  bool_decide (dv_json a = dv_json b).

(** Structural equality of two possibly empty values: both empty, or both
    present with the same serialized form. *)
Definition structurally_equal (a b : option DataValue) : Prop :=
  match a, b with
  | None, None => True
  | Some x, Some y => dv_json x = dv_json y
  | _, _ => False
  end.

(** Objects used as string-keyed maps (value characteristics, parser and
    formatter options). *)
Abbreviation JsObject := (gmap string JsValue).

(** [obj[ i ]] *)
Definition prop (obj : JsObject) (i : string) : JsValue :=
  default JsUndefined (obj !! i).

(** [$.extend( target, source )]: properties of [source] win, except those
    holding [undefined], which jQuery skips. *)
Definition extend (target source : JsObject) : JsObject :=
  filter (λ kv, kv.2 ≠ JsUndefined) source ∪ target.

(** ** Completions *)

(** A call either returns or throws; in both cases it leaves a state. *)
Inductive Error :=
  | TypeError                 (* a member of [null] or [undefined] is used *)
  | RequiredOptionsMissing    (* [_create] *)
  | NotADataValue             (* [value] *)
  | DataValueRequired         (* [_setValue] *)
  | NoExpertStore             (* [_updateExpertConstructor] *)
  | NoParserStore             (* [_instantiateParser] *)
  | NoFormatterStore          (* [_instantiateFormatter] *)
  | UnexpectedParserResult.   (* [_parseValue] *)

Inductive Completion (A : Type) :=
  | Normal (a : A)
  | Thrown (error : Error).
Arguments Normal {A} a.
Arguments Thrown {A} error.

(** ** Experts *)

(** An expert definition: what [jQuery.valueview.expert( name, base, ... )]
    returns.  The base class leaves [rawValue] abstract and lets definitions
    override [draw], [valueCharacteristics] and add a [preview]; the fields
    below record the choices of a definition that the widget can observe. *)
Record ExpertDefinition := {
  ed_name : string;
  (** [prototype.valueCharacteristics()] *)
  ed_valueCharacteristics : JsObject;
  (** whether instances carry a [preview] *)
  ed_preview : bool;
  (** what [draw()] returns: a promise that is resolved ([Some true]) or
      rejected ([Some false]), or nothing at all as in the base class *)
  ed_draw : option bool;
  (** callbacks of the extensions the definition adds with [addExtension] *)
  ed_extensions : list (list string)
}.

#[global] Instance ExpertDefinition_eq_dec : EqDecision ExpertDefinition.
Proof. solve_decision. Defined.

(** What a [preview] shows. *)
Inductive Preview :=
  | PreviewIdle
  | PreviewSpinner
  | PreviewContent (html : string).

(** A DOM node that serves as an expert's view port: its classes and the
    nodes generated inside it. *)
Record ViewPort := {
  vp_classes : list string;
  vp_contents : list string
}.

Definition addClass (c : string) (n : ViewPort) : ViewPort :=
  {| vp_classes := if bool_decide (c ∈ vp_classes n) then vp_classes n
                   else vp_classes n ++ [c];
     vp_contents := vp_contents n |}.

Definition removeClass (c : string) (n : ViewPort) : ViewPort :=
  {| vp_classes := filter (λ x, x ≠ c) (vp_classes n);
     vp_contents := vp_contents n |}.

Definition empty_node (n : ViewPort) : ViewPort :=
  {| vp_classes := vp_classes n; vp_contents := [] |}.

Module Expert.

(** Handles on the collaborators an expert keeps references to. *)
Inductive jQuery := ViewPortNode.
Inductive ViewState := ViewStateOfView.
Inductive Notifier := NotifierOfView.
Inductive MessageProvider := DefaultMessageProvider.

Record Options := {
  contentLanguages : option string;
  messageProvider : option string
}.

(** Modelled from the spec: [util.Extendable], which is not part of the
    sources.  It is an ordered list of callback bundles; [callExtensions]
    invokes, in order, the named callback of every bundle that has it. *)
Record Extendable := { extensions : list (list string) }.

(** What an expert acts on besides its own fields: the DOM node behind
    [$viewPort], and the record of extension callbacks run so far (index of
    the extension, name of the callback). *)
Record World := {
  port : ViewPort;
  calls : list (nat * string)
}.

Definition callExtensions (x : Extendable) (callback : string) (w : World)
  : World :=
  {| port := port w;
     calls := calls w ++
       omap (λ '(i, ext), if bool_decide (callback ∈ ext)
                          then Some (i, callback) else None)
            (imap pair (extensions x)) |}.

(** The fields of [jQuery.valueview.Expert]; the last three stand for what
    concrete definitions add: the raw value of the input, the current value
    characteristics and the preview. *)
Record t := {
  definition : ExpertDefinition;
  uiBaseClass : string;
  viewPort : option jQuery;
  _viewState : option ViewState;
  _viewNotifier : option Notifier;
  _options : option Options;
  _messageProvider : option MessageProvider;
  _extendable : option Extendable;
  raw : JsValue;
  characteristics : JsObject;
  preview : option Preview
}.

(** [new Definition( viewPortNode, relatedViewState, valueViewNotifier,
    options )] for arguments of the documented classes. *)
Definition create (d : ExpertDefinition) (vs : ViewState) (n : Notifier)
    (o : Options) : t :=
  {| definition := d;
     uiBaseClass := "valueview-expert-" ++ ed_name d;
     viewPort := Some ViewPortNode;
     _viewState := Some vs;
     _viewNotifier := Some n;
     _options := Some o;
     _messageProvider := Some DefaultMessageProvider;
     _extendable := Some {| extensions := ed_extensions d |};
     raw := JsNull;
     characteristics := ed_valueCharacteristics d;
     preview := if ed_preview d then Some PreviewIdle else None |}.

(** [init] *)
Definition init (this : t) (w : World) : Completion World :=
  match viewPort this, _extendable this with
  | Some _, Some x =>
      let w := {| port := addClass (uiBaseClass this) (port w);
                  calls := calls w |} in
      Normal (callExtensions x "init" w)
  | _, _ => Thrown TypeError
  end.

(** [destroy] *)
Definition destroy (this : t) (w : World) : Completion (t * World) :=
  match viewPort this with
  | None => Normal (this, w) (* destroyed already *)
  | Some _ =>
      match _extendable this with
      | None => Thrown TypeError
      | Some x =>
          let w := callExtensions x "destroy" w in
          let w := {| port := empty_node
                                (removeClass (uiBaseClass this) (port w));
                      calls := calls w |} in
          Normal ({| definition := definition this;
                     uiBaseClass := uiBaseClass this;
                     viewPort := None;
                     _viewState := None;
                     _viewNotifier := None;
                     _options := None;
                     _messageProvider := None;
                     _extendable := _extendable this;
                     raw := raw this;
                     characteristics := characteristics this;
                     preview := preview this |}, w)
      end
  end.

(** [valueCharacteristics] *)
Definition valueCharacteristics (this : t) : JsObject := characteristics this.

(** [viewState] *)
Definition viewState (this : t) : option ViewState := _viewState this.

(** [rawValue], abstract in the base class *)
Definition rawValue (this : t) : JsValue := raw this.

(** [draw]: runs the [draw] callbacks of the extensions; the result is the
    one the definition chose. *)
Definition draw (this : t) (w : World) : Completion (option bool * World) :=
  match _extendable this with
  | None => Thrown TypeError
  | Some x => Normal (ed_draw (definition this), callExtensions x "draw" w)
  end.

(** [preview.update( message )] and [preview.showSpinner()] *)
Definition preview_update (message : string) (this : t) : t :=
  {| definition := definition this; uiBaseClass := uiBaseClass this;
     viewPort := viewPort this; _viewState := _viewState this;
     _viewNotifier := _viewNotifier this; _options := _options this;
     _messageProvider := _messageProvider this;
     _extendable := _extendable this; raw := raw this;
     characteristics := characteristics this;
     preview := (λ _, PreviewContent message) <$> preview this |}.

Definition preview_showSpinner (this : t) : t :=
  {| definition := definition this; uiBaseClass := uiBaseClass this;
     viewPort := viewPort this; _viewState := _viewState this;
     _viewNotifier := _viewNotifier this; _options := _options this;
     _messageProvider := _messageProvider this;
     _extendable := _extendable this; raw := raw this;
     characteristics := characteristics this;
     preview := (λ _, PreviewSpinner) <$> preview this |}.

(** The user edits the input: the raw value and the characteristics the
    expert reports from now on. *)
Definition edited (r : JsValue) (c : JsObject) (this : t) : t :=
  {| definition := definition this; uiBaseClass := uiBaseClass this;
     viewPort := viewPort this; _viewState := _viewState this;
     _viewNotifier := _viewNotifier this; _options := _options this;
     _messageProvider := _messageProvider this;
     _extendable := _extendable this; raw := r;
     characteristics := c;
     preview := preview this |}.

Definition destroyed (this : t) : Prop :=
  viewPort this = None ∧ _viewState this = None ∧ _viewNotifier this = None
  ∧ _messageProvider this = None ∧ _options this = None.

End Expert.


(** ** The widget: data *)

(** The events the widget triggers. *)
Inductive WidgetEvent :=
  | Ev_change
  | Ev_parse
  | Ev_afterparse
  | Ev_afterformat
  | Ev_afterdraw
  | Ev_afterstartediting
  | Ev_afterstopediting (dropValue : bool).

(** A parser or formatter constructor as a store hands it out: its name and
    what [prototype.getOptions()] returns. *)
Record ServiceDefinition := {
  sd_name : string;
  sd_options : JsObject
}.

(** An instantiated parser or formatter: [new Parser( parserOptions )]. *)
Record Service := {
  sv_name : string;
  sv_options : JsObject
}.

(** What an option that should hold a store holds: nothing, an object of
    another class, or a store with its lookup by data value type and data
    type id. *)
Inductive Store (A : Type) :=
  | NoStore
  | ForeignObject
  | StoreInstance (lookup : option string → option string → option A).
Arguments NoStore {A}.
Arguments ForeignObject {A}.
Arguments StoreInstance {A} lookup.

Record Options := {
  expertStore : Store ExpertDefinition;
  parserStore : Store ServiceDefinition;
  formatterStore : Store ServiceDefinition;
  dataTypeId : option string;
  dataValueType : option string;
  opt_value : option DataValue;
  language : JsValue;
  autoStartEditing : bool;
  parseDelay : nat;
  contentLanguages : option string;
  messageProvider : option string;
  disabled : bool
}.

(** The defaults of the prototype's [options]. *)
Definition default_options : Options :=
  {| expertStore := NoStore; parserStore := NoStore; formatterStore := NoStore;
     dataTypeId := None; dataValueType := None; opt_value := None;
     language := JsNull; autoStartEditing := false; parseDelay := 300;
     contentLanguages := None; messageProvider := None; disabled := false |}.

Definition set_disabled (x : bool) (o : Options) : Options :=
  {| expertStore := expertStore o; parserStore := parserStore o;
     formatterStore := formatterStore o; dataTypeId := dataTypeId o;
     dataValueType := dataValueType o; opt_value := opt_value o;
     language := language o; autoStartEditing := autoStartEditing o;
     parseDelay := parseDelay o; contentLanguages := contentLanguages o;
     messageProvider := messageProvider o; disabled := x |}.

(** The members of the widget object. *)
Record Widget := {
  _value : option DataValue;
  _formattedValue : option string;
  (** [undefined] until [_updateTextValue] first assigns it *)
  _textValue : option string;
  _initialValue : option DataValue;
  _isInEditMode : bool;
  (** a reference to the expert object *)
  _expert : option nat;
  _expertConstructor : option ExpertDefinition;
  _parseTimer : option nat;
  __lastUpdateValue : JsValue;
  __lastValueCharacteristics : option JsObject;
  options : Options
}.

(** A child of the widget's [element]: markup of a formatted value, or the
    [$value] node that experts use as their view port. *)
Inductive Node :=
  | Markup (html : string)
  | ValueNode.

#[global] Instance Node_eq_dec : EqDecision Node.
Proof. solve_decision. Defined.

(** The part of the document the widget owns: the children of [element], its
    two mode classes, and the [$value] node (attached or not). *)
Record Dom := {
  children : list Node;
  instaticmode : bool;
  ineditmode : bool;
  value_node : ViewPort
}.

(** The closure handed to [setTimeout] by [_parseValue]. *)
Record TimerJob := {
  tj_delay : nat;
  tj_expert : nat;
  tj_rawValue : JsValue;
  tj_valueParser : Service
}.

(** A request the parser has not answered yet, with the [rawValue] its
    callbacks have closed over. *)
Record ParseJob := {
  pj_rawValue : JsValue;
  pj_valueParser : Service
}.

(** What is waiting on a formatter's answer. *)
Inductive FormatCallbacks :=
  | In_setValue
  | In_updateValue
  | In_updateTextValue (done : list WidgetEvent).

(** A request the formatter has not answered yet. *)
Record FormatJob := {
  fj_dataValue : DataValue;
  fj_dataTypeId : option string;
  fj_outputFormat : string;
  fj_valueFormatter : Service;
  fj_callbacks : FormatCallbacks
}.

(** Everything outside the widget object: the expert objects, the extension
    callbacks run so far, pending timers, requests in flight, the next free
    id for timers and requests, and the events triggered so far. *)
Record Env := {
  experts : gmap nat Expert.t;
  calls : list (nat * string);
  timers : gmap nat TimerJob;
  parsing : gmap nat ParseJob;
  formatting : gmap nat FormatJob;
  next_id : nat;
  events : list WidgetEvent
}.

Record State := {
  this : Widget;
  dom : Dom;
  env : Env
}.

(** *** Field updates *)

Definition set__value (x : option DataValue) (r : Widget) : Widget :=
  {| _value := x; _formattedValue := _formattedValue r; _textValue :=
     _textValue r; _initialValue := _initialValue r; _isInEditMode :=
     _isInEditMode r; _expert := _expert r; _expertConstructor :=
     _expertConstructor r; _parseTimer := _parseTimer r; __lastUpdateValue
     := __lastUpdateValue r; __lastValueCharacteristics :=
     __lastValueCharacteristics r; options := options r |}.

Definition set__formattedValue (x : option string) (r : Widget) : Widget :=
  {| _value := _value r; _formattedValue := x; _textValue := _textValue r;
     _initialValue := _initialValue r; _isInEditMode := _isInEditMode r;
     _expert := _expert r; _expertConstructor := _expertConstructor r;
     _parseTimer := _parseTimer r; __lastUpdateValue := __lastUpdateValue r;
     __lastValueCharacteristics := __lastValueCharacteristics r; options :=
     options r |}.

Definition set__textValue (x : option string) (r : Widget) : Widget :=
  {| _value := _value r; _formattedValue := _formattedValue r; _textValue :=
     x; _initialValue := _initialValue r; _isInEditMode := _isInEditMode r;
     _expert := _expert r; _expertConstructor := _expertConstructor r;
     _parseTimer := _parseTimer r; __lastUpdateValue := __lastUpdateValue r;
     __lastValueCharacteristics := __lastValueCharacteristics r; options :=
     options r |}.

Definition set__initialValue (x : option DataValue) (r : Widget) : Widget :=
  {| _value := _value r; _formattedValue := _formattedValue r; _textValue :=
     _textValue r; _initialValue := x; _isInEditMode := _isInEditMode r;
     _expert := _expert r; _expertConstructor := _expertConstructor r;
     _parseTimer := _parseTimer r; __lastUpdateValue := __lastUpdateValue r;
     __lastValueCharacteristics := __lastValueCharacteristics r; options :=
     options r |}.

Definition set__isInEditMode (x : bool) (r : Widget) : Widget :=
  {| _value := _value r; _formattedValue := _formattedValue r; _textValue :=
     _textValue r; _initialValue := _initialValue r; _isInEditMode := x;
     _expert := _expert r; _expertConstructor := _expertConstructor r;
     _parseTimer := _parseTimer r; __lastUpdateValue := __lastUpdateValue r;
     __lastValueCharacteristics := __lastValueCharacteristics r; options :=
     options r |}.

Definition set__expert (x : option nat) (r : Widget) : Widget :=
  {| _value := _value r; _formattedValue := _formattedValue r; _textValue :=
     _textValue r; _initialValue := _initialValue r; _isInEditMode :=
     _isInEditMode r; _expert := x; _expertConstructor := _expertConstructor
     r; _parseTimer := _parseTimer r; __lastUpdateValue := __lastUpdateValue
     r; __lastValueCharacteristics := __lastValueCharacteristics r; options
     := options r |}.

Definition set__expertConstructor (x : option ExpertDefinition) (r : Widget) : Widget :=
  {| _value := _value r; _formattedValue := _formattedValue r; _textValue :=
     _textValue r; _initialValue := _initialValue r; _isInEditMode :=
     _isInEditMode r; _expert := _expert r; _expertConstructor := x;
     _parseTimer := _parseTimer r; __lastUpdateValue := __lastUpdateValue r;
     __lastValueCharacteristics := __lastValueCharacteristics r; options :=
     options r |}.

Definition set__parseTimer (x : option nat) (r : Widget) : Widget :=
  {| _value := _value r; _formattedValue := _formattedValue r; _textValue :=
     _textValue r; _initialValue := _initialValue r; _isInEditMode :=
     _isInEditMode r; _expert := _expert r; _expertConstructor :=
     _expertConstructor r; _parseTimer := x; __lastUpdateValue :=
     __lastUpdateValue r; __lastValueCharacteristics :=
     __lastValueCharacteristics r; options := options r |}.

Definition set___lastUpdateValue (x : JsValue) (r : Widget) : Widget :=
  {| _value := _value r; _formattedValue := _formattedValue r; _textValue :=
     _textValue r; _initialValue := _initialValue r; _isInEditMode :=
     _isInEditMode r; _expert := _expert r; _expertConstructor :=
     _expertConstructor r; _parseTimer := _parseTimer r; __lastUpdateValue
     := x; __lastValueCharacteristics := __lastValueCharacteristics r;
     options := options r |}.

Definition set___lastValueCharacteristics (x : option JsObject) (r : Widget) : Widget :=
  {| _value := _value r; _formattedValue := _formattedValue r; _textValue :=
     _textValue r; _initialValue := _initialValue r; _isInEditMode :=
     _isInEditMode r; _expert := _expert r; _expertConstructor :=
     _expertConstructor r; _parseTimer := _parseTimer r; __lastUpdateValue
     := __lastUpdateValue r; __lastValueCharacteristics := x; options :=
     options r |}.

Definition set_options (x : Options) (r : Widget) : Widget :=
  {| _value := _value r; _formattedValue := _formattedValue r; _textValue :=
     _textValue r; _initialValue := _initialValue r; _isInEditMode :=
     _isInEditMode r; _expert := _expert r; _expertConstructor :=
     _expertConstructor r; _parseTimer := _parseTimer r; __lastUpdateValue
     := __lastUpdateValue r; __lastValueCharacteristics :=
     __lastValueCharacteristics r; options := x |}.

Definition set_children (x : list Node) (r : Dom) : Dom :=
  {| children := x; instaticmode := instaticmode r; ineditmode := ineditmode
     r; value_node := value_node r |}.

Definition set_instaticmode (x : bool) (r : Dom) : Dom :=
  {| children := children r; instaticmode := x; ineditmode := ineditmode r;
     value_node := value_node r |}.

Definition set_ineditmode (x : bool) (r : Dom) : Dom :=
  {| children := children r; instaticmode := instaticmode r; ineditmode :=
     x; value_node := value_node r |}.

Definition set_value_node (x : ViewPort) (r : Dom) : Dom :=
  {| children := children r; instaticmode := instaticmode r; ineditmode :=
     ineditmode r; value_node := x |}.

Definition set_experts (x : gmap nat Expert.t) (r : Env) : Env :=
  {| experts := x; calls := calls r; timers := timers r; parsing := parsing
     r; formatting := formatting r; next_id := next_id r; events := events r
     |}.

Definition set_calls (x : list (nat * string)) (r : Env) : Env :=
  {| experts := experts r; calls := x; timers := timers r; parsing :=
     parsing r; formatting := formatting r; next_id := next_id r; events :=
     events r |}.

Definition set_timers (x : gmap nat TimerJob) (r : Env) : Env :=
  {| experts := experts r; calls := calls r; timers := x; parsing := parsing
     r; formatting := formatting r; next_id := next_id r; events := events r
     |}.

Definition set_parsing (x : gmap nat ParseJob) (r : Env) : Env :=
  {| experts := experts r; calls := calls r; timers := timers r; parsing :=
     x; formatting := formatting r; next_id := next_id r; events := events r
     |}.

Definition set_formatting (x : gmap nat FormatJob) (r : Env) : Env :=
  {| experts := experts r; calls := calls r; timers := timers r; parsing :=
     parsing r; formatting := x; next_id := next_id r; events := events r |}.

Definition set_next_id (x : nat) (r : Env) : Env :=
  {| experts := experts r; calls := calls r; timers := timers r; parsing :=
     parsing r; formatting := formatting r; next_id := x; events := events r
     |}.

Definition set_events (x : list WidgetEvent) (r : Env) : Env :=
  {| experts := experts r; calls := calls r; timers := timers r; parsing :=
     parsing r; formatting := formatting r; next_id := next_id r; events :=
     x |}.

Definition on_this (f : Widget → Widget) (st : State) : State :=
  {| this := f (this st); dom := dom st; env := env st |}.

Definition on_dom (f : Dom → Dom) (st : State) : State :=
  {| this := this st; dom := f (dom st); env := env st |}.

Definition on_env (f : Env → Env) (st : State) : State :=
  {| this := this st; dom := dom st; env := f (env st) |}.

(** ** The widget: methods *)

(** A method runs on the state and either returns or throws, leaving the
    state as it was at that point. *)
Definition JS (A : Type) : Type := State → Completion A * State.

Definition ret {A} (a : A) : JS A := λ st, (Normal a, st).

Definition throw {A} (e : Error) : JS A := λ st, (Thrown e, st).

Definition bind {A B} (m : JS A) (k : A → JS B) : JS B :=
  λ st, match m st with
        | (Normal a, st') => k a st'
        | (Thrown e, st') => (Thrown e, st')
        end.

Definition get : JS State := λ st, (Normal st, st).

Definition modify (f : State → State) : JS unit := λ st, (Normal tt, f st).

Declare Scope js_scope.
Delimit Scope js_scope with js.
Notation "x ← y ; z" := (bind y (λ x, z))
  (at level 20, y at level 100, z at level 200, only parsing) : js_scope.
Notation "y ;; z" := (bind y (λ _, z))
  (at level 100, z at level 200, only parsing, right associativity) : js_scope.

(** The state a call leaves behind, and what it returned. *)
Definition exec {A} (m : JS A) (st : State) : State := (m st).2.
Definition result {A} (m : JS A) (st : State) : Completion A := (m st).1.

(** [when c m]: [if( c ) { m }] *)
Definition when (c : bool) (m : JS unit) : JS unit :=
  if c then m else ret tt.

(** [this._trigger( e )] *)
Definition _trigger (e : WidgetEvent) : JS unit :=
  modify (on_env (λ n, set_events (events n ++ [e]) n)).

(** A fresh id, as [setTimeout] and the services issue them. *)
Definition fresh : JS nat :=
  λ st, (Normal (next_id (env st)),
         on_env (set_next_id (S (next_id (env st)))) st).

(** The part of the state an expert acts on, and its write-back. *)
Definition world (st : State) : Expert.World :=
  {| Expert.port := value_node (dom st); Expert.calls := calls (env st) |}.

Definition put_world (w : Expert.World) (st : State) : State :=
  on_dom (set_value_node (Expert.port w))
    (on_env (set_calls (Expert.calls w)) st).

Definition put_expert (r : nat) (e : Expert.t) (st : State) : State :=
  on_env (λ n, set_experts (<[r := e]> (experts n)) n) st.

(** A change made in place to the expert object [r]. *)
Definition on_expert (r : nat) (f : Expert.t → Expert.t) (st : State) : State :=
  on_env (λ n, set_experts (alter f r (experts n)) n) st.

(** The object behind [this._expert], if any. *)
Definition the_expert (st : State) : option Expert.t :=
  r ← _expert (this st); experts (env st) !! r.

Local Open Scope js_scope.

Section Widget.

(** [$.valueview.experts.EmptyValue] and [$.valueview.experts.UnsupportedValue],
    two expert definitions that live outside the widget's source file. *)
Variables EmptyValue UnsupportedValue : ExpertDefinition.

Definition isInEditMode : JS bool :=
  st ← get; ret (_isInEditMode (this st)).

Definition isDisabled : JS bool :=
  st ← get; ret (disabled (options (this st))).

Definition getFormattedValue : JS (option string) :=
  st ← get; ret (_formattedValue (this st)).

(** [getTextValue]; [_textValue] is never [null], it is [undefined] or a
    string, so the error of the source cannot be raised. *)
Definition getTextValue : JS JsValue :=
  st ← get;
  ret (match _textValue (this st) with
       | Some s => JsString s
       | None => JsUndefined
       end).

Definition expert : JS (option nat) :=
  st ← get; ret (_expert (this st)).

(** [_determineDataValueType] *)
Definition _determineDataValueType : JS (option string) :=
  st ← get;
  ret (match _value (this st) with
       | Some v =>
           if negb (truthy_string (dataValueType (options (this st))))
           then Some (dv_type v)
           else dataValueType (options (this st))
       | None => dataValueType (options (this st))
       end).

(** [_updateExpertConstructor] *)
Definition _updateExpertConstructor : JS unit :=
  st ← get;
  match expertStore (options (this st)) with
  | StoreInstance getExpert =>
      dataValueType ← _determineDataValueType;
      modify (on_this (set__expertConstructor (Some EmptyValue)));;
      when (truthy_string dataValueType
            || truthy_string (dataTypeId (options (this st))))
        (modify (on_this (set__expertConstructor
           (Some (default UnsupportedValue
                    (getExpert dataValueType
                       (dataTypeId (options (this st)))))))))
  | _ => throw NoExpertStore
  end.

(** [_destroyExpert] *)
Definition _destroyExpert : JS unit :=
  st ← get;
  match _expert (this st), the_expert st with
  | Some r, Some e =>
      match Expert.destroy e (world st) with
      | Normal (e', w) =>
          modify (put_world w);;
          modify (put_expert r e');;
          modify (on_this (set__expert None))
      | Thrown err => throw err
      end
  | _, _ => throw TypeError
  end.

(** [_updateExpert] *)
Definition _updateExpert : JS unit :=
  st ← get;
  let compatible :=
    match the_expert st, _expertConstructor (this st) with
    | Some e, Some c => bool_decide (Expert.definition e = c)
    | _, _ => false
    end in
  if compatible then ret tt (* fully compatible expert *) else
  when (bool_decide (is_Some (_expert (this st)))) _destroyExpert;;
  match _expertConstructor (this st) with
  | Some c =>
      r ← fresh;
      let e := Expert.create c Expert.ViewStateOfView Expert.NotifierOfView
                 {| Expert.contentLanguages :=
                      contentLanguages (options (this st));
                    Expert.messageProvider :=
                      messageProvider (options (this st)) |} in
      modify (λ s, on_this (set__expert (Some r)) (put_expert r e s));;
      st' ← get;
      match Expert.init e (world st') with
      | Normal w => modify (put_world w)
      | Thrown err => throw err
      end
  | None => ret tt
  end.

(** [valueCharacteristics] *)
Definition valueCharacteristics : JS JsObject :=
  st ← get;
  match _expert (this st) with
  | Some _ =>
      match the_expert st with
      | Some e => ret (Expert.valueCharacteristics e)
      | None => throw TypeError
      end
  | None =>
      match _expertConstructor (this st) with
      | Some c => ret (ed_valueCharacteristics c)
      | None => ret ∅
      end
  end.

(** The common part of [_instantiateParser] and [_instantiateFormatter],
    once the store has been checked. *)
Definition instantiate
    (lookup : option string → option string → option ServiceDefinition)
    (additionalOptions : JsObject) : JS Service :=
  st ← get;
  dataValueType ← _determineDataValueType;
  match lookup dataValueType (dataTypeId (options (this st))) with
  | Some d =>
      ret {| sv_name := sd_name d;
             sv_options :=
               extend (extend {[ "lang" := language (options (this st)) ]}
                         (sd_options d))
                      additionalOptions |}
  | None => throw TypeError
  end.

(** [_instantiateParser] *)
Definition _instantiateParser (additionalParserOptions : JsObject)
  : JS Service :=
  st ← get;
  match parserStore (options (this st)) with
  | StoreInstance getParser => instantiate getParser additionalParserOptions
  | _ => throw NoParserStore
  end.

(** [_instantiateFormatter] *)
Definition _instantiateFormatter (additionalFormatterOptions : JsObject)
  : JS Service :=
  st ← get;
  match formatterStore (options (this st)) with
  | StoreInstance getFormatter =>
      instantiate getFormatter additionalFormatterOptions
  | _ => throw NoFormatterStore
  end.

(** *** Drawing *)

(** [element.html( x )] for a string or [null]: the children it leaves. *)
Definition html_nodes (x : option string) : list Node :=
  match x with
  | Some (String a s) => [Markup (String a s)]
  | _ => []
  end.

(** [element.html()]: the markup of the children; the [$value] node, which
    is never attached when this is read, is rendered as an empty [div]. *)
Definition innerHTML (l : list Node) : string :=
  foldr (λ n acc, match n with
                  | Markup s => s ++ acc
                  | ValueNode => "<div></div>" ++ acc
                  end) EmptyString l.

(** [$value.detach()] *)
Definition detach_value (l : list Node) : list Node :=
  filter (λ n, n ≠ ValueNode) l.

(** Running the [done] handlers chained on a promise: each triggers an
    event. *)
Definition trigger_all (done : list WidgetEvent) : JS unit :=
  foldr (λ e k, _trigger e;; k) (ret tt) done.

(** [drawStaticContent] *)
Definition drawStaticContent : JS unit :=
  formatted ← getFormattedValue;
  modify (on_dom (set_children (html_nodes formatted))).

(** The function [drawContent] passes to [_updateTextValue().then]; [done]
    are the handlers waiting on the promise [drawContent] returned. *)
Definition drawContent_then (done : list WidgetEvent) : JS unit :=
  editing ← isInEditMode;
  if negb editing then ret tt (* edit mode was left meanwhile *) else
  _updateExpert;;
  st ← get;
  match the_expert st with
  | Some e =>
      match Expert.draw e (world st) with
      | Normal (drawn, w) =>
          modify (put_world w);;
          match drawn with
          | Some true => trigger_all done
          | Some false => ret tt
          | None => throw TypeError
          end
      | Thrown err => throw err
      end
  | None => throw TypeError
  end.

(** [_updateTextValue]; returns whether the promise is resolved on return.
    Otherwise a request to the formatter is in flight, which carries the
    callbacks that wait for it. *)
Definition _updateTextValue (callbacks : FormatCallbacks) : JS bool :=
  st ← get;
  match _value (this st) with
  | None =>
      modify (on_this (set__textValue (Some EmptyString)));;
      ret true
  | Some dataValue =>
      characteristics ← valueCharacteristics;
      valueFormatter ← _instantiateFormatter characteristics;
      id ← fresh;
      modify (on_env (λ n, set_formatting
        (<[id := {| fj_dataValue := dataValue;
                    fj_dataTypeId :=
                      if truthy_string (dataTypeId (options (this st)))
                      then dataTypeId (options (this st)) else None;
                    fj_outputFormat := "text/plain";
                    fj_valueFormatter := valueFormatter;
                    fj_callbacks := callbacks |}]> (formatting n)) n));;
      ret false
  end.

(** [drawContent]; [done] are the handlers the caller chains on the promise
    it returns. *)
Definition drawContent (done : list WidgetEvent) : JS unit :=
  editing ← isInEditMode;
  if editing then
    (resolved ← _updateTextValue (In_updateTextValue done);
     when resolved (drawContent_then done))
  else
    (drawStaticContent;;
     trigger_all done).

(** [draw]; the call of [jQuery.Widget]'s [option( 'disabled', .. )] sets
    the option to the value it has and is left out. *)
Definition draw (done : list WidgetEvent) : JS unit :=
  editing ← isInEditMode;
  modify (on_dom (λ d, set_ineditmode editing
                         (set_instaticmode (negb editing) d)));;
  drawContent (Ev_afterdraw :: done).

(** [_renderError] *)
Definition _renderError (message : string) : JS unit :=
  st ← get;
  match _expert (this st), the_expert st with
  | Some r, Some e =>
      when (bool_decide (is_Some (Expert.preview e)))
        (modify (on_expert r (Expert.preview_update message)))
  | _, _ => ret tt
  end.

(** *** Values *)

(** [_formatValue]; the promise it returns is always pending on return, and
    [callbacks] are the handlers the caller chains on it. *)
Definition _formatValue (dataValue : DataValue) (callbacks : FormatCallbacks)
  : JS unit :=
  st ← get;
  characteristics ← valueCharacteristics;
  valueFormatter ← _instantiateFormatter characteristics;
  id ← fresh;
  modify (on_env (λ n, set_formatting
    (<[id := {| fj_dataValue := dataValue;
                fj_dataTypeId :=
                  if truthy_string (dataTypeId (options (this st)))
                  then dataTypeId (options (this st)) else None;
                fj_outputFormat := "text/html";
                fj_valueFormatter := valueFormatter;
                fj_callbacks := callbacks |}]> (formatting n)) n)).

(** [_setValue] *)
Definition _setValue (value : JsValue) : JS unit :=
  match value with
  | JsNull | JsData _ =>
      st ← get;
      let unchanged :=
        match _value (this st), value with
        | Some old, JsData new => same_json new old
        | _, _ => false
        end in
      if unchanged then ret tt else
      let new := match value with JsData d => Some d | _ => None end in
      modify (on_this (set__value new));;
      _updateExpertConstructor;;
      match new with
      | None =>
          modify (on_this (set__formattedValue None));;
          draw []
      | Some v => _formatValue v In_setValue
      end
  | _ => throw DataValueRequired
  end.

(** [value]: the getter when called with [undefined], the setter
    otherwise. *)
Definition value (value : JsValue) : JS JsValue :=
  match value with
  | JsUndefined => st ← get; ret (of_data (_value (this st)))
  | _ =>
      if negb (strict_eq value JsNull) && negb (instanceof_DataValue value)
      then throw NotADataValue
      else _setValue value;; ret JsUndefined
  end.

(** [isEmpty] *)
Definition isEmpty : JS bool :=
  v ← value JsUndefined; ret (strict_eq v JsNull).

(** [initialValue] *)
Definition initialValue : JS JsValue :=
  editing ← isInEditMode;
  if negb editing then value JsUndefined
  else st ← get; ret (of_data (_initialValue (this st))).

(** *** Edit mode *)

(** What [this._initialValue = this.value()] stores: [value()] only ever
    returns [null] or a data value. *)
Definition as_data (x : JsValue) : option DataValue :=
  match x with JsData d => Some d | _ => None end.

(** [startEditing] *)
Definition startEditing : JS unit :=
  editing ← isInEditMode;
  if editing then ret tt else
  current ← value JsUndefined;
  modify (on_this (set__initialValue (as_data current)));;
  modify (on_this (set__isInEditMode true));;
  modify (on_dom (set_children [ValueNode]));;
  draw [Ev_afterstartediting].

(** [stopEditing] *)
Definition stopEditing (dropValue : bool) : JS unit :=
  editing ← isInEditMode;
  if negb editing then ret tt else
  when dropValue
    (initial ← initialValue; value initial;; ret tt);;
  modify (on_this (set__initialValue None));;
  modify (on_this (set__isInEditMode false));;
  modify (on_this (set___lastValueCharacteristics None));;
  st ← get;
  when (bool_decide (is_Some (_expert (this st)))) _destroyExpert;;
  modify (on_dom (λ d, set_children (detach_value (children d)) d));;
  draw [Ev_afterstopediting dropValue].

(** [cancelEditing] *)
Definition cancelEditing : JS unit := stopEditing true.

(** [_setDisabled], [disable], [enable] *)
Definition _setDisabled (disabledValue : bool) : JS unit :=
  st ← get;
  if bool_decide (disabled (options (this st)) = disabledValue) then ret tt
  else
    modify (on_this (λ w, set_options (set_disabled disabledValue (options w))
                            w));;
    draw [].

Definition disable : JS unit := _setDisabled true.
Definition enable : JS unit := _setDisabled false.

(** *** Parsing *)

(** A [$.Deferred()]: once rejected or resolved it ignores further calls. *)
Inductive Deferred := Pending | Settled.

(** [deferred.resolve( .. )] and [deferred.reject( .. )], given what the
    handlers chained on the promise do. *)
Definition settle (d : Deferred) (handlers : JS unit) : JS Deferred :=
  match d with
  | Pending => handlers;; ret Settled
  | Settled => ret Settled
  end.

(** [clearTimeout] *)
Definition clearTimeout (id : nat) : JS unit :=
  modify (on_env (λ n, set_timers (delete id (timers n)) n)).

(** Truthiness of a timer id. *)
Definition truthy_id (t : option nat) : bool :=
  match t with Some (S _) => true | _ => false end.

(** [_parseValue]; returns the value the promise is resolved with when that
    happens before it returns, and nothing when the promise is still
    pending: then a timer is waiting. *)
Definition _parseValue : JS (option JsValue) :=
  st ← get;
  match _expert (this st), the_expert st with
  | Some r, Some e =>
      let rawValue := Expert.rawValue e in
      _trigger Ev_parse;;
      if strict_eq rawValue JsNull || instanceof_DataValue rawValue then
        modify (on_this (set___lastUpdateValue JsUndefined));;
        _trigger Ev_afterparse;;
        ret (Some rawValue)
      else
        when (truthy_id (_parseTimer (this st)))
          (clearTimeout (default 0 (_parseTimer (this st))));;
        characteristics ← valueCharacteristics;
        valueParser ← _instantiateParser characteristics;
        modify (on_this (set___lastUpdateValue rawValue));;
        id ← fresh;
        modify (on_env (λ n, set_timers
          (<[id := {| tj_delay := parseDelay (options (this st));
                      tj_expert := r;
                      tj_rawValue := rawValue;
                      tj_valueParser := valueParser |}]> (timers n)) n));;
        modify (on_this (set__parseTimer (Some id)));;
        ret None
  | _, _ => throw TypeError
  end.

(** The [done] handler of [_updateValue]. *)
Definition _updateValue_done (parsedValue : JsValue) : JS unit :=
  modify (on_this (set__value (as_data parsedValue)));;
  match as_data parsedValue with
  | None =>
      modify (on_this (set__formattedValue None));;
      drawContent []
  | Some v => _formatValue v In_updateValue
  end.

(** The [fail] handler of [_updateValue]. *)
Definition _updateValue_fail (message : option string) : JS unit :=
  match message with
  | Some (String a s) =>
      modify (on_this (set__value None));;
      _renderError (String a s)
  | _ => ret tt
  end.

(** [_updateValue] *)
Definition _updateValue : JS unit :=
  resolved ← _parseValue;
  match resolved with
  | Some parsedValue => _updateValue_done parsedValue
  | None => ret tt
  end.

(** The function [_parseValue] hands to [setTimeout], run when timer [id]
    expires; the timer is then no longer pending. *)
Definition timer_expired (id : nat) : JS unit :=
  st ← get;
  match timers (env st) !! id with
  | Some job =>
      clearTimeout id;;
      match experts (env st) !! tj_expert job with
      | Some e =>
          when (bool_decide (is_Some (Expert.preview e)))
            (modify (on_expert (tj_expert job) Expert.preview_showSpinner))
      | None => ret tt
      end;;
      request ← fresh;
      modify (on_env (λ n, set_parsing
        (<[request := {| pj_rawValue := tj_rawValue job;
                         pj_valueParser := tj_valueParser job |}]>
           (parsing n)) n))
  | None => ret tt
  end.

(** The parser answers request [id] with [parsedValue]. *)
Definition parser_done (id : nat) (parsedValue : JsValue) : JS unit :=
  st ← get;
  match parsing (env st) !! id with
  | Some job =>
      modify (on_env (λ n, set_parsing (delete id (parsing n)) n));;
      if negb (strict_eq parsedValue JsNull)
         && negb (instanceof_DataValue parsedValue)
      then throw UnexpectedParserResult else
      deferred ←
        (if strict_eq (__lastUpdateValue (this st)) JsUndefined
            || negb (strict_eq (__lastUpdateValue (this st)) (pj_rawValue job))
         then settle Pending (_updateValue_fail None)
         else modify (on_this (set___lastUpdateValue JsUndefined));;
              ret Pending);
      settle deferred (_updateValue_done parsedValue);;
      _trigger Ev_afterparse
  | None => ret tt
  end.

(** The parser fails on request [id]. *)
Definition parser_fail (id : nat) (message : option string) : JS unit :=
  st ← get;
  match parsing (env st) !! id with
  | Some job =>
      modify (on_env (λ n, set_parsing (delete id (parsing n)) n));;
      _updateValue_fail message;;
      _trigger Ev_afterparse
  | None => ret tt
  end.

(** *** Formatting *)

(** What the handlers chained on a formatting promise do once it is
    resolved with [formattedValue]. *)
Definition format_resolved (callbacks : FormatCallbacks)
    (formattedValue : string) : JS unit :=
  match callbacks with
  | In_setValue =>
      modify (on_this (set__formattedValue (Some formattedValue)));;
      draw []
  | In_updateValue =>
      modify (on_this (set__formattedValue (Some formattedValue)));;
      drawContent []
  | In_updateTextValue done =>
      modify (on_this (set__textValue (Some formattedValue)));;
      drawContent_then done
  end.

(** What they do once it is rejected with [message]. *)
Definition format_rejected (callbacks : FormatCallbacks)
    (message : option string) : JS unit :=
  match callbacks, message with
  | In_setValue, Some (String a s) => _renderError (String a s)
  | In_updateValue, Some (String a s) =>
      modify (on_this (set__formattedValue None));;
      _renderError (String a s)
  | _, _ => ret tt
  end.

(** [.always( function() { self._trigger( 'afterformat' ); } )], which
    [_formatValue] chains and [_updateTextValue] does not. *)
Definition format_always (callbacks : FormatCallbacks) : JS unit :=
  match callbacks with
  | In_updateTextValue _ => ret tt
  | _ => _trigger Ev_afterformat
  end.

(** The formatter answers request [id]. *)
Definition formatter_done (id : nat) (formattedValue : string)
    (formattedDataValue : JsValue) : JS unit :=
  st ← get;
  match formatting (env st) !! id with
  | Some job =>
      modify (on_env (λ n, set_formatting (delete id (formatting n)) n));;
      (if strict_eq (JsData (fj_dataValue job)) formattedDataValue
       then format_resolved (fj_callbacks job) formattedValue
       else (* late response that should be ignored *)
            format_rejected (fj_callbacks job) None);;
      format_always (fj_callbacks job)
  | None => ret tt
  end.

(** The formatter fails on request [id]. *)
Definition formatter_fail (id : nat) (message : option string) : JS unit :=
  st ← get;
  match formatting (env st) !! id with
  | Some job =>
      modify (on_env (λ n, set_formatting (delete id (formatting n)) n));;
      format_rejected (fj_callbacks job) message;;
      format_always (fj_callbacks job)
  | None => ret tt
  end.

(** *** Notifications from the expert *)

(** The two loops of the [change] handler over the keys of the new and of
    the last value characteristics. *)
Definition differentValueCharacteristics (new last : JsObject) : bool :=
  let differs i := negb (strict_eq (prop new i) (prop last i)) in
  existsb differs (map_to_list new).*1 || existsb differs (map_to_list last).*1.

(** The [change] handler of [viewNotifier]. *)
Definition viewNotifier_change : JS unit :=
  st ← get;
  match _expert (this st) with
  | None => ret tt
  | Some _ =>
      match the_expert st with
      | Some e =>
          let newValueCharacteristics := Expert.valueCharacteristics e in
          let lastValueCharacteristics :=
            default ∅ (__lastValueCharacteristics (this st)) in
          text ← getTextValue;
          let changeDetected :=
            differentValueCharacteristics newValueCharacteristics
              lastValueCharacteristics
            || negb (strict_eq text (Expert.rawValue e)) in
          when changeDetected
            (modify (on_this (set___lastValueCharacteristics
                                (Some newValueCharacteristics)));;
             _trigger Ev_change;;
             _updateValue)
      | None => throw TypeError
      end
  end.

(** The user edits the input of the current expert, which then notifies the
    view of a change. *)
Definition expert_edited (rawValue : JsValue) (characteristics : JsObject)
  : JS unit :=
  st ← get;
  match _expert (this st), the_expert st with
  | Some r, Some e =>
      modify (on_expert r (Expert.edited rawValue characteristics))
  | _, _ => ret tt
  end;;
  viewNotifier_change.

(** *** Creation *)

(** The widget object before [_create] runs, on an element holding
    [markup]. *)
Definition new_widget (o : Options) (markup : string) : State :=
  {| this := {| _value := None; _formattedValue := None; _textValue := None;
                _initialValue := None; _isInEditMode := false;
                _expert := None; _expertConstructor := None;
                _parseTimer := None; __lastUpdateValue := JsUndefined;
                __lastValueCharacteristics := None; options := o |};
     dom := {| children := html_nodes (Some markup);
               instaticmode := false; ineditmode := false;
               value_node := {| vp_classes := ["valueview-value"];
                                vp_contents := [] |} |};
     env := {| experts := ∅; calls := []; timers := ∅; parsing := ∅;
               formatting := ∅; next_id := 1; events := [] |} |}.

(** [_initValue] *)
Definition _initValue (v : option DataValue) : JS unit :=
  st ← get;
  let formattedValue := innerHTML (children (dom st)) in
  if negb (truthy_string (Some formattedValue)) then
    value (of_data v);; ret tt
  else
    modify (on_this (set__value v));;
    modify (on_this (set__formattedValue (Some formattedValue)));;
    _updateExpertConstructor;;
    draw [].

Definition is_store {A} (s : Store A) : bool :=
  match s with NoStore => false | _ => true end.

Definition is_string (x : JsValue) : bool :=
  match x with JsString _ => true | _ => false end.

(** [_create] *)
Definition _create : JS unit :=
  st ← get;
  let o := options (this st) in
  if negb (is_store (expertStore o)) || negb (is_store (parserStore o))
     || negb (is_store (formatterStore o)) || negb (is_string (language o))
  then throw RequiredOptionsMissing else
  _initValue (opt_value o);;
  empty ← isEmpty;
  when (autoStartEditing o && empty) startEditing.

(** *** Destruction *)

(** [destroy]: the classes the widget added are removed and the expert, if
    there is one, is destroyed; what [jQuery.Widget]'s own [destroy] does to
    the widget's registration is outside the model. *)
Definition destroy : JS unit :=
  modify (on_dom (λ d, set_ineditmode false (set_instaticmode false d)));;
  st ← get;
  when (bool_decide (is_Some (_expert (this st)))) _destroyExpert.

(** ** The widget as a reactive system *)

(** What can happen to a widget: calls of its public methods, edits in the
    expert's input, expiry of a timer, and answers of the two services. *)
Inductive Input :=
  | Call_startEditing
  | Call_stopEditing (dropValue : bool)
  | Call_cancelEditing
  | Call_value (x : JsValue)
  | Call_draw
  | Call_disable
  | Call_enable
  | ExpertEdited (rawValue : JsValue) (characteristics : JsObject)
  | TimerExpired (id : nat)
  | ParserDone (id : nat) (parsedValue : JsValue)
  | ParserFail (id : nat) (message : option string)
  | FormatterDone (id : nat) (formattedValue : string)
      (formattedDataValue : JsValue)
  | FormatterFail (id : nat) (message : option string).

Definition handle (i : Input) : JS unit :=
  match i with
  | Call_startEditing => startEditing
  | Call_stopEditing dropValue => stopEditing dropValue
  | Call_cancelEditing => cancelEditing
  | Call_value x => value x;; ret tt
  | Call_draw => draw []
  | Call_disable => disable
  | Call_enable => enable
  | ExpertEdited rawValue characteristics =>
      expert_edited rawValue characteristics
  | TimerExpired id => timer_expired id
  | ParserDone id parsedValue => parser_done id parsedValue
  | ParserFail id message => parser_fail id message
  | FormatterDone id formattedValue formattedDataValue =>
      formatter_done id formattedValue formattedDataValue
  | FormatterFail id message => formatter_fail id message
  end.

(** One input after the other; an error thrown by a handler ends that
    handler and leaves the state as it is. *)
Definition run (inputs : list Input) (st : State) : State :=
  foldl (λ s i, exec (handle i) s) st inputs.

(** The states a widget created with options [o] on an element holding
    [markup] can be in. *)
Inductive reachable (o : Options) (markup : string) : State → Prop :=
  | reachable_created :
      reachable o markup (exec _create (new_widget o markup))
  | reachable_step st i :
      reachable o markup st → reachable o markup (exec (handle i) st).

End Widget.

Arguments reachable : clear implicits.

Arguments _updateExpertConstructor : simpl never.
Arguments _destroyExpert : simpl never.
Arguments _updateExpert : simpl never.
Arguments valueCharacteristics : simpl never.
Arguments _instantiateParser : simpl never.
Arguments _instantiateFormatter : simpl never.
Arguments drawContent_then : simpl never.
Arguments drawContent : simpl never.
Arguments draw : simpl never.
Arguments _formatValue : simpl never.
Arguments _setValue : simpl never.
Arguments _updateValue_done : simpl never.
Arguments format_resolved : simpl never.
Arguments trigger_all : simpl never.

(** ** A concrete configuration

    A view for string values, with one expert definition that has a preview
    and one extension, and stores that hand out the same parser and formatter
    for every type. *)
Module Sample.

Definition EmptyValue : ExpertDefinition :=
  {| ed_name := "emptyvalue"; ed_valueCharacteristics := ∅;
     ed_preview := false; ed_draw := Some true; ed_extensions := [] |}.

Definition UnsupportedValue : ExpertDefinition :=
  {| ed_name := "unsupportedvalue"; ed_valueCharacteristics := ∅;
     ed_preview := false; ed_draw := Some true; ed_extensions := [] |}.

Definition StringValue : ExpertDefinition :=
  {| ed_name := "stringvalue"; ed_valueCharacteristics := ∅;
     ed_preview := true; ed_draw := Some true;
     ed_extensions := [["init"; "draw"; "destroy"]] |}.

Definition service : ServiceDefinition :=
  {| sd_name := "string"; sd_options := ∅ |}.

Definition opts : Options :=
  {| expertStore := StoreInstance (λ _ _, Some StringValue);
     parserStore := StoreInstance (λ _ _, Some service);
     formatterStore := StoreInstance (λ _ _, Some service);
     dataTypeId := None; dataValueType := Some "string"; opt_value := None;
     language := JsString "en"; autoStartEditing := false; parseDelay := 300;
     contentLanguages := None; messageProvider := None; disabled := false |}.

(** Three data value objects; the first and the third serialize alike. *)
Definition a1 : DataValue := {| dv_ref := 1; dv_type := "string"; dv_json := "a" |}.
Definition ab : DataValue := {| dv_ref := 2; dv_type := "string"; dv_json := "ab" |}.
Definition a3 : DataValue := {| dv_ref := 3; dv_type := "string"; dv_json := "a" |}.

(** A freshly created, empty view. *)
Definition created : State :=
  exec (_create EmptyValue UnsupportedValue) (new_widget opts EmptyString).

(** The same view after [startEditing]; its expert is object 1. *)
Definition editing : State :=
  exec (startEditing EmptyValue UnsupportedValue) created.

Definition go : list Input → State → State := run EmptyValue UnsupportedValue.

(** A live expert and the world it acts on. *)
Definition an_expert : Expert.t :=
  Expert.create StringValue Expert.ViewStateOfView Expert.NotifierOfView
    {| Expert.contentLanguages := None; Expert.messageProvider := None |}.

Definition a_world : Expert.World :=
  {| Expert.port := {| vp_classes := ["valueview-value"; "valueview-expert-stringvalue"];
                       vp_contents := ["<input>"] |};
     Expert.calls := [] |}.

End Sample.

(** Some runs of the sample view. *)
Module Runs.

Import Sample.

(** An edited view whose user typed [a], then [ab], then [a] again, each
    time leaving the timer enough time to expire, while changing the value
    characteristics in between: requests 3, 5 and 7 are with the parser. *)
Definition three_requests : State :=
  go [ExpertEdited (JsString "a") {[ "precision" := JsNumber 1 ]};
      TimerExpired 2;
      ExpertEdited (JsString "ab") {[ "precision" := JsNumber 1 ]};
      TimerExpired 4;
      ExpertEdited (JsString "a") {[ "precision" := JsNumber 2 ]};
      TimerExpired 6] editing.

(** A view that shows the value [a1], whose text is [a], in edit mode; its
    expert is object 3. *)
Definition editing_a : State :=
  go [Call_value (JsData a1); FormatterDone 1 "<b>a</b>" (JsData a1);
      Call_startEditing; FormatterDone 2 "a" (JsData a1)] created.

(** The user types [b] after the [a], and removes it again at once. *)
Definition typed_and_reverted : State :=
  go [ExpertEdited (JsString "ab") ∅; ExpertEdited (JsString "a") ∅] editing_a.

(** An edited view with request 3 at the parser. *)
Definition one_request : State :=
  go [ExpertEdited (JsString "a") ∅; TimerExpired 2] editing.

End Runs.

(** * The [eachchange] special event

    A shallow embedding of [jquery.event.special.eachchange.js].  The state
    is the element the event is bound to — the value of its input, the
    entries of [$.data( this )] in the order they were added, the listeners
    [add] has bound with [.on] — together with the two variables of the
    module, [inputEvent] and [triggeredHandlers].  Handlers are opaque:
    calling one is recorded with the previous value it was passed. *)
Module Eachchange.

(** [EVENT_ID] *)
Definition EVENT_ID : string := "jqueryEventSpecialEachchange".

(** A handler function, by identity. *)
Definition Handler := nat.

(** What [add] stores under an event id. *)
Record EventData := {
  handlers : list Handler;
  prevVal : JsValue
}.

(** An entry of [$.data( this )]: the data of an event id, or an object of
    somebody else, of which only a property [prevVal] is tracked. *)
Inductive Datum :=
  | Eachchange (d : EventData)
  | Foreign (prevVal : JsValue).

(** The function [add] binds with [$elem.on( eventNameString, .. )]: it has
    closed over the event id and the handler. *)
Record Listener := {
  l_events : string;
  l_eventId : string;
  l_handler : Handler
}.

(** What [$.client.profile()] and the test for [oninput] tell. *)
Record Client := {
  name : string;
  versionNumber : nat;
  oninput : bool
}.

Record World := {
  (** what [$elem.val()] returns, [None] when it throws *)
  val : option JsValue;
  data : list (string * Datum);
  listeners : list Listener;
  (** [null] until [setup] has run *)
  inputEvent : option string;
  triggeredHandlers : list (string * nat);
  (** the calls of handlers so far, with the previous value passed *)
  called : list (Handler * JsValue)
}.

Definition set_val (x : option JsValue) (w : World) : World :=
  {| val := x; data := data w; listeners := listeners w;
     inputEvent := inputEvent w; triggeredHandlers := triggeredHandlers w;
     called := called w |}.

Definition set_data (x : list (string * Datum)) (w : World) : World :=
  {| val := val w; data := x; listeners := listeners w;
     inputEvent := inputEvent w; triggeredHandlers := triggeredHandlers w;
     called := called w |}.

Definition set_listeners (x : list Listener) (w : World) : World :=
  {| val := val w; data := data w; listeners := x;
     inputEvent := inputEvent w; triggeredHandlers := triggeredHandlers w;
     called := called w |}.

Definition set_inputEvent (x : option string) (w : World) : World :=
  {| val := val w; data := data w; listeners := listeners w;
     inputEvent := x; triggeredHandlers := triggeredHandlers w;
     called := called w |}.

Definition set_triggeredHandlers (x : list (string * nat)) (w : World)
  : World :=
  {| val := val w; data := data w; listeners := listeners w;
     inputEvent := inputEvent w; triggeredHandlers := x;
     called := called w |}.

Definition set_called (x : list (Handler * JsValue)) (w : World) : World :=
  {| val := val w; data := data w; listeners := listeners w;
     inputEvent := inputEvent w; triggeredHandlers := triggeredHandlers w;
     called := x |}.

(** [$.data( elem, key )] *)
Fixpoint data_get (key : string) (l : list (string * Datum)) : option Datum :=
  match l with
  | [] => None
  | (k, x) :: l' => if bool_decide (k = key) then Some x else data_get key l'
  end.

(** [$.data( elem, key, value )]: an existing property keeps its place, a
    new one comes last. *)
Fixpoint data_put (key : string) (x : Datum) (l : list (string * Datum))
  : list (string * Datum) :=
  match l with
  | [] => [(key, x)]
  | (k, y) :: l' =>
      if bool_decide (k = key) then (k, x) :: l'
      else (k, y) :: data_put key x l'
  end.

(** [$.removeData( elem, key )] *)
Definition data_remove (key : string) (l : list (string * Datum))
  : list (string * Datum) :=
  filter (λ kv, kv.1 ≠ key) l.

(** [eventNames.split( ' ' )]: the pieces between the spaces, of which there
    is always at least one. *)
Fixpoint split (s : string) : list string :=
  match s with
  | EmptyString => [EmptyString]
  | String c s' =>
      if bool_decide (c = Ascii.Space) then EmptyString :: split s'
      else match split s' with
           | piece :: rest => String c piece :: rest
           | [] => [String c EmptyString]
           end
  end.

(** [namespacedNames.join( ' ' )] *)
Fixpoint join (l : list string) : string :=
  match l with
  | [] => EmptyString
  | [x] => x
  | x :: l' => x ++ " " ++ join l'
  end.

(** [assignNamespace] *)
Definition assignNamespace (eventNames namespace : string) : string :=
  join (map (λ name, name ++ "." ++ namespace) (split eventNames)).

(** [getInputEvent] *)
Definition getInputEvent (client : Client) : string :=
  if bool_decide (name client = "msie") && (9 <=? versionNumber client)%nat
  then "input keyup"
  else if oninput client then "input"
  else "keyup keydown blur cut paste mousedown mouseup mouseout".

(** [getValue] *)
Definition getValue (w : World) : JsValue := default JsNull (val w).

(** [alreadyTriggered] *)
Definition alreadyTriggered (triggered : list (string * nat))
    (eventId : string) (index : nat) : bool :=
  existsb (λ t, bool_decide (eventId = t.1) && bool_decide (index = t.2))
    triggered.

(** [setup] *)
Definition setup (client : Client) (w : World) : World :=
  set_inputEvent (Some (getInputEvent client)) w.

(** [add], for a [handleObj] with the given namespace and handler. *)
Definition add (namespace : string) (handler : Handler) (w : World)
  : Completion unit * World :=
  let eventId := EVENT_ID ++ namespace in
  match inputEvent w with
  | None => (Thrown TypeError, w) (* [null.split] *)
  | Some inputEvent =>
      let eventNameString := assignNamespace inputEvent eventId in
      match data_get eventId (data w) with
      | Some (Foreign _) => (Thrown TypeError, w) (* no [handlers] to push to *)
      | stored =>
          let eventData :=
            match stored with
            | Some (Eachchange d) => d
            | _ => {| handlers := []; prevVal := getValue w |}
            end in
          let eventData :=
            {| handlers := handlers eventData ++ [handler];
               prevVal := prevVal eventData |} in
          (Normal tt,
           set_listeners
             (listeners w ++ [{| l_events := eventNameString;
                                 l_eventId := eventId;
                                 l_handler := handler |}])
             (set_data (data_put eventId (Eachchange eventData) (data w)) w))
      end
  end.

(** The function [add] has bound, run for an input event. *)
Definition listener (l : Listener) (w : World) : Completion unit * World :=
  match data_get (l_eventId l) (data w) with
  | Some (Eachchange d) =>
      let w := set_called (called w ++ [(l_handler l, prevVal d)]) w in
      (Normal tt,
       set_data (data_put (l_eventId l)
                   (Eachchange {| handlers := handlers d;
                                  prevVal := getValue w |}) (data w)) w)
  | Some (Foreign p) =>
      let w := set_called (called w ++ [(l_handler l, p)]) w in
      (Normal tt,
       set_data (data_put (l_eventId l) (Foreign (getValue w)) (data w)) w)
  | None => (Thrown TypeError, w)
  end.

(** The character [.] *)
Definition dot : Ascii.ascii := Eval cbv in Ascii.ascii_of_nat 46.

(** The namespaces jQuery reads from what follows the type of an event
    name: the pieces between the dots, of which there is always at least
    one. *)
Fixpoint namespaces (s : string) : list string :=
  match s with
  | EmptyString => [EmptyString]
  | String c s' =>
      if bool_decide (c = dot) then EmptyString :: namespaces s'
      else match namespaces s' with
           | piece :: rest => String c piece :: rest
           | [] => [String c EmptyString]
           end
  end.

(** [$elem.off( '.' + selector )]: without a type, jQuery unbinds from
    every event the listeners whose namespaces include those of the
    selector.  It sorts the namespaces of both and looks for the ones of the
    selector among those of the listener in this order, each a whole
    namespace, which is to ask whether the first list is included in the
    second, counting repetitions.  The names a listener of [add] is bound
    to all carry the event id after their type, so that its namespaces are
    those of the event id.  (jQuery builds a regular expression from the
    namespaces without escaping them: they are taken to hold no character
    with a meaning there.) *)
Definition off (selector : string) (l : list Listener) : list Listener :=
  filter (λ l, ¬ namespaces selector ⊆+ namespaces (l_eventId l)) l.

(** [remove] *)
Definition remove (namespace : string) (w : World) : World :=
  let eventId := EVENT_ID ++ namespace in
  set_data (data_remove eventId (data w))
    (set_listeners (off eventId (listeners w)) w).

(** [trigger] *)
Definition trigger (w : World) : World :=
  let prevVal := getValue w in
  set_triggeredHandlers []
    (set_data
       (map (λ '(eventId, eventData),
          if String.prefix EVENT_ID eventId then
            (eventId,
             match eventData with
             | Eachchange d =>
                 Eachchange {| handlers := handlers d; prevVal := prevVal |}
             | Foreign _ => Foreign prevVal
             end)
          else (eventId, eventData)) (data w)) w).

(** The loop of [handle] over the handlers of one event id, from index
    [i] on. *)
Fixpoint handle_handlers (eventId : string) (prevVal : JsValue)
    (handlers : list Handler) (i : nat) (w : World) : World :=
  match handlers with
  | [] => w
  | handler :: rest =>
      handle_handlers eventId prevVal rest (S i)
        (if alreadyTriggered (triggeredHandlers w) eventId i then w
         else set_triggeredHandlers (triggeredHandlers w ++ [(eventId, i)])
                (set_called (called w ++ [(handler, prevVal)]) w))
  end.

(** The loop of [handle] over [$.data( this )]. *)
Fixpoint handle_data (l : list (string * Datum)) (w : World)
  : Completion unit * World :=
  match l with
  | [] => (Normal tt, w)
  | (eventId, eventData) :: l' =>
      if negb (String.prefix EVENT_ID eventId) then
        handle_data l' w (* not an eachchange event *)
      else
        match eventData with
        | Eachchange d =>
            handle_data l'
              (handle_handlers eventId (prevVal d) (handlers d) 0 w)
        | Foreign _ => (Thrown TypeError, w) (* no [handlers] *)
        end
  end.

(** [handle], for an event with the given namespace, and the handler of its
    [handleObj]. *)
Definition handle (namespace : string) (handler : Handler) (w : World)
  : Completion unit * World :=
  match namespace with
  | String _ _ =>
      match data_get (EVENT_ID ++ namespace) (data w) with
      | Some (Eachchange d) =>
          (Normal tt, set_called (called w ++ [(handler, prevVal d)]) w)
      | Some (Foreign p) =>
          (Normal tt, set_called (called w ++ [(handler, p)]) w)
      | None => (Normal tt, w)
      end
  | EmptyString => handle_data (data w) w
  end.

(** A string without a space. *)
Fixpoint spaceless (s : string) : bool :=
  match s with
  | EmptyString => true
  | String c s' => negb (bool_decide (c = Ascii.Space)) && spaceless s'
  end.

(** The handlers registered for event ids, in the order [handle] visits
    them, each with the previous value stored for its event id. *)
Definition registered (l : list (string * Datum)) : list (Handler * JsValue) :=
  flat_map (λ '(eventId, eventData),
    match eventData with
    | Eachchange d =>
        if String.prefix EVENT_ID eventId
        then map (λ h, (h, prevVal d)) (handlers d) else []
    | Foreign _ => []
    end) l.

(** What [handle] adds to [triggeredHandlers] when no handler has been
    triggered yet. *)
Definition marks (l : list (string * Datum)) : list (string * nat) :=
  flat_map (λ '(eventId, eventData),
    match eventData with
    | Eachchange d =>
        if String.prefix EVENT_ID eventId
        then imap (λ i _, (eventId, i)) (handlers d) else []
    | Foreign _ => []
    end) l.

(** No object of somebody else sits under an event id. *)
Definition own (l : list (string * Datum)) : Prop :=
  ∀ eventId p, (eventId, Foreign p) ∈ l → String.prefix EVENT_ID eventId = false.

End Eachchange.

(** ** Further configurations *)
Module Cases.

Import Sample.

(** The options of the sample view with an expert store of another class,
    with [autoStartEditing], with a value, and without a data value type. *)
Definition foreign_opts : Options :=
  {| expertStore := ForeignObject;
     parserStore := StoreInstance (λ _ _, Some service);
     formatterStore := StoreInstance (λ _ _, Some service);
     dataTypeId := None; dataValueType := Some "string"; opt_value := Some a1;
     language := JsString "en"; autoStartEditing := false; parseDelay := 300;
     contentLanguages := None; messageProvider := None; disabled := false |}.

Definition auto_opts : Options :=
  {| expertStore := StoreInstance (λ _ _, Some StringValue);
     parserStore := StoreInstance (λ _ _, Some service);
     formatterStore := StoreInstance (λ _ _, Some service);
     dataTypeId := None; dataValueType := Some "string"; opt_value := None;
     language := JsString "en"; autoStartEditing := true; parseDelay := 300;
     contentLanguages := None; messageProvider := None; disabled := false |}.

Definition valued_opts : Options :=
  {| expertStore := StoreInstance (λ _ _, Some StringValue);
     parserStore := StoreInstance (λ _ _, Some service);
     formatterStore := StoreInstance (λ _ _, Some service);
     dataTypeId := None; dataValueType := Some "string"; opt_value := Some a1;
     language := JsString "en"; autoStartEditing := true; parseDelay := 300;
     contentLanguages := None; messageProvider := None; disabled := false |}.

Definition untyped_opts : Options :=
  {| expertStore := StoreInstance (λ _ _, Some StringValue);
     parserStore := StoreInstance (λ _ _, Some service);
     formatterStore := StoreInstance (λ _ _, Some service);
     dataTypeId := None; dataValueType := None; opt_value := None;
     language := JsString "en"; autoStartEditing := false; parseDelay := 300;
     contentLanguages := None; messageProvider := None; disabled := false |}.

(** An expert without a preview, and the options of the sample view with
    an expert store that holds this expert for every type. *)
Definition PlainValue : ExpertDefinition :=
  {| ed_name := "plainvalue"; ed_valueCharacteristics := ∅;
     ed_preview := false; ed_draw := Some true; ed_extensions := [] |}.

Definition plain_opts : Options :=
  {| expertStore := StoreInstance (λ _ _, Some PlainValue);
     parserStore := StoreInstance (λ _ _, Some service);
     formatterStore := StoreInstance (λ _ _, Some service);
     dataTypeId := None; dataValueType := Some "string"; opt_value := None;
     language := JsString "en"; autoStartEditing := false; parseDelay := 300;
     contentLanguages := None; messageProvider := None; disabled := false |}.

(** A view with these options that shows the value [a1] in edit mode, after
    its user has typed [ab] and the timer has expired: request 5 is with the
    parser. *)
Definition no_preview_request : State :=
  go [Call_value (JsData a1); FormatterDone 1 "<b>a</b>" (JsData a1);
      Call_startEditing; FormatterDone 2 "a" (JsData a1);
      ExpertEdited (JsString "ab") ∅; TimerExpired 4]
    (exec (_create EmptyValue UnsupportedValue)
       (new_widget plain_opts EmptyString)).

(** The sample view in the same situation, with editing stopped while the
    request is with the parser. *)
Definition stopped_request : State :=
  go [ExpertEdited (JsString "ab") ∅; TimerExpired 4; Call_stopEditing false]
    Runs.editing_a.

(** The sample view showing the value [a1] in static mode. *)
Definition shown_a : State :=
  go [Call_value (JsData a1); FormatterDone 1 "<b>a</b>" (JsData a1)] created.

(** An input with the value [x] to which handlers were added, in this
    order, for the event without a namespace and with the namespaces [a],
    [a.b] and [c]. *)
Definition bound_input : Eachchange.World :=
  let w0 := {| Eachchange.val := Some (JsString "x");
               Eachchange.data := [];
               Eachchange.listeners := [];
               Eachchange.inputEvent := Some "input";
               Eachchange.triggeredHandlers := [];
               Eachchange.called := [] |} in
  let w1 := (Eachchange.add EmptyString 1 w0).2 in
  let w2 := (Eachchange.add "a" 2 w1).2 in
  let w3 := (Eachchange.add "a.b" 3 w2).2 in
  (Eachchange.add "c" 4 w3).2.

(** An input whose value is [ab], with two handlers registered for the
    event without a namespace when the value was [a], and data of somebody
    else. *)
Definition an_input : Eachchange.World :=
  {| Eachchange.val := Some (JsString "ab");
     Eachchange.data :=
       [("jqueryEventSpecialEachchange",
         Eachchange.Eachchange
           {| Eachchange.handlers := [1; 2];
              Eachchange.prevVal := JsString "a" |});
        ("inputextender", Eachchange.Foreign JsUndefined)];
     Eachchange.listeners := [];
     Eachchange.inputEvent := Some "input";
     Eachchange.triggeredHandlers := [("jqueryEventSpecialEachchange", 0)];
     Eachchange.called := [] |}.

End Cases.

(** * Vocabulary of the properties *)

(** [keeps f m]: running [m] leaves the observation [f] of the state as it
    was, however [m] ends. *)
Definition keeps {T A} (f : State → T) (m : JS A) : Prop :=
  ∀ st, f (exec m st) = f st.

(** What drawing, formatting and the handling of experts never touch: the
    accepted value, the roll-back value, the mode, the bookkeeping of the
    parse step and the options. *)
Definition core (st : State) :=
  (_value (this st), _initialValue (this st), _isInEditMode (this st),
   _parseTimer (this st), __lastUpdateValue (this st),
   __lastValueCharacteristics (this st), options (this st),
   timers (env st), parsing (env st)).

(** Three observations that [core] determines: the accepted value, the
    mode, and the bookkeeping of the parse step. *)
Definition accepted_value (st : State) := _value (this st).

Definition edit_mode (st : State) := _isInEditMode (this st).

Definition schedule (st : State) :=
  (_parseTimer (this st), __lastUpdateValue (this st), timers (env st),
   parsing (env st)).

(** In edit mode the element holds the [$value] node and nothing else; in
    static mode it holds the rendering of some formatted value. *)
Definition content_ok (st : State) : Prop :=
  if _isInEditMode (this st) then children (dom st) = [ValueNode]
  else ∃ formatted, children (dom st) = html_nodes formatted.

(** The class of the other mode is not set. *)
Definition classes_ok (st : State) : Prop :=
  if _isInEditMode (this st) then instaticmode (dom st) = false
  else ineditmode (dom st) = false.

(** Expert objects come from the constructor, and [_expert] refers to one. *)
Definition experts_ok (st : State) : Prop :=
  (∀ r e, experts (env st) !! r = Some e → is_Some (Expert._extendable e))
  ∧ (∀ r, _expert (this st) = Some r → is_Some (experts (env st) !! r)).

(** At most one timer is pending, and [_parseTimer] holds its id. *)
Definition timers_ok (st : State) : Prop :=
  timers (env st) = ∅
  ∨ ∃ n job, _parseTimer (this st) = Some (S n)
             ∧ timers (env st) = {[ S n := job ]}.

(** Ids are positive. *)
Definition ids_ok (st : State) : Prop := (1 ≤ next_id (env st))%nat.

(** The invariant of the states a view can be in. *)
Definition wf (st : State) : Prop :=
  classes_ok st ∧ content_ok st ∧ experts_ok st ∧ timers_ok st ∧ ids_ok st.

(** What [draw] needs to find in order to leave a well-formed state. *)
Definition drawable (st : State) : Prop :=
  (_isInEditMode (this st) = true → children (dom st) = [ValueNode])
  ∧ experts_ok st ∧ timers_ok st ∧ ids_ok st.

(** [pres I m]: [m] takes states in [I] to states in [I], however it ends. *)
Definition pres {A} (I : State → Prop) (m : JS A) : Prop :=
  ∀ st, I st → I (exec m st).

(** [_parseValue] from the point where the pending timer has been cleared,
    for a raw value that has to go to the parser: the statements from
    [var valueParser = ...] to [return deferred.promise()], spelled out
    once more to state what they preserve. *)
Definition schedule_parse (st0 : State) (r : nat) (rawValue : JsValue)
  : JS (option JsValue) :=
  bind valueCharacteristics (λ characteristics,
  bind (_instantiateParser characteristics) (λ valueParser,
  bind (modify (on_this (set___lastUpdateValue rawValue))) (λ _,
  bind fresh (λ id,
  bind (modify (on_env (λ n, set_timers
          (<[id := {| tj_delay := parseDelay (options (this st0));
                      tj_expert := r;
                      tj_rawValue := rawValue;
                      tj_valueParser := valueParser |}]> (timers n)) n)))
    (λ _,
  bind (modify (on_this (set__parseTimer (Some id)))) (λ _,
  ret None)))))).

(** Static content is visible: the element holds markup of a formatted
    value. *)
Definition static_shown (st : State) : Prop :=
  ∃ html, Markup html ∈ children (dom st).

(** The editable surface is visible: the [$value] node, the experts' view
    port, is in the element. *)
Definition editable_shown (st : State) : Prop :=
  ValueNode ∈ children (dom st).

(** The element shows the static display and nothing else: its content is
    what [drawStaticContent] renders of some formatted value, a single piece
    of markup or, for an empty one, nothing. *)
Definition static_display (st : State) : Prop :=
  ∃ formatted, children (dom st) = html_nodes formatted.

(** The element shows the editable surface and nothing else. *)
Definition editable_surface (st : State) : Prop :=
  children (dom st) = [ValueNode].

(** What the [change] handler computes as [changeDetected] when the expert
    reports the raw value [rawValue] and [characteristics]. *)
Definition change_detected (st : State) (rawValue : JsValue)
    (characteristics : JsObject) : bool :=
  differentValueCharacteristics characteristics
    (default ∅ (__lastValueCharacteristics (this st)))
  || negb (strict_eq (match _textValue (this st) with
                      | Some s => JsString s
                      | None => JsUndefined
                      end) rawValue).

(** The parser store hands out a parser for the view's current type. *)
Definition parser_available (st : State) : Prop :=
  ∃ getParser t d,
    parserStore (options (this st)) = StoreInstance getParser
    ∧ result _determineDataValueType st = Normal t
    ∧ getParser t (dataTypeId (options (this st))) = Some d.

(** The data value type [_determineDataValueType] returns in a state. *)
Definition data_value_type (st : State) : option string :=
  match _value (this st) with
  | Some v =>
      if negb (truthy_string (dataValueType (options (this st))))
      then Some (dv_type v)
      else dataValueType (options (this st))
  | None => dataValueType (options (this st))
  end.

(** The expert definition [_updateExpertConstructor] settles on in a state,
    given the definitions for empty and for unsupported values and the
    lookup of the expert store. *)
Definition selected_expert (EmptyValue UnsupportedValue : ExpertDefinition)
    (getExpert : option string → option string → option ExpertDefinition)
    (st : State) : ExpertDefinition :=
  if truthy_string (data_value_type st)
     || truthy_string (dataTypeId (options (this st)))
  then default UnsupportedValue
         (getExpert (data_value_type st) (dataTypeId (options (this st))))
  else EmptyValue.

(** The accepted value together with the expert definition chosen for it. *)
Definition selection (st : State) :=
  (_value (this st), _expertConstructor (this st)).

(** Of the expert objects, the one [_expert] refers to is live and all the
    others have been destroyed. *)
Definition experts_tidy (st : State) : Prop :=
  ∀ r e, experts (env st) !! r = Some e →
    if bool_decide (_expert (this st) = Some r)
    then is_Some (Expert.viewPort e)
    else Expert.destroyed e.

(** Outside the edit mode there is no expert and no value to roll back
    to. *)
Definition idle_ok (st : State) : Prop :=
  _isInEditMode (this st) = false →
  _expert (this st) = None ∧ _initialValue (this st) = None.

Definition tidy (st : State) : Prop := experts_tidy st ∧ idle_ok st.

(** The expert object [_updateExpert] constructs from the definition [c]. *)
Definition new_expert (c : ExpertDefinition) (st : State) : Expert.t :=
  Expert.create c Expert.ViewStateOfView Expert.NotifierOfView
    {| Expert.contentLanguages := contentLanguages (options (this st));
       Expert.messageProvider := messageProvider (options (this st)) |}.

(** [st'] is [st] with an expert of definition [c] constructed under a new
    reference, initialized and drawn, and the events [done] triggered. *)
Definition expert_drawn (c : ExpertDefinition) (done : list WidgetEvent)
    (st st' : State) : Prop :=
  _expert (this st') = Some (next_id (env st))
  ∧ the_expert st' = Some (new_expert c st)
  ∧ value_node (dom st')
    = addClass ("valueview-expert-" ++ ed_name c) (value_node (dom st))
  ∧ calls (env st')
    = Expert.calls
        (Expert.callExtensions {| Expert.extensions := ed_extensions c |} "draw"
           (Expert.callExtensions {| Expert.extensions := ed_extensions c |}
              "init" (world st)))
  ∧ events (env st') = (events (env st) ++ done)%list
  ∧ core st' = core st
  ∧ (children (dom st'), instaticmode (dom st'), ineditmode (dom st'))
    = (children (dom st), instaticmode (dom st), ineditmode (dom st))
  ∧ (_formattedValue (this st'), _textValue (this st'),
     _expertConstructor (this st'))
    = (_formattedValue (this st), _textValue (this st),
       _expertConstructor (this st))
  ∧ formatting (env st') = formatting (env st).

(** * Properties *)

(** ** Reasoning about methods *)

Lemma exec_bind {A B} (m : JS A) (k : A → JS B) st :
  exec (bind m k) st =
  match m st with
  | (Normal a, st') => exec (k a) st'
  | (Thrown _, st') => st'
  end.
Proof. unfold exec, bind. by destruct (m st) as [[a|e] st']. Qed.

Lemma keeps_ret {T A} (f : State → T) (a : A) : keeps f (ret a).
Proof. by intros st. Qed.

Lemma keeps_throw {T A} (f : State → T) e : keeps f (@throw A e).
Proof. by intros st. Qed.

Lemma keeps_get {T} (f : State → T) : keeps f get.
Proof. by intros st. Qed.

Lemma keeps_modify {T} (f : State → T) g :
  (∀ st, f (g st) = f st) → keeps f (modify g).
Proof. intros H st. apply H. Qed.

Lemma keeps_bind {T A B} (f : State → T) (m : JS A) (k : A → JS B) :
  keeps f m → (∀ a, keeps f (k a)) → keeps f (bind m k).
Proof.
  intros Hm Hk st. rewrite exec_bind. specialize (Hm st). unfold exec in Hm.
  destruct (m st) as [[a|e] st']; simpl in Hm; [|done].
  by rewrite Hk.
Qed.

Lemma keeps_when {T} (f : State → T) c m : keeps f m → keeps f (when c m).
Proof. intros H. destruct c; [done|apply keeps_ret]. Qed.

Create HintDb keeps discriminated.

#[local] Hint Resolve keeps_ret keeps_throw keeps_get keeps_when : keeps.

(** Breaks a method into its statements; the calls of other methods are
    left to the lemmas of the hint base. *)
Ltac keeps_step :=
  lazymatch goal with
  | |- keeps _ (bind _ _) => apply keeps_bind; [|intros ?]
  | |- keeps _ (ret _) => apply keeps_ret
  | |- keeps _ (throw _) => apply keeps_throw
  | |- keeps _ get => apply keeps_get
  | |- keeps _ (when _ _) => apply keeps_when
  | |- keeps _ (modify _) => apply keeps_modify; intros ?; reflexivity
  | |- keeps _ (match _ with _ => _ end) => case_match
  | |- keeps _ (let _ := _ in _) => cbv zeta
  | |- _ => solve [eauto with keeps]
  end.

Ltac keeps_auto := repeat keeps_step.

Section Properties.

Variables EmptyValue UnsupportedValue : ExpertDefinition.

Lemma keeps__trigger {T} (f : State → T) e :
  (∀ st l, f (on_env (set_events l) st) = f st) → keeps f (_trigger e).
Proof. intros H st. apply H. Qed.

Lemma core__trigger e : keeps core (_trigger e).
Proof. by apply keeps__trigger. Qed.

Lemma core_trigger_all l : keeps core (trigger_all l).
Proof.
  unfold trigger_all. induction l as [|e l IH]; simpl; [apply keeps_ret|].
  apply keeps_bind; [apply core__trigger | done].
Qed.

Lemma core_fresh : keeps core fresh.
Proof. by intros st. Qed.

Lemma core_isInEditMode : keeps core isInEditMode.
Proof. by intros st. Qed.

Lemma core_getFormattedValue : keeps core getFormattedValue.
Proof. by intros st. Qed.

Lemma core_getTextValue : keeps core getTextValue.
Proof. by intros st. Qed.

Lemma core__determineDataValueType : keeps core _determineDataValueType.
Proof. by intros st. Qed.

#[local] Hint Resolve core__trigger core_trigger_all core_fresh
  core_isInEditMode core_getFormattedValue core_getTextValue
  core__determineDataValueType : keeps.

Lemma core__updateExpertConstructor :
  keeps core (_updateExpertConstructor EmptyValue UnsupportedValue).
Proof. unfold _updateExpertConstructor. keeps_auto. Qed.

Lemma core__destroyExpert : keeps core _destroyExpert.
Proof. unfold _destroyExpert. keeps_auto. Qed.

#[local] Hint Resolve core__updateExpertConstructor core__destroyExpert : keeps.

Lemma core__updateExpert : keeps core _updateExpert.
Proof. unfold _updateExpert. keeps_auto. Qed.

Lemma core_valueCharacteristics : keeps core valueCharacteristics.
Proof. unfold valueCharacteristics. keeps_auto. Qed.

Lemma core_instantiate lookup o : keeps core (instantiate lookup o).
Proof. unfold instantiate. keeps_auto. Qed.

#[local] Hint Resolve core__updateExpert core_valueCharacteristics
  core_instantiate : keeps.

Lemma core__instantiateParser o : keeps core (_instantiateParser o).
Proof. unfold _instantiateParser. keeps_auto. Qed.

Lemma core__instantiateFormatter o : keeps core (_instantiateFormatter o).
Proof. unfold _instantiateFormatter. keeps_auto. Qed.

#[local] Hint Resolve core__instantiateParser core__instantiateFormatter
  : keeps.

Lemma core_drawStaticContent : keeps core drawStaticContent.
Proof. unfold drawStaticContent. keeps_auto. Qed.

Lemma core_drawContent_then done : keeps core (drawContent_then done).
Proof. unfold drawContent_then. keeps_auto. Qed.

Lemma core__updateTextValue c : keeps core (_updateTextValue c).
Proof. unfold _updateTextValue. keeps_auto. Qed.

#[local] Hint Resolve core_drawStaticContent core_drawContent_then
  core__updateTextValue : keeps.

Lemma core_drawContent done : keeps core (drawContent done).
Proof. unfold drawContent. keeps_auto. Qed.

#[local] Hint Resolve core_drawContent : keeps.

Lemma core_draw done : keeps core (draw done).
Proof. unfold draw. keeps_auto. Qed.

Lemma core__renderError m : keeps core (_renderError m).
Proof. unfold _renderError. keeps_auto. Qed.

Lemma core__formatValue v c : keeps core (_formatValue v c).
Proof. unfold _formatValue. keeps_auto. Qed.

#[local] Hint Resolve core_draw core__renderError core__formatValue : keeps.

Lemma core_format_resolved c fv : keeps core (format_resolved c fv).
Proof. unfold format_resolved. keeps_auto. Qed.

Lemma core_format_rejected c m : keeps core (format_rejected c m).
Proof. unfold format_rejected. keeps_auto. Qed.

Lemma core_format_always c : keeps core (format_always c).
Proof. unfold format_always. keeps_auto. Qed.

#[local] Hint Resolve core_format_resolved core_format_rejected
  core_format_always : keeps.

Lemma core_formatter_done id fv echo : keeps core (formatter_done id fv echo).
Proof. unfold formatter_done. keeps_auto. Qed.

Lemma core_formatter_fail id m : keeps core (formatter_fail id m).
Proof. unfold formatter_fail. keeps_auto. Qed.

#[local] Hint Resolve core_formatter_done core_formatter_fail : keeps.

(** Projections of [core]. *)
Lemma core_value st st' : core st' = core st → _value (this st') = _value (this st).
Proof. unfold core. congruence. Qed.

Lemma core_mode st st' :
  core st' = core st → _isInEditMode (this st') = _isInEditMode (this st).
Proof. unfold core. congruence. Qed.

Lemma core_timers st st' : core st' = core st → timers (env st') = timers (env st).
Proof. unfold core. congruence. Qed.

Lemma core_parsing st st' :
  core st' = core st → parsing (env st') = parsing (env st).
Proof. unfold core. congruence. Qed.

Lemma core_lastUpdateValue st st' :
  core st' = core st → __lastUpdateValue (this st') = __lastUpdateValue (this st).
Proof. unfold core. congruence. Qed.

(** ** The expert *)

Lemma Expert_destroy_destroyed (e : Expert.t) (w : Expert.World) :
  Expert.viewPort e = None → Expert.destroy e w = Normal (e, w).
Proof. intros H. unfold Expert.destroy. by rewrite H. Qed.

(** C10. Destroying a live expert runs the [destroy] callbacks of its
    extensions once, empties the view port and leaves the expert with its
    view port, view state, notifier, message provider and options all
    [null]; destroying it again, in whatever state the document is by then,
    returns at once: nothing is thrown, no callback runs, the document and
    the expert stay as they are. *)
Theorem Expert_destroy_idempotent (e : Expert.t) (w : Expert.World)
    (x : Expert.Extendable) :
  is_Some (Expert.viewPort e) →
  Expert._extendable e = Some x →
  ∃ e1 w1,
    Expert.destroy e w = Normal (e1, w1)
    ∧ Expert.destroyed e1
    ∧ Expert.calls w1 = Expert.calls (Expert.callExtensions x "destroy" w)
    ∧ vp_contents (Expert.port w1) = []
    ∧ ∀ w', Expert.destroy e1 w' = Normal (e1, w').
Proof.
  intros [p Hp] Hx. unfold Expert.destroy. rewrite Hp, Hx.
  eexists _, _. split; [reflexivity|].
  split; [by repeat split|].
  split; [done|]. split; [done|].
  intros w'. by apply Expert_destroy_destroyed.
Qed.

(** ** Setting and reading the value *)

(** C8, as the code has it. Called with anything but [undefined], [null] or a
    data value, [value] throws at once and leaves the state as it is; called
    with [undefined] it is the getter: it returns the current value, and
    leaves the state as it is, too. *)
Theorem value_fails_fast (st : State) (x : JsValue) :
  x ≠ JsNull →
  instanceof_DataValue x = false →
  (x ≠ JsUndefined →
   value EmptyValue UnsupportedValue x st = (Thrown NotADataValue, st))
  ∧ (x = JsUndefined →
     value EmptyValue UnsupportedValue x st
     = (Normal (of_data (_value (this st))), st)).
Proof.
  intros Hnull Hdata. split.
  - intros Hundef. destruct x; try done.
  - intros ->. reflexivity.
Qed.

(** C9. Setting a value whose serialized form is that of the current value
    does nothing at all: [value] returns with the state untouched, so the
    stored value, the formatted value and the expert are the same, no request
    went to the formatter and nothing was drawn. *)
Theorem value_same_json_is_noop (st : State) (v w : DataValue) :
  _value (this st) = Some v →
  dv_json w = dv_json v →
  value EmptyValue UnsupportedValue (JsData w) st = (Normal JsUndefined, st).
Proof.
  intros Hv Hjson.
  unfold value, _setValue, bind, get, same_json; simpl.
  rewrite Hv. by rewrite bool_decide_eq_true_2.
Qed.

(** ** Running a method statement by statement *)

Lemma exec_get_bind {B} (k : State → JS B) st :
  exec (bind get k) st = exec (k st) st.
Proof. reflexivity. Qed.

Lemma exec_modify_bind {B} g (k : () → JS B) st :
  exec (bind (modify g) k) st = exec (k ()) (g st).
Proof. reflexivity. Qed.

Lemma exec_ret_bind {A B} (a : A) (k : A → JS B) st :
  exec (bind (ret a) k) st = exec (k a) st.
Proof. reflexivity. Qed.

Lemma exec_trigger_bind {B} e (k : () → JS B) st :
  exec (bind (_trigger e) k) st
  = exec (k ()) (on_env (λ n, set_events (events n ++ [e]) n) st).
Proof. reflexivity. Qed.

Lemma exec_modify g st : exec (modify g) st = g st.
Proof. reflexivity. Qed.

Lemma exec_ret {A} (a : A) st : exec (ret a) st = st.
Proof. reflexivity. Qed.

(** What the rest of a method keeps, the whole method keeps from the point
    its first statement has reached. *)
Lemma exec_bind_keeps {T A B} (f : State → T) (m : JS A) (k : A → JS B) st :
  (∀ a, keeps f (k a)) → f (exec (bind m k) st) = f (exec m st).
Proof.
  intros Hk. rewrite exec_bind. unfold exec.
  destruct (m st) as [[a|e] st']; simpl; [apply Hk|done].
Qed.

Ltac js_run :=
  repeat first
    [ rewrite exec_get_bind | rewrite exec_modify_bind
    | rewrite exec_ret_bind | rewrite exec_trigger_bind
    | rewrite exec_modify | rewrite exec_ret ];
  cbv zeta.

(** Observations that [core] determines. *)
Lemma keeps_of_core {T A} (g : _ → T) (m : JS A) :
  keeps core m → keeps (λ st, g (core st)) m.
Proof. intros H st. simpl. by rewrite H. Qed.

Lemma value_of_core {A} (m : JS A) : keeps core m → keeps accepted_value m.
Proof. intros H st. apply core_value, H. Qed.

Lemma mode_of_core {A} (m : JS A) : keeps core m → keeps edit_mode m.
Proof. intros H st. apply core_mode, H. Qed.

Lemma schedule_of_core {A} (m : JS A) : keeps core m → keeps schedule m.
Proof.
  intros H st. specialize (H st). unfold schedule, core in *. congruence.
Qed.

(** ** Parsing *)

Lemma the_expert_lookup st r e :
  _expert (this st) = Some r → experts (env st) !! r = Some e →
  the_expert st = Some e.
Proof. intros Hr He. unfold the_expert. by rewrite Hr. Qed.

Lemma _updateValue_done_value pv st :
  accepted_value (exec (_updateValue_done pv) st) = as_data pv.
Proof.
  unfold _updateValue_done. rewrite exec_bind_keeps.
  - reflexivity.
  - intros _. destruct (as_data pv); apply value_of_core; keeps_auto.
Qed.

Lemma _updateValue_done_schedule pv : keeps schedule (_updateValue_done pv).
Proof.
  unfold _updateValue_done.
  apply keeps_bind; [by apply keeps_modify|intros _].
  destruct (as_data pv); apply schedule_of_core; keeps_auto.
Qed.

(** C6. When the raw value the expert holds is [null] or already a data
    value, [_parseValue] returns a promise that is resolved with that very
    value: no timer is started or cleared and nothing is sent to the parser;
    [_updateValue] has made it the accepted value by the time it returns. *)
Theorem parse_bypass (st : State) (r : nat) (e : Expert.t) :
  _expert (this st) = Some r →
  experts (env st) !! r = Some e →
  Expert.rawValue e = JsNull ∨ instanceof_DataValue (Expert.rawValue e) = true →
  result _parseValue st = Normal (Some (Expert.rawValue e))
  ∧ timers (env (exec _parseValue st)) = timers (env st)
  ∧ parsing (env (exec _parseValue st)) = parsing (env st)
  ∧ _parseTimer (this (exec _parseValue st)) = _parseTimer (this st)
  ∧ _value (this (exec _updateValue st)) = as_data (Expert.rawValue e)
  ∧ timers (env (exec _updateValue st)) = timers (env st)
  ∧ parsing (env (exec _updateValue st)) = parsing (env st).
Proof.
  intros Hr He Hraw.
  assert (Hb : strict_eq (Expert.rawValue e) JsNull
               || instanceof_DataValue (Expert.rawValue e) = true).
  { destruct Hraw as [->| ->]; [done|]. apply orb_true_r. }
  assert (Hp : _parseValue st
    = (Normal (Some (Expert.rawValue e)),
       on_env (λ n, set_events (events n ++ [Ev_afterparse]) n)
         (on_this (set___lastUpdateValue JsUndefined)
            (on_env (λ n, set_events (events n ++ [Ev_parse]) n) st)))).
  { unfold _parseValue, bind, get; simpl.
    rewrite Hr, (the_expert_lookup _ _ _ Hr He). simpl. by rewrite Hb. }
  unfold result, exec. rewrite Hp. simpl.
  repeat (split; [done|]).
  unfold _updateValue, bind. rewrite Hp.
  pose proof (_updateValue_done_value (Expert.rawValue e)) as Hv.
  pose proof (_updateValue_done_schedule (Expert.rawValue e)) as Hs.
  unfold keeps, exec, accepted_value, schedule in Hv, Hs.
  split; [apply Hv|].
  match goal with |- context [_updateValue_done _ ?s] =>
    specialize (Hs s) end.
  simpl in Hs. split; congruence.
Qed.

(** ** Failures of the services *)

(** C4, as the code has it. If the parser fails on a request with a
    message, the accepted value becomes [null]; the message is shown, as it
    is, by the preview of the current expert if the view has an expert and
    this expert has a preview, and it is dropped otherwise: then nothing
    but the value, the request and the [afterparse] event has changed.  If
    the parser fails without a message, or with an empty one, nothing
    happens but the [afterparse] event.  A formatter that fails without a
    message is ignored in the same way: only the [afterformat] event of
    [_formatValue] is triggered. *)
Theorem service_failures (st : State) (id : nat) :
  (∀ job message,
     parsing (env st) !! id = Some job →
     message ≠ EmptyString →
     let st' := exec (parser_fail id (Some message)) st in
     result (parser_fail id (Some message)) st = Normal ()
     ∧ _value (this st') = None
     ∧ (∀ r e p,
          _expert (this st) = Some r →
          experts (env st) !! r = Some e →
          Expert.preview e = Some p →
          Expert.preview <$> the_expert st'
          = Some (Some (PreviewContent message)))
     ∧ (_expert (this st) = None
        ∨ (∃ r e, _expert (this st) = Some r
                  ∧ experts (env st) !! r = Some e
                  ∧ Expert.preview e = None) →
        st' = on_env (λ n, set_events (events n ++ [Ev_afterparse]) n)
                (on_this (set__value None)
                   (on_env (λ n, set_parsing (delete id (parsing n)) n) st))))
  ∧ (∀ job message,
       parsing (env st) !! id = Some job →
       truthy_string message = false →
       parser_fail id message st
       = (Normal (),
          on_env (λ n, set_events (events n ++ [Ev_afterparse]) n)
            (on_env (λ n, set_parsing (delete id (parsing n)) n) st)))
  ∧ (∀ job message,
       formatting (env st) !! id = Some job →
       truthy_string message = false →
       formatter_fail id message st
       = format_always (fj_callbacks job)
           (on_env (λ n, set_formatting (delete id (formatting n)) n) st)).
Proof.
  split; [|split].
  - intros job [|a s] Hjob Hmessage st'; [done|].
    assert (Hrun : parser_fail id (Some (String a s)) st
      = (Normal (),
         on_env (λ n, set_events (events n ++ [Ev_afterparse]) n)
           (exec (_renderError (String a s))
              (on_this (set__value None)
                 (on_env (λ n, set_parsing (delete id (parsing n)) n) st))))).
    { unfold parser_fail, bind, get; simpl. rewrite Hjob. simpl.
      unfold _renderError, bind, get, exec, when, modify, ret, _trigger; simpl.
      repeat case_match; done. }
    subst st'. unfold result, exec. rewrite Hrun. simpl.
    split; [done|]. split; [|split].
    + change (accepted_value
                (exec (_renderError (String a s))
                   (on_this (set__value None)
                      (on_env (λ n, set_parsing (delete id (parsing n)) n) st)))
              = None).
      by rewrite (value_of_core _ (core__renderError _)).
    + intros r e p Hr He Hp.
      unfold _renderError, bind, get, exec, the_expert; simpl.
      rewrite Hr. simpl. rewrite He. simpl. rewrite Hp. simpl.
      rewrite Hr. simpl. rewrite lookup_alter_eq, He. simpl. by rewrite Hp.
    + intros Hnone. f_equal.
      unfold _renderError, bind, get, exec, the_expert; simpl.
      destruct Hnone as [Hr|(r & e & Hr & He & Hp)].
      * by rewrite Hr.
      * rewrite Hr. simpl. rewrite He. by rewrite Hp.
  - intros job message Hjob Hm.
    unfold parser_fail, bind, get; simpl. rewrite Hjob. simpl.
    destruct message as [[|a s]|]; done.
  - intros job message Hjob Hm.
    unfold formatter_fail, bind, get; simpl. rewrite Hjob. simpl.
    destruct message as [[|a s]|], (fj_callbacks job); try done.
Qed.

(** ** Responses that come late *)

(** An answer of the parser to a request made for the raw value that
    [__lastUpdateValue] holds is applied, and empties [__lastUpdateValue]. *)
Lemma parser_done_accepted st id job pv :
  parsing (env st) !! id = Some job →
  pv = JsNull ∨ instanceof_DataValue pv = true →
  __lastUpdateValue (this st) = pj_rawValue job →
  pj_rawValue job ≠ JsUndefined →
  let st' := exec (parser_done id pv) st in
  _value (this st') = as_data pv
  ∧ __lastUpdateValue (this st') = JsUndefined.
Proof.
  intros Hjob Hpv Hlast Hdef st'.
  assert (Hvalid : negb (strict_eq pv JsNull) && negb (instanceof_DataValue pv)
                   = false).
  { destruct Hpv as [->| ->]; [done|]. by rewrite andb_false_r. }
  assert (Hs : strict_eq (__lastUpdateValue (this st)) JsUndefined
               || negb (strict_eq (__lastUpdateValue (this st))
                          (pj_rawValue job)) = false).
  { unfold strict_eq. rewrite Hlast.
    rewrite (bool_decide_eq_false_2 _ Hdef).
    by rewrite bool_decide_eq_true_2. }
  assert (Hrun : st' = exec (bind (_updateValue_done pv)
                               (λ _, _trigger Ev_afterparse))
                         (on_this (set___lastUpdateValue JsUndefined)
                            (on_env (λ n, set_parsing (delete id (parsing n)) n)
                               st))).
  { subst st'. unfold exec at 1, parser_done.
    unfold bind at 1, get at 1. simpl. rewrite Hjob.
    unfold bind at 1, modify at 1. simpl. rewrite Hvalid, Hs.
    unfold exec. f_equal. unfold settle, bind, modify, ret. simpl.
    by destruct (_updateValue_done pv _) as [[[]|?] ?]. }
  rewrite Hrun. split.
  + change (accepted_value
      (exec (bind (_updateValue_done pv) (λ _, _trigger Ev_afterparse))
         (on_this (set___lastUpdateValue JsUndefined)
            (on_env (λ n, set_parsing (delete id (parsing n)) n) st)))
      = as_data pv).
    rewrite exec_bind_keeps; [apply _updateValue_done_value|].
    intros _. apply value_of_core, core__trigger.
  + pose proof (keeps_bind schedule _ (λ _ : (), _trigger Ev_afterparse)
                  (_updateValue_done_schedule pv)
                  (λ _, schedule_of_core _ (core__trigger _))) as Hk.
    specialize (Hk (on_this (set___lastUpdateValue JsUndefined)
                      (on_env (λ n, set_parsing (delete id (parsing n)) n)
                         st))).
    unfold schedule in Hk. simpl in Hk. congruence.
Qed.

(** X27. An answer of the parser that is stale is dropped: when the raw
    value its request was made for is not the one [__lastUpdateValue] holds,
    or [__lastUpdateValue] has been emptied, the handler forgets the request
    and triggers [afterparse], and changes nothing else, neither in the
    widget object nor in the document.  [__lastUpdateValue] is emptied by
    the answer that is applied, so that every answer which arrives after it,
    whatever its request, is dropped in this way, until a new request is
    made. *)
Theorem stale_parse_answer_dropped (st : State) (id : nat) :
  (∀ job parsedValue,
     parsing (env st) !! id = Some job →
     parsedValue = JsNull ∨ instanceof_DataValue parsedValue = true →
     __lastUpdateValue (this st) = JsUndefined
     ∨ __lastUpdateValue (this st) ≠ pj_rawValue job →
     parser_done id parsedValue st
     = (Normal (),
        on_env (λ n, set_events (events n ++ [Ev_afterparse]) n)
          (on_env (λ n, set_parsing (delete id (parsing n)) n) st)))
  ∧ (∀ job parsedValue id' job' parsedValue',
       parsing (env st) !! id = Some job →
       parsedValue = JsNull ∨ instanceof_DataValue parsedValue = true →
       __lastUpdateValue (this st) = pj_rawValue job →
       pj_rawValue job ≠ JsUndefined →
       let st' := exec (parser_done id parsedValue) st in
       parsing (env st') !! id' = Some job' →
       parsedValue' = JsNull ∨ instanceof_DataValue parsedValue' = true →
       parser_done id' parsedValue' st'
       = (Normal (),
          on_env (λ n, set_events (events n ++ [Ev_afterparse]) n)
            (on_env (λ n, set_parsing (delete id' (parsing n)) n) st'))).
Proof.
  assert (Hdrop : ∀ s i job pv,
    parsing (env s) !! i = Some job →
    pv = JsNull ∨ instanceof_DataValue pv = true →
    __lastUpdateValue (this s) = JsUndefined
    ∨ __lastUpdateValue (this s) ≠ pj_rawValue job →
    parser_done i pv s
    = (Normal (),
       on_env (λ n, set_events (events n ++ [Ev_afterparse]) n)
         (on_env (λ n, set_parsing (delete i (parsing n)) n) s))).
  { intros s i job pv Hjob Hpv Hstale.
    assert (Hvalid : negb (strict_eq pv JsNull) && negb (instanceof_DataValue pv)
                     = false).
    { destruct Hpv as [->| ->]; [done|]. by rewrite andb_false_r. }
    assert (Hs : strict_eq (__lastUpdateValue (this s)) JsUndefined
                 || negb (strict_eq (__lastUpdateValue (this s))
                            (pj_rawValue job)) = true).
    { unfold strict_eq. destruct Hstale as [->|Hne]; [done|].
      rewrite (bool_decide_eq_false_2 _ Hne). apply orb_true_r. }
    unfold parser_done, bind, get; simpl. rewrite Hjob. simpl.
    rewrite Hvalid, Hs. reflexivity. }
  split.
  - intros job pv. apply Hdrop.
  - intros job pv id' job' pv' Hjob Hpv Hlast Hdef st' Hjob' Hpv'.
    apply (Hdrop st' id' job' pv' Hjob' Hpv'). left.
    by destruct (parser_done_accepted st id job pv Hjob Hpv Hlast Hdef).
Qed.

(** ** Edit mode *)

#[local] Hint Resolve value_of_core mode_of_core schedule_of_core : keeps.

Lemma exec_isInEditMode_bind {B} (k : bool → JS B) st :
  exec (bind isInEditMode k) st = exec (k (_isInEditMode (this st))) st.
Proof. reflexivity. Qed.

Lemma as_data_of_data v : as_data (of_data v) = v.
Proof. by destruct v. Qed.

Lemma structurally_equal_refl v : structurally_equal v v.
Proof. by destruct v. Qed.

(** The value [_setValue] leaves: the one it was given, unless the current
    one serializes alike, in which case nothing changes. *)
Lemma _setValue_value (u : option DataValue) st :
  let st' := exec (_setValue EmptyValue UnsupportedValue (of_data u)) st in
  accepted_value st' = u
  ∨ ∃ d d', accepted_value st = Some d ∧ u = Some d'
            ∧ dv_json d' = dv_json d ∧ st' = st.
Proof.
  intros st'. subst st'. unfold _setValue.
  destruct u as [d'|]; simpl of_data; cbv iota; rewrite exec_get_bind; cbv zeta.
  - destruct (_value (this st)) as [d|] eqn:Hv.
    + destruct (same_json d' d) eqn:Hj.
      * right. exists d, d'. unfold same_json in Hj.
        apply bool_decide_eq_true in Hj. by rewrite exec_ret.
      * left. rewrite exec_bind_keeps; [done|]. intros _. keeps_auto.
    + left. rewrite exec_bind_keeps; [done|]. intros _. keeps_auto.
  - left. assert (Hu : (match _value (this st) with
                        | Some _ | _ => false end) = false)
      by (by destruct (_value (this st))).
    rewrite Hu. rewrite exec_bind_keeps; [done|]. intros _. keeps_auto.
Qed.

Lemma value_setter_value (u : option DataValue) st :
  exec (value EmptyValue UnsupportedValue (of_data u)) st
  = exec (bind (_setValue EmptyValue UnsupportedValue (of_data u))
            (λ _, ret JsUndefined)) st.
Proof. by destruct u. Qed.

Lemma exec_initialValue_bind {B} (k : JsValue → JS B) st :
  exec (bind (initialValue EmptyValue UnsupportedValue) k) st
  = exec (k (of_data (if _isInEditMode (this st) then _initialValue (this st)
                      else _value (this st)))) st.
Proof.
  destruct (_isInEditMode (this st)) eqn:Hmode;
    cbv [exec bind initialValue isInEditMode get ret value]; simpl;
    by rewrite Hmode.
Qed.

(** The accepted value once [stopEditing] has returned or thrown. *)
Lemma stopEditing_value dropValue st :
  let st' := exec (stopEditing EmptyValue UnsupportedValue dropValue) st in
  if _isInEditMode (this st) && dropValue then
    accepted_value st' = _initialValue (this st)
    ∨ ∃ d d', accepted_value st = Some d ∧ _initialValue (this st) = Some d'
              ∧ dv_json d' = dv_json d ∧ accepted_value st' = Some d
  else accepted_value st' = accepted_value st.
Proof.
  intros st'. subst st'. unfold stopEditing.
  rewrite exec_isInEditMode_bind.
  destruct (_isInEditMode (this st)) eqn:Hmode; simpl negb; cbv iota;
    [|by rewrite exec_ret].
  rewrite exec_bind_keeps by (intros _; keeps_auto).
  destruct dropValue; simpl andb; cbv iota; unfold when;
    [|by rewrite exec_ret].
  rewrite exec_initialValue_bind, Hmode.
  rewrite exec_bind_keeps by (intros _; keeps_auto).
  rewrite value_setter_value.
  rewrite exec_bind_keeps by (intros _; keeps_auto).
  destruct (_setValue_value (_initialValue (this st)) st)
    as [H|(d & d' & H1 & H2 & H3 & H4)]; [by left|].
  right. exists d, d'. by rewrite H4.
Qed.

Lemma keeps_apply {T A} (f : State → T) (m : JS A) st x :
  keeps f m → f st = x → f (exec m st) = x.
Proof. intros H <-. apply H. Qed.

(** [stopEditing( false )] always leaves the view out of edit mode. *)
Lemma stopEditing_false_mode st :
  edit_mode (exec (stopEditing EmptyValue UnsupportedValue false) st) = false.
Proof.
  unfold stopEditing. rewrite exec_isInEditMode_bind.
  destruct (_isInEditMode (this st)) eqn:Hmode; simpl negb; cbv iota;
    [|by rewrite exec_ret].
  unfold when at 1. js_run.
  apply keeps_apply; [keeps_auto|done].
Qed.

Lemma startEditing_static st :
  _isInEditMode (this st) = false →
  core (exec (startEditing EmptyValue UnsupportedValue) st)
  = core (on_this (set__isInEditMode true)
            (on_this (set__initialValue (_value (this st))) st)).
Proof.
  intros Hmode. unfold startEditing. rewrite exec_isInEditMode_bind, Hmode.
  cbv iota. unfold value. rewrite exec_bind. unfold bind at 1, get, ret.
  simpl. js_run. rewrite as_data_of_data.
  apply keeps_apply; [keeps_auto|done].
Qed.

(** C3. [startEditing] followed at once by [cancelEditing] leaves the view
    with its pre-edit value: started from the static mode, [startEditing]
    captures the current value and the accepted value afterwards is the very
    value the view had, and so structurally equal to it; called on a view
    that is already being edited, [startEditing] does nothing and
    [cancelEditing] restores, up to structural equality, the value captured
    when editing began. *)
Theorem start_cancel_restores (st : State) :
  let st' := exec (cancelEditing EmptyValue UnsupportedValue)
               (exec (startEditing EmptyValue UnsupportedValue) st) in
  (_isInEditMode (this st) = false →
   _initialValue (this (exec (startEditing EmptyValue UnsupportedValue) st))
   = _value (this st)
   ∧ _value (this st') = _value (this st)
   ∧ structurally_equal (_value (this st')) (_value (this st)))
  ∧ (_isInEditMode (this st) = true →
     exec (startEditing EmptyValue UnsupportedValue) st = st
     ∧ structurally_equal (_value (this st')) (_initialValue (this st))).
Proof.
  intros st'. subst st'. unfold cancelEditing. split; intros Hmode.
  - pose proof (startEditing_static st Hmode) as Hcore.
    set (s1 := exec (startEditing EmptyValue UnsupportedValue) st) in *.
    assert (H1 : _isInEditMode (this s1) = true)
      by (apply core_mode in Hcore; by rewrite Hcore).
    assert (H2 : _initialValue (this s1) = _value (this st))
      by (unfold core in Hcore; simpl in Hcore; congruence).
    assert (H3 : _value (this s1) = _value (this st))
      by (apply core_value in Hcore; by rewrite Hcore).
    pose proof (stopEditing_value true s1) as Hstop.
    rewrite H1 in Hstop. simpl in Hstop. unfold accepted_value in Hstop.
    assert (_value (this (exec (stopEditing EmptyValue UnsupportedValue true)
                            s1)) = _value (this st)) as ->.
    { destruct Hstop as [H|(d & d' & Hd & _ & _ & H)]; congruence. }
    split; [done|]. split; [done|apply structurally_equal_refl].
  - assert (exec (startEditing EmptyValue UnsupportedValue) st = st) as ->.
    { unfold startEditing. rewrite exec_isInEditMode_bind, Hmode.
      by rewrite exec_ret. }
    split; [done|].
    pose proof (stopEditing_value true st) as Hstop.
    rewrite Hmode in Hstop. simpl in Hstop. unfold accepted_value in Hstop.
    destruct Hstop as [->|(d & d' & Hd & -> & Hj & ->)];
      [apply structurally_equal_refl|done].
Qed.

(** C7. Let the parser answer the latest request with a data value [v] and
    the formatter answer a request after that; [stopEditing( false )] then
    returns with the view out of edit mode, and [initialValue()] returns
    [v]. *)
Theorem stopEditing_commits (st : State) (id id' : nat) (job : ParseJob)
    (v : DataValue) (formattedValue : string) (formattedDataValue : JsValue) :
  _isInEditMode (this st) = true →
  parsing (env st) !! id = Some job →
  __lastUpdateValue (this st) = pj_rawValue job →
  pj_rawValue job ≠ JsUndefined →
  let st1 := exec (parser_done id (JsData v)) st in
  let st2 := exec (formatter_done id' formattedValue formattedDataValue) st1 in
  let st3 := exec (stopEditing EmptyValue UnsupportedValue false) st2 in
  _isInEditMode (this st3) = false
  ∧ result (initialValue EmptyValue UnsupportedValue) st3 = Normal (JsData v).
Proof.
  intros Hmode Hjob Hlast Hdef st1 st2 st3.
  destruct (parser_done_accepted st id job (JsData v) Hjob
              (or_intror eq_refl) Hlast Hdef) as [Hv1 _].
  fold st1 in Hv1. simpl in Hv1.
  assert (Hv2 : _value (this st2) = Some v).
  { subst st2. rewrite <- Hv1. apply core_value, core_formatter_done. }
  pose proof (stopEditing_value false st2) as Hv3.
  rewrite andb_false_r in Hv3. fold st3 in Hv3.
  unfold accepted_value in Hv3. rewrite Hv2 in Hv3.
  assert (Hm3 : _isInEditMode (this st3) = false)
    by apply stopEditing_false_mode.
  split; [done|].
  unfold result, initialValue, bind, isInEditMode, get, ret, value. simpl.
  rewrite Hm3. simpl. by rewrite Hv3.
Qed.

(** ** Well-formed states *)

Lemma pres_ret {A} I (a : A) : pres I (ret a).
Proof. by intros st. Qed.

Lemma pres_throw {A} I e : pres I (@throw A e).
Proof. by intros st. Qed.

Lemma pres_get I : pres I get.
Proof. by intros st. Qed.

Lemma pres_modify (I : State → Prop) g : (∀ st, I st → I (g st)) → pres I (modify g).
Proof. intros H st. apply H. Qed.

Lemma pres_bind {A B} I (m : JS A) (k : A → JS B) :
  pres I m → (∀ a, pres I (k a)) → pres I (bind m k).
Proof.
  intros Hm Hk st HI. rewrite exec_bind. specialize (Hm st HI).
  unfold exec in Hm. destruct (m st) as [[a|e] st']; simpl in Hm; [|done].
  by apply Hk.
Qed.

Lemma pres_when I c m : pres I m → pres I (when c m).
Proof. intros H. destruct c; [done|apply pres_ret]. Qed.

Lemma pres_at {A} (I : State → Prop) (m : JS A) st : pres I m → I st → I (exec m st).
Proof. intros H. apply H. Qed.

Create HintDb pres discriminated.

#[local] Hint Resolve pres_ret pres_throw pres_get pres_when : pres.

(** A statement that assigns to members the invariant does not mention. *)
Ltac wf_leaf :=
  let st := fresh "st" in
  intros st;
  unfold wf, classes_ok, content_ok, experts_ok, timers_ok, ids_ok;
  simpl; intros (? & ? & [? ?] & ? & ?);
  repeat split; try done; try lia; eauto.

Ltac pres_step :=
  lazymatch goal with
  | |- pres _ (bind _ _) => apply pres_bind; [|intros ?]
  | |- pres _ (ret _) => apply pres_ret
  | |- pres _ (throw _) => apply pres_throw
  | |- pres _ get => apply pres_get
  | |- pres _ (when _ _) => apply pres_when
  | |- pres _ (modify _) => apply pres_modify; wf_leaf
  | |- pres _ (match _ with _ => _ end) => case_match
  | |- pres _ (let _ := _ in _) => cbv zeta
  | |- _ => solve [eauto with pres]
  end.

Ltac pres_auto := repeat pres_step.

Lemma wf__trigger e : pres wf (_trigger e).
Proof. apply pres_modify. wf_leaf. Qed.

Lemma wf_trigger_all l : pres wf (trigger_all l).
Proof.
  unfold trigger_all. induction l as [|e l IH]; simpl; [apply pres_ret|].
  apply pres_bind; [apply wf__trigger | done].
Qed.

Lemma wf_fresh : pres wf fresh.
Proof. unfold pres, exec, fresh. simpl. wf_leaf. Qed.

Lemma wf_isInEditMode : pres wf isInEditMode.
Proof. by intros st. Qed.

Lemma wf_getFormattedValue : pres wf getFormattedValue.
Proof. by intros st. Qed.

Lemma wf_getTextValue : pres wf getTextValue.
Proof. by intros st. Qed.

Lemma wf__determineDataValueType : pres wf _determineDataValueType.
Proof. by intros st. Qed.

#[local] Hint Resolve wf__trigger wf_trigger_all wf_fresh wf_isInEditMode
  wf_getFormattedValue wf_getTextValue wf__determineDataValueType : pres.

Lemma wf__updateExpertConstructor :
  pres wf (_updateExpertConstructor EmptyValue UnsupportedValue).
Proof. unfold _updateExpertConstructor. pres_auto. Qed.

Lemma wf_valueCharacteristics : pres wf valueCharacteristics.
Proof. unfold valueCharacteristics. pres_auto. Qed.

Lemma wf_instantiate lookup o : pres wf (instantiate lookup o).
Proof. unfold instantiate. pres_auto. Qed.

#[local] Hint Resolve wf__updateExpertConstructor wf_valueCharacteristics
  wf_instantiate : pres.

Lemma wf__instantiateParser o : pres wf (_instantiateParser o).
Proof. unfold _instantiateParser. pres_auto. Qed.

Lemma wf__instantiateFormatter o : pres wf (_instantiateFormatter o).
Proof. unfold _instantiateFormatter. pres_auto. Qed.

#[local] Hint Resolve wf__instantiateParser wf__instantiateFormatter : pres.

(** Changes made in place to an expert keep the experts well-formed when
    they leave [_extendable] alone. *)
Lemma wf_on_expert r f :
  (∀ e, Expert._extendable (f e) = Expert._extendable e) →
  ∀ st, wf st → wf (on_expert r f st).
Proof.
  intros Hf st (Hcl & Hco & [J1 J2] & Ht & Hi).
  repeat split; try done; simpl.
  - intros r' e'. rewrite lookup_alter.
    case_decide as Hr; [subst r'|by apply J1].
    destruct (experts (env st) !! r) as [e|] eqn:He; simpl; [|done].
    intros [= <-]. rewrite Hf. by eapply J1.
  - intros r' Hr'. rewrite lookup_alter. case_decide; [subst|by apply J2].
    apply fmap_is_Some. by apply J2.
Qed.

(** [_destroyExpert] on a well-formed state with an expert: it returns, and
    changes the expert object, the view port and the record of calls only. *)
Lemma _destroyExpert_spec st r :
  experts_ok st →
  _expert (this st) = Some r →
  ∃ e' w,
    _destroyExpert st
    = (Normal (), on_this (set__expert None) (put_expert r e' (put_world w st)))
    ∧ is_Some (Expert._extendable e').
Proof.
  intros [J1 J2] Hr. destruct (J2 r Hr) as [e He].
  destruct (J1 r e He) as [x Hx].
  unfold _destroyExpert, bind, get; simpl.
  rewrite Hr, (the_expert_lookup _ _ _ Hr He). simpl.
  unfold Expert.destroy. destruct (Expert.viewPort e) eqn:Hv.
  - rewrite Hx. eexists _, _. split; [reflexivity|]. simpl. by eexists.
  - eexists _, _. split; [reflexivity|]. by eexists.
Qed.

Lemma wf_put_expert r e st :
  is_Some (Expert._extendable e) → wf st → wf (put_expert r e st).
Proof.
  intros He (Hcl & Hco & [J1 J2] & Ht & Hi).
  repeat split; try done; simpl.
  - intros r' e'. rewrite lookup_insert. case_decide; [by intros [= <-]|apply J1].
  - intros r' Hr'. rewrite lookup_insert. case_decide; [done|by apply J2].
Qed.

Lemma wf__destroyExpert : pres wf _destroyExpert.
Proof.
  intros st Hwf. destruct (_expert (this st)) as [r|] eqn:Hr.
  - destruct (_destroyExpert_spec st r) as (e' & w & Hrun & He'); [apply Hwf|done|].
    unfold exec. rewrite Hrun. simpl.
    assert (Hw : wf (put_expert r e' (put_world w st))).
    { apply wf_put_expert; [done|]. revert Hwf. generalize st. wf_leaf. }
    revert Hw. generalize (put_expert r e' (put_world w st)). wf_leaf.
  - unfold exec, _destroyExpert, bind, get. simpl. by rewrite Hr.
Qed.

#[local] Hint Resolve wf__destroyExpert : pres.

Lemma wf__updateExpert : pres wf _updateExpert.
Proof.
  unfold _updateExpert.
  apply pres_bind; [apply pres_get|intros st0]. cbv zeta.
  match goal with |- pres _ (if ?c then _ else _) => destruct c end;
    [apply pres_ret|].
  apply pres_bind; [pres_auto|intros _].
  destruct (_expertConstructor (this st0)) as [e|]; [|apply pres_ret].
  apply pres_bind; [pres_auto|intros r].
  apply pres_bind; [|intros _; pres_auto].
  apply pres_modify. intros st Hwf.
  assert (Hw : wf (put_expert r
    (Expert.create e Expert.ViewStateOfView Expert.NotifierOfView
       {| Expert.contentLanguages := contentLanguages (options (this st0));
          Expert.messageProvider := messageProvider (options (this st0)) |})
    st)) by (apply wf_put_expert; [by eexists|done]).
  destruct Hw as (Hcl & Hco & [J1 J2] & Ht & Hi).
  repeat split; try done. simpl. intros r' [= <-].
  rewrite lookup_insert_eq. by eexists.
Qed.

#[local] Hint Resolve wf__updateExpert : pres.

Lemma wf_put_world w st : wf st → wf (put_world w st).
Proof. revert st. wf_leaf. Qed.

Lemma wf_drawContent_then done : pres wf (drawContent_then done).
Proof. unfold drawContent_then. pres_auto. Qed.

Lemma wf__updateTextValue c : pres wf (_updateTextValue c).
Proof. unfold _updateTextValue. pres_auto. Qed.

Lemma wf__formatValue v c : pres wf (_formatValue v c).
Proof. unfold _formatValue. pres_auto. Qed.

#[local] Hint Resolve wf_drawContent_then wf__updateTextValue wf__formatValue
  : pres.

Lemma wf_drawable st : wf st → drawable st.
Proof.
  intros (Hcl & Hco & HJ & Ht & Hi). repeat split; try done; try apply HJ.
  intros Hmode. unfold content_ok in Hco. by rewrite Hmode in Hco.
Qed.

Lemma drawContent_wf done st :
  classes_ok st → drawable st → wf (exec (drawContent done) st).
Proof.
  intros Hcl (Hco & HJ & Ht & Hi). unfold drawContent.
  rewrite exec_isInEditMode_bind.
  destruct (_isInEditMode (this st)) eqn:Hmode.
  - apply pres_at; [pres_auto|].
    repeat split; try done; try apply HJ.
    unfold content_ok. rewrite Hmode. by apply Hco.
  - unfold drawStaticContent.
    change (wf (exec (trigger_all done)
                  (on_dom (set_children (html_nodes (_formattedValue (this st))))
                     st))).
    apply pres_at; [apply wf_trigger_all|].
    unfold wf, classes_ok, content_ok, experts_ok, timers_ok, ids_ok in *.
    simpl. rewrite Hmode in *. repeat split; try done; try apply HJ.
    by eexists.
Qed.

Lemma wf_drawContent done : pres wf (drawContent done).
Proof.
  intros st Hwf. apply drawContent_wf; [apply Hwf|by apply wf_drawable].
Qed.

Lemma draw_wf done st : drawable st → wf (exec (draw done) st).
Proof.
  intros (Hco & HJ & Ht & Hi). unfold draw.
  rewrite exec_isInEditMode_bind. js_run.
  apply drawContent_wf.
  - unfold classes_ok. simpl. by destruct (_isInEditMode (this st)).
  - repeat split; try done; apply HJ.
Qed.

Lemma wf_draw done : pres wf (draw done).
Proof. intros st Hwf. by apply draw_wf, wf_drawable. Qed.

Lemma wf__renderError m : pres wf (_renderError m).
Proof.
  unfold _renderError. apply pres_bind; [apply pres_get|intros st0].
  repeat case_match; try apply pres_ret.
  apply pres_when, pres_modify, wf_on_expert. done.
Qed.

#[local] Hint Resolve wf_drawContent wf_draw wf__renderError : pres.

Lemma wf__setValue x : pres wf (_setValue EmptyValue UnsupportedValue x).
Proof. unfold _setValue. pres_auto. Qed.

#[local] Hint Resolve wf__setValue : pres.

Lemma wf_value x : pres wf (value EmptyValue UnsupportedValue x).
Proof. unfold value. pres_auto. Qed.

#[local] Hint Resolve wf_value : pres.

Lemma wf_initialValue : pres wf (initialValue EmptyValue UnsupportedValue).
Proof. unfold initialValue. pres_auto. Qed.

Lemma wf_isEmpty : pres wf (isEmpty EmptyValue UnsupportedValue).
Proof. unfold isEmpty. pres_auto. Qed.

#[local] Hint Resolve wf_initialValue wf_isEmpty : pres.

Lemma wf_startEditing : pres wf (startEditing EmptyValue UnsupportedValue).
Proof.
  intros st Hwf. unfold startEditing. rewrite exec_isInEditMode_bind.
  destruct (_isInEditMode (this st)) eqn:Hmode; [by rewrite exec_ret|].
  change (wf (exec
    (bind (modify (on_this (set__initialValue
                              (as_data (of_data (_value (this st)))))))
       (λ _, bind (modify (on_this (set__isInEditMode true)))
       (λ _, bind (modify (on_dom (set_children [ValueNode])))
       (λ _, draw [Ev_afterstartediting])))) st)).
  js_run. apply draw_wf.
  destruct Hwf as (Hcl & Hco & HJ & Ht & Hi). repeat split; try done; apply HJ.
Qed.

Lemma wf_stopEditing dropValue :
  pres wf (stopEditing EmptyValue UnsupportedValue dropValue).
Proof.
  intros st Hwf. unfold stopEditing. rewrite exec_isInEditMode_bind.
  destruct (_isInEditMode (this st)) eqn:Hmode; simpl negb; cbv iota;
    [|by rewrite exec_ret].
  rewrite exec_bind.
  assert (Hpre : pres wf (when dropValue
            (bind (initialValue EmptyValue UnsupportedValue)
               (λ initial, bind (value EmptyValue UnsupportedValue initial)
                             (λ _, ret ()))))) by pres_auto.
  specialize (Hpre st Hwf). unfold exec in Hpre.
  destruct (when dropValue _ st) as [[[]|err] s0]; simpl in Hpre; [|done].
  clear st Hwf Hmode. destruct Hpre as (Hcl & Hco & HJ & Ht & Hi).
  js_run.
  set (s1 := on_this (set___lastValueCharacteristics None)
               (on_this (set__isInEditMode false)
                  (on_this (set__initialValue None) s0))).
  assert (HJ1 : experts_ok s1) by (split; apply HJ).
  destruct (_expert (this s1)) as [r|] eqn:Hr.
  - destruct (_destroyExpert_spec s1 r HJ1 Hr) as (e' & w & Hrun & He').
    rewrite exec_bind. simpl. rewrite Hrun. js_run.
    apply draw_wf. repeat split; try done; simpl.
    intros r' e0. rewrite lookup_insert.
    case_decide; [by intros [= <-]|apply HJ].
  - simpl. js_run. apply draw_wf. repeat split; try done; apply HJ.
Qed.

#[local] Hint Resolve wf_startEditing wf_stopEditing : pres.

Lemma wf__setDisabled b : pres wf (_setDisabled b).
Proof. unfold _setDisabled. pres_auto. Qed.

#[local] Hint Resolve wf__setDisabled : pres.

(** Methods that only read. *)
Lemma reads_valueCharacteristics : keeps id valueCharacteristics.
Proof. unfold valueCharacteristics. keeps_auto. Qed.

Lemma reads__instantiateParser o : keeps id (_instantiateParser o).
Proof.
  unfold _instantiateParser, instantiate, _determineDataValueType. keeps_auto.
Qed.

Lemma exec_fresh_bind {B} (k : nat → JS B) st :
  exec (bind fresh k) st
  = exec (k (next_id (env st))) (on_env (set_next_id (S (next_id (env st)))) st).
Proof. reflexivity. Qed.

(** A method that only reads either throws or hands its result to the rest
    of the method, in the same state. *)
Lemma exec_read_bind {A B} (m : JS A) (k : A → JS B) st :
  keeps id m →
  exec (bind m k) st
  = match result m st with Normal a => exec (k a) st | Thrown _ => st end.
Proof.
  intros Hm. specialize (Hm st). unfold exec, result, bind in *.
  destruct (m st) as [[a|e] st']; simpl in *; by subst.
Qed.

(** After [_parseValue] has cleared the timer [_parseTimer] refers to, no
    timer is pending. *)
Lemma timers_cleared st :
  timers_ok st →
  timers (env (exec (when (truthy_id (_parseTimer (this st)))
                       (clearTimeout (default 0 (_parseTimer (this st))))) st))
  = ∅.
Proof.
  unfold exec, when, clearTimeout, modify, ret.
  intros [Hempty|(n & job & Hp & Ht)].
  - destruct (truthy_id _); simpl; rewrite Hempty; [apply delete_empty|done].
  - rewrite Hp. simpl. rewrite Ht. apply delete_singleton_eq.
Qed.

Lemma schedule_parse_wf st0 r rawValue st :
  wf st → timers (env st) = ∅ →
  wf (exec (schedule_parse st0 r rawValue) st).
Proof.
  intros Hwf Hempty. unfold schedule_parse.
  rewrite exec_read_bind by apply reads_valueCharacteristics.
  destruct (result valueCharacteristics st) as [c|]; [|done].
  rewrite exec_read_bind by apply reads__instantiateParser.
  destruct (result (_instantiateParser c) st) as [p|]; [|done].
  rewrite exec_modify_bind, exec_fresh_bind. js_run.
  destruct Hwf as (Hcl & Hco & HJ & Ht & Hi).
  unfold wf, classes_ok, content_ok, experts_ok, timers_ok, ids_ok in *.
  simpl. repeat split; try done; try apply HJ; try lia.
  right. unfold ids_ok in Hi. destruct (next_id (env st)) as [|n]; [lia|].
  eexists n, _. split; [done|]. rewrite Hempty. by rewrite insert_empty.
Qed.

Lemma wf_clearTimeout id : pres wf (clearTimeout id).
Proof.
  apply pres_modify.
  intros s (Hcl & Hco & HJ & Ht & Hi).
  split; [exact Hcl|]. split; [exact Hco|]. split; [exact HJ|].
  split; [|exact Hi].
  unfold timers_ok in *. simpl.
  destruct Ht as [Ht|(n & job & Hp & Ht)]; rewrite Ht.
  - left. apply delete_empty.
  - destruct (decide (id = S n)) as [->|Hne].
    + left. apply delete_singleton_eq.
    + right. exists n, job. split; [done|]. by rewrite delete_singleton_ne.
Qed.

Lemma wf__parseValue : pres wf _parseValue.
Proof.
  intros st Hwf. unfold _parseValue. rewrite exec_get_bind.
  destruct (_expert (this st)) as [r|] eqn:Hr; [|done].
  destruct (the_expert st) as [e|] eqn:He; [|done].
  rewrite exec_trigger_bind.
  assert (Hwf1 : wf (on_env (λ n, set_events (events n ++ [Ev_parse]) n) st))
    by (apply (wf__trigger Ev_parse); done).
  set (s1 := on_env (λ n, set_events (events n ++ [Ev_parse]) n) st) in *.
  destruct (strict_eq _ _ || _).
  - apply pres_at; [pres_auto|done].
  - rewrite exec_bind.
    pose proof (timers_cleared s1 (proj1 (proj2 (proj2 (proj2 Hwf1))))) as Hc.
    assert (Hwf2 : wf (exec (when (truthy_id (_parseTimer (this st)))
                         (clearTimeout (default 0 (_parseTimer (this st))))) s1))
      by (apply pres_at; [apply pres_when, wf_clearTimeout|done]).
    change (_parseTimer (this st)) with (_parseTimer (this s1)) in *.
    unfold exec in Hc, Hwf2.
    destruct (when _ _ s1) as [[[]|err] s2]; simpl in Hc, Hwf2; [|done].
    by apply (schedule_parse_wf st r (Expert.rawValue e)).
Qed.

#[local] Hint Resolve wf__parseValue : pres.

Lemma wf__updateValue_done pv : pres wf (_updateValue_done pv).
Proof. unfold _updateValue_done. pres_auto. Qed.

Lemma wf__updateValue_fail m : pres wf (_updateValue_fail m).
Proof. unfold _updateValue_fail. pres_auto. Qed.

#[local] Hint Resolve wf__updateValue_done wf__updateValue_fail : pres.

Lemma wf__updateValue : pres wf _updateValue.
Proof. unfold _updateValue. pres_auto. Qed.

#[local] Hint Resolve wf__updateValue : pres.

#[local] Hint Resolve wf_clearTimeout : pres.

Lemma wf_timer_expired id : pres wf (timer_expired id).
Proof.
  unfold timer_expired. apply pres_bind; [apply pres_get|intros st0].
  case_match; [|apply pres_ret].
  apply pres_bind; [apply wf_clearTimeout|intros _].
  apply pres_bind; [|intros _; pres_auto].
  case_match; [|apply pres_ret].
  apply pres_when, pres_modify, wf_on_expert. done.
Qed.

Lemma wf_settle d m : pres wf m → pres wf (settle d m).
Proof. intros H. unfold settle. destruct d; pres_auto. Qed.

#[local] Hint Resolve wf_timer_expired wf_settle : pres.

Lemma wf_parser_done id pv : pres wf (parser_done id pv).
Proof. unfold parser_done. pres_auto. Qed.

Lemma wf_parser_fail id m : pres wf (parser_fail id m).
Proof. unfold parser_fail. pres_auto. Qed.

Lemma wf_format_resolved c fv : pres wf (format_resolved c fv).
Proof. unfold format_resolved. pres_auto. Qed.

Lemma wf_format_rejected c m : pres wf (format_rejected c m).
Proof. unfold format_rejected. pres_auto. Qed.

Lemma wf_format_always c : pres wf (format_always c).
Proof. unfold format_always. pres_auto. Qed.

#[local] Hint Resolve wf_parser_done wf_parser_fail wf_format_resolved
  wf_format_rejected wf_format_always : pres.

Lemma wf_formatter_done id fv echo : pres wf (formatter_done id fv echo).
Proof. unfold formatter_done. pres_auto. Qed.

Lemma wf_formatter_fail id m : pres wf (formatter_fail id m).
Proof. unfold formatter_fail. pres_auto. Qed.

Lemma wf_viewNotifier_change : pres wf viewNotifier_change.
Proof. unfold viewNotifier_change. pres_auto. Qed.

#[local] Hint Resolve wf_formatter_done wf_formatter_fail
  wf_viewNotifier_change : pres.

Lemma wf_expert_edited raw c : pres wf (expert_edited raw c).
Proof.
  unfold expert_edited. apply pres_bind; [apply pres_get|intros st0].
  apply pres_bind; [|intros _; pres_auto].
  repeat case_match; try apply pres_ret.
  apply pres_modify, wf_on_expert. done.
Qed.

Lemma wf__initValue v : pres wf (_initValue EmptyValue UnsupportedValue v).
Proof. unfold _initValue. pres_auto. Qed.

#[local] Hint Resolve wf_expert_edited wf__initValue : pres.

Lemma wf__create : pres wf (_create EmptyValue UnsupportedValue).
Proof. unfold _create. pres_auto. Qed.

Lemma wf_handle i : pres wf (handle EmptyValue UnsupportedValue i).
Proof.
  destruct i; simpl; unfold cancelEditing, disable, enable; pres_auto.
Qed.

Lemma wf_new_widget o markup : wf (new_widget o markup).
Proof.
  unfold wf, classes_ok, content_ok, experts_ok, timers_ok, ids_ok. simpl.
  repeat split; try done; [by exists (Some markup)|by left].
Qed.

(** Every state a widget can be in is well-formed. *)
Lemma reachable_wf o markup st :
  reachable EmptyValue UnsupportedValue o markup st → wf st.
Proof.
  induction 1 as [|st i _ IH].
  - apply wf__create, wf_new_widget.
  - by apply wf_handle.
Qed.

Lemma reachable_run o markup inputs st :
  reachable EmptyValue UnsupportedValue o markup st →
  reachable EmptyValue UnsupportedValue o markup
    (run EmptyValue UnsupportedValue inputs st).
Proof.
  revert st. induction inputs as [|i inputs IH]; intros st Hst; [done|].
  simpl. by apply IH, reachable_step.
Qed.

(** ** One surface at a time *)

Lemma ValueNode_not_rendered formatted : ValueNode ∉ html_nodes formatted.
Proof.
  destruct formatted as [[|a s]|]; simpl; try apply not_elem_of_nil.
  intros Hin. apply list_elem_of_singleton in Hin. done.
Qed.

Lemma Markup_not_ValueNode html : Markup html ∉ [ValueNode].
Proof. intros Hin. apply list_elem_of_singleton in Hin. done. Qed.

(** C5. Whatever has happened to a view since it was created — calls of
    [startEditing], [stopEditing], [draw] and the other methods, edits,
    timers, answers of the services — the element never holds static markup
    and the [$value] node at the same time, and it shows exactly one of the
    two surfaces.  In edit mode the [$value] node is all the element holds,
    and the element does not carry the class of the static mode; in static
    mode the element holds the rendering of a formatted value and nothing
    else, in particular not the [$value] node, and it does not carry the
    class of the edit mode. *)
Theorem one_surface_at_a_time (o : Options) (markup : string)
    (inputs : list Input) :
  let st := run EmptyValue UnsupportedValue inputs
              (exec (_create EmptyValue UnsupportedValue)
                 (new_widget o markup)) in
  ¬ (static_shown st ∧ editable_shown st)
  ∧ ((_isInEditMode (this st) = true
      ∧ editable_surface st ∧ editable_shown st ∧ ¬ static_shown st
      ∧ ¬ static_display st
      ∧ instaticmode (dom st) = false)
     ∨ (_isInEditMode (this st) = false
        ∧ static_display st ∧ ¬ editable_shown st
        ∧ ¬ editable_surface st
        ∧ ineditmode (dom st) = false)).
Proof.
  intros st.
  assert (Hwf : wf st) by (eapply reachable_wf, reachable_run; constructor).
  destruct Hwf as (Hcl & Hco & _).
  unfold classes_ok, content_ok, static_shown, editable_shown, static_display,
    editable_surface in *.
  destruct (_isInEditMode (this st)).
  - rewrite Hco.
    assert (Hno : ¬ ∃ html, Markup html ∈ [ValueNode])
      by (intros [html Hin]; by apply Markup_not_ValueNode in Hin).
    split; [tauto|]. left. split_and!; try done.
    + apply list_elem_of_here.
    + intros [f Hf]. apply (ValueNode_not_rendered f). rewrite <- Hf.
      apply list_elem_of_here.
  - destruct Hco as [f Hf].
    assert (Hno : ValueNode ∉ children (dom st))
      by (rewrite Hf; apply ValueNode_not_rendered).
    split; [tauto|]. right. split_and!; try done.
    + by exists f.
    + intros Hv. apply Hno. rewrite Hv. apply list_elem_of_here.
Qed.

(** ** Debouncing *)

Lemma _instantiateParser_available st c :
  parser_available st → ∃ p, _instantiateParser c st = (Normal p, st).
Proof.
  intros (getParser & t & d & Hstore & Ht & Hd).
  unfold _instantiateParser, instantiate, bind, get. simpl. rewrite Hstore.
  unfold result in Ht. simpl in *.
  destruct (_determineDataValueType st) as [[t'|] s'] eqn:Hdet; [|done].
  simpl in Ht. injection Ht as ->.
  assert (s' = st) as ->.
  { pose proof (f_equal snd Hdet) as Hs. by simpl in Hs. }
  rewrite Hd. by eexists.
Qed.

Lemma valueCharacteristics_expert st r e :
  _expert (this st) = Some r → the_expert st = Some e →
  valueCharacteristics st = (Normal (Expert.valueCharacteristics e), st).
Proof.
  intros Hr He. unfold valueCharacteristics, bind, get. simpl.
  by rewrite Hr, He.
Qed.

(** [_parseValue] on a raw value that has to go to the parser: it leaves
    exactly one timer behind, which holds this raw value and the configured
    delay, and sends nothing to the parser yet. *)
Lemma _parseValue_plain st r e :
  timers_ok st →
  _expert (this st) = Some r →
  the_expert st = Some e →
  strict_eq (Expert.rawValue e) JsNull
  || instanceof_DataValue (Expert.rawValue e) = false →
  parser_available st →
  ∃ st' job,
    _parseValue st = (Normal None, st')
    ∧ timers (env st') = {[ next_id (env st) := job ]}
    ∧ tj_rawValue job = Expert.rawValue e
    ∧ tj_delay job = parseDelay (options (this st))
    ∧ parsing (env st') = parsing (env st)
    ∧ next_id (env st') = S (next_id (env st)).
Proof.
  intros Ht Hr He Hraw Hpa.
  set (s1 := on_env (λ n, set_events (events n ++ [Ev_parse]) n) st).
  pose proof (timers_cleared s1 Ht) as Hclear.
  change (_parseTimer (this s1)) with (_parseTimer (this st)) in Hclear.
  set (s2 := exec (when (truthy_id (_parseTimer (this st)))
                     (clearTimeout (default 0 (_parseTimer (this st))))) s1)
    in *.
  assert (Hwhen : when (truthy_id (_parseTimer (this st)))
                    (clearTimeout (default 0 (_parseTimer (this st)))) s1
                  = (Normal (), s2)).
  { subst s2. unfold exec, when, clearTimeout, modify, ret.
    by destruct (truthy_id _). }
  assert (Hthis : this s2 = this st ∧ parsing (env s2) = parsing (env st)
                  ∧ experts (env s2) = experts (env st)
                  ∧ next_id (env s2) = next_id (env st)).
  { subst s2. unfold exec, when, clearTimeout, modify, ret.
    by destruct (truthy_id _). }
  destruct Hthis as (Hthis & Hparsing & Hexperts & Hnext).
  assert (He2 : the_expert s2 = Some e).
  { unfold the_expert in *. by rewrite Hthis, Hexperts. }
  assert (Hpa2 : parser_available s2).
  { destruct Hpa as (g & t & d & H1 & H2 & H3). exists g, t, d.
    unfold result, _determineDataValueType, bind, get, ret in *. simpl in *.
    by rewrite Hthis. }
  destruct (_instantiateParser_available s2 (Expert.valueCharacteristics e) Hpa2)
    as [p Hp].
  eexists _, _. split.
  - unfold _parseValue, bind at 1, get at 1. simpl. rewrite Hr, He.
    unfold bind at 1, _trigger at 1, modify at 1. simpl. fold s1.
    rewrite Hraw. unfold bind at 1. rewrite Hwhen.
    unfold bind at 1.
    rewrite (valueCharacteristics_expert s2 r e) by (by rewrite ?Hthis).
    unfold bind at 1. rewrite Hp.
    reflexivity.
  - simpl. rewrite Hclear, Hnext.
    split; [by rewrite insert_empty|]. by rewrite Hparsing.
Qed.

(** An expiring timer sends its raw value to the parser. *)
Lemma timer_expired_dispatch st id job :
  timers (env st) !! id = Some job →
  parsing (env (exec (timer_expired id) st))
  = <[ next_id (env st) := {| pj_rawValue := tj_rawValue job;
                              pj_valueParser := tj_valueParser job |} ]>
      (parsing (env st)).
Proof.
  intros Hjob. unfold exec, timer_expired, bind at 1, get at 1. simpl.
  rewrite Hjob. unfold bind, clearTimeout, modify, fresh, when, ret. simpl.
  repeat case_match; simplify_eq; done.
Qed.

(** X26. On a view that is being edited and whose parser store has a
    parser for its type, a notification which the [change] handler detects
    as a change, and whose raw value is neither [null] nor a data value,
    leaves exactly one timer pending, whatever was pending before: the new
    one, which waits for [options.parseDelay] (300 unless configured) and
    carries the raw value of this notification.  Nothing is sent to the
    parser before that timer expires, and then it is this raw value that is
    sent. *)
Theorem parse_timer_restarted (o : Options) (markup : string) (inputs : list Input)
    (r : nat) (e : Expert.t) (rawValue : JsValue) (characteristics : JsObject) :
  let st := run EmptyValue UnsupportedValue inputs
              (exec (_create EmptyValue UnsupportedValue)
                 (new_widget o markup)) in
  _expert (this st) = Some r →
  experts (env st) !! r = Some e →
  rawValue ≠ JsNull →
  instanceof_DataValue rawValue = false →
  change_detected st rawValue characteristics = true →
  parser_available st →
  let st' := exec (expert_edited rawValue characteristics) st in
  parseDelay default_options = 300
  ∧ ∃ job,
      timers (env st') = {[ next_id (env st) := job ]}
      ∧ tj_rawValue job = rawValue
      ∧ tj_delay job = parseDelay (options (this st))
      ∧ parsing (env st') = parsing (env st)
      ∧ (∀ id, id ≠ next_id (env st) → exec (timer_expired id) st' = st')
      ∧ parsing (env (exec (timer_expired (next_id (env st))) st'))
        = <[ S (next_id (env st)) :=
               {| pj_rawValue := rawValue;
                  pj_valueParser := tj_valueParser job |} ]>
            (parsing (env st)).
Proof.
  intros st Hr He Hnull Hdata Hdetected Hpa st'.
  split; [done|].
  assert (Hwf : wf st) by (eapply reachable_wf, reachable_run; constructor).
  destruct Hwf as (_ & _ & _ & Ht & _).
  set (e1 := Expert.edited rawValue characteristics e).
  set (s1 := on_expert r (Expert.edited rawValue characteristics) st).
  assert (He1 : the_expert s1 = Some e1).
  { unfold the_expert, s1. simpl. rewrite Hr. simpl.
    by rewrite lookup_alter_eq, He. }
  set (s2 := on_env (λ n, set_events (events n ++ [Ev_change]) n)
               (on_this (set___lastValueCharacteristics (Some characteristics))
                  s1)).
  assert (Hraw : strict_eq (Expert.rawValue e1) JsNull
                 || instanceof_DataValue (Expert.rawValue e1) = false).
  { simpl. rewrite Hdata. unfold strict_eq.
    by rewrite bool_decide_eq_false_2. }
  destruct (_parseValue_plain s2 r e1) as (s3 & job & Hrun & H1 & H2 & H3 & H4 & H5);
    try done.
  assert (Hst' : st' = s3).
  { subst st'. unfold exec, expert_edited, bind at 1, get at 1. simpl.
    rewrite Hr, (the_expert_lookup _ _ _ Hr He).
    unfold bind at 1, modify at 1. simpl. fold s1.
    unfold viewNotifier_change, bind at 1, get at 1. simpl.
    rewrite Hr, He1. unfold bind at 1, getTextValue, bind at 1, get at 1, ret.
    simpl. unfold change_detected in Hdetected. rewrite Hdetected.
    unfold when, bind at 1, modify at 1. simpl.
    unfold bind at 1, _trigger at 1, modify at 1. simpl. fold s2.
    unfold _updateValue, bind at 1. by rewrite Hrun. }
  rewrite Hst'. exists job. simpl in *.
  repeat (split; [done|]). split.
  - intros id Hid. unfold exec, timer_expired, bind at 1, get at 1. simpl.
    rewrite H1. by rewrite lookup_singleton_ne.
  - rewrite (timer_expired_dispatch s3 _ job)
      by (rewrite H1; apply lookup_singleton_eq).
    by rewrite H5, H4, H2.
Qed.

(** * Further properties of the widget *)

(** ** Creation *)

Lemma string_app_empty (s : string) : String.append s EmptyString = s.
Proof.
  induction s as [|a s IH]; [done|].
  change (String a (String.append s EmptyString) = String a s). by rewrite IH.
Qed.

Lemma innerHTML_html_nodes markup :
  innerHTML (html_nodes (Some markup)) = markup.
Proof.
  destruct markup as [|a s]; [done|]. unfold innerHTML, html_nodes, foldr.
  apply string_app_empty.
Qed.

Lemma bind_normal {A B} (m : JS A) (k : A → JS B) st a st' :
  m st = (Normal a, st') → bind m k st = k a st'.
Proof. intros H. unfold bind. by rewrite H. Qed.

Lemma bind_thrown {A B} (m : JS A) (k : A → JS B) st e st' :
  m st = (Thrown e, st') → bind m k st = (Thrown e, st').
Proof. intros H. unfold bind. by rewrite H. Qed.

Lemma _updateExpertConstructor_foreign st :
  expertStore (options (this st)) = ForeignObject →
  _updateExpertConstructor EmptyValue UnsupportedValue st
  = (Thrown NoExpertStore, st).
Proof.
  intros H. unfold _updateExpertConstructor, bind, get. simpl. by rewrite H.
Qed.

Lemma _setValue_foreign st v :
  expertStore (options (this st)) = ForeignObject →
  _value (this st) = None →
  _setValue EmptyValue UnsupportedValue (of_data v) st
  = (Thrown NoExpertStore, on_this (set__value v) st).
Proof.
  intros Hstore Hv. unfold _setValue.
  destruct v as [d|]; simpl; unfold bind at 1, get at 1; simpl; rewrite Hv;
    unfold bind at 1, modify at 1; simpl;
    by apply bind_thrown, _updateExpertConstructor_foreign.
Qed.

(** X1. [_create] refuses options in which a store is missing or the
    language is not a string: it throws before it has touched the widget.
    It only tests that the stores are there, though: with an expert store of
    another class the check passes, the value of the options is stored, and
    the error comes from [_updateExpertConstructor]. *)
Theorem _create_checks_options (o : Options) (markup : string) :
  (is_store (expertStore o) && is_store (parserStore o)
   && is_store (formatterStore o) && is_string (language o) = false →
   _create EmptyValue UnsupportedValue (new_widget o markup)
   = (Thrown RequiredOptionsMissing, new_widget o markup))
  ∧ (expertStore o = ForeignObject →
     is_store (parserStore o) && is_store (formatterStore o)
     && is_string (language o) = true →
     let st := exec (_create EmptyValue UnsupportedValue) (new_widget o markup) in
     result (_create EmptyValue UnsupportedValue) (new_widget o markup)
     = Thrown NoExpertStore
     ∧ _value (this st) = opt_value o
     ∧ _expertConstructor (this st) = None).
Proof.
  split.
  - intros Hbad. unfold _create, bind, get. simpl.
    destruct (is_store (expertStore o)), (is_store (parserStore o)),
      (is_store (formatterStore o)), (is_string (language o)); done.
  - intros Hstore Hrest st. subst st.
    apply andb_prop in Hrest as [Hrest Hlang].
    apply andb_prop in Hrest as [Hparser Hformatter].
    assert (Hinit : ∃ st1,
      _initValue EmptyValue UnsupportedValue (opt_value o) (new_widget o markup)
      = (Thrown NoExpertStore, st1)
      ∧ _value (this st1) = opt_value o
      ∧ _expertConstructor (this st1) = None).
    { unfold _initValue, bind at 1, get at 1.
      destruct markup as [|a s]; simpl.
      - eexists. split.
        + apply bind_thrown.
          assert (Hval : ∀ v st, value EmptyValue UnsupportedValue (of_data v) st
            = bind (_setValue EmptyValue UnsupportedValue (of_data v))
                (λ _, ret JsUndefined) st) by (by intros [d|]).
          rewrite Hval. apply bind_thrown. by apply _setValue_foreign.
        + done.
      - eexists. split.
        + unfold bind at 1, modify at 1. simpl.
          unfold bind at 1, modify at 1. simpl.
          apply bind_thrown. by apply _updateExpertConstructor_foreign.
        + done. }
    destruct Hinit as (st1 & Hrun & Hv & Hc).
    assert (Hcreate : _create EmptyValue UnsupportedValue (new_widget o markup)
                      = (Thrown NoExpertStore, st1)).
    { unfold _create, bind at 1, get at 1.
      change (options (this (new_widget o markup))) with o. cbv zeta.
      rewrite Hstore, Hparser, Hformatter, Hlang. cbn [is_store negb orb].
      by apply bind_thrown. }
    unfold result, exec. by rewrite Hcreate.
Qed.

(** ** What single methods do to the state *)

Lemma _updateExpertConstructor_run st getExpert :
  expertStore (options (this st)) = StoreInstance getExpert →
  _updateExpertConstructor EmptyValue UnsupportedValue st
  = (Normal (),
     on_this (set__expertConstructor
                (Some (selected_expert EmptyValue UnsupportedValue getExpert st)))
       st).
Proof.
  intros H. unfold _updateExpertConstructor, bind, get. simpl. rewrite H.
  unfold selected_expert, data_value_type, modify, when, ret. simpl.
  by destruct (truthy_string _ || truthy_string _).
Qed.

Lemma trigger_all_run l st :
  trigger_all l st
  = (Normal (), on_env (λ n, set_events (events n ++ l) n) st).
Proof.
  unfold trigger_all. revert st.
  induction l as [|e l IH]; intros [w d n]; simpl.
  - destruct n. unfold ret, on_env, set_events. simpl. by rewrite app_nil_r.
  - unfold bind, _trigger, modify. simpl. rewrite IH.
    unfold on_env, set_events. simpl. by rewrite <- app_assoc.
Qed.

(** [draw] in the static mode: the class of the static mode is set, the
    element shows the formatted value, and the handlers run at once. *)
Lemma draw_static_run done st :
  _isInEditMode (this st) = false →
  draw done st
  = (Normal (),
     on_env (λ n, set_events (events n ++ Ev_afterdraw :: done) n)
       (on_dom (λ d, set_children (html_nodes (_formattedValue (this st)))
                       (set_ineditmode false (set_instaticmode true d)))
          st)).
Proof.
  intros Hmode. unfold draw, drawContent, drawStaticContent, getFormattedValue,
    isInEditMode, bind, get, ret, modify. simpl. rewrite Hmode. simpl.
  by rewrite trigger_all_run.
Qed.

#[local] Hint Resolve wf__create : pres.

Lemma mode__initValue v :
  keeps edit_mode (_initValue EmptyValue UnsupportedValue v).
Proof.
  unfold _initValue, value, _setValue. keeps_auto.
Qed.

Lemma _initValue_value v st :
  _value (this st) = None →
  accepted_value (exec (_initValue EmptyValue UnsupportedValue v) st) = v.
Proof.
  intros Hv. unfold _initValue. rewrite exec_get_bind. cbv zeta.
  destruct (negb _).
  - rewrite exec_bind_keeps by (intros _; keeps_auto).
    rewrite value_setter_value.
    rewrite exec_bind_keeps by (intros _; keeps_auto).
    destruct (_setValue_value v st) as [H|(d & d' & H & _)]; [done|].
    unfold accepted_value in H. congruence.
  - rewrite exec_modify_bind. rewrite exec_bind_keeps; [done|].
    intros _. keeps_auto.
Qed.

(** X2. A view that is created returns from [_create] in edit mode exactly
    when the option [autoStartEditing] is set and the options hold no value;
    the value of the options is the accepted value. *)
Theorem _create_mode (o : Options) (markup : string) :
  result (_create EmptyValue UnsupportedValue) (new_widget o markup) = Normal () →
  let st := exec (_create EmptyValue UnsupportedValue) (new_widget o markup) in
  _isInEditMode (this st)
  = autoStartEditing o && bool_decide (opt_value o = None)
  ∧ _value (this st) = opt_value o.
Proof.
  intros Hres st. subst st. revert Hres.
  set (st0 := new_widget o markup).
  assert (Hcreate : _create EmptyValue UnsupportedValue st0
    = if negb (is_store (expertStore o)) || negb (is_store (parserStore o))
         || negb (is_store (formatterStore o)) || negb (is_string (language o))
      then (Thrown RequiredOptionsMissing, st0)
      else bind (_initValue EmptyValue UnsupportedValue (opt_value o))
             (λ _, bind (isEmpty EmptyValue UnsupportedValue)
                     (λ empty, when (autoStartEditing o && empty)
                                 (startEditing EmptyValue UnsupportedValue)))
             st0).
  { unfold _create, bind at 1, get at 1.
    change (options (this st0)) with o. cbv zeta.
    by destruct (negb _ || _ || _ || _). }
  unfold result, exec. rewrite Hcreate. clear Hcreate.
  destruct (negb _ || _ || _ || _); [done|].
  pose proof (mode__initValue (opt_value o) st0) as Hmode.
  pose proof (_initValue_value (opt_value o) st0 eq_refl) as Hvalue.
  unfold exec, edit_mode, accepted_value in Hmode, Hvalue.
  destruct (_initValue _ _ _ st0) as [[[]|err] s1] eqn:Hinit;
    [|by rewrite (bind_thrown _ _ _ _ _ Hinit)].
  rewrite !(bind_normal _ _ _ _ _ Hinit).
  simpl in Hmode, Hvalue.
  assert (Hempty : isEmpty EmptyValue UnsupportedValue s1
                   = (Normal (bool_decide (opt_value o = None)), s1)).
  { unfold isEmpty, value, bind, get, ret. simpl. rewrite Hvalue.
    by destruct (opt_value o). }
  rewrite !(bind_normal _ _ _ _ _ Hempty).
  destruct (autoStartEditing o && bool_decide (opt_value o = None));
    unfold when.
  - intros _. pose proof (startEditing_static s1 Hmode) as Hcore.
    unfold exec in Hcore. split.
    + by rewrite (core_mode _ _ Hcore).
    + by rewrite (core_value _ _ Hcore).
  - done.
Qed.

(** X3. Created on an element that already holds markup, the view takes
    this markup for the formatted value of the value in its options: the
    formatter is not asked, and the element shows the markup in the static
    mode as soon as [_create] returns. *)
Theorem _create_adopts_markup (o : Options)
    (getExpert : option string → option string → option ExpertDefinition)
    (markup : string) :
  expertStore o = StoreInstance getExpert →
  is_store (parserStore o) && is_store (formatterStore o)
  && is_string (language o) = true →
  autoStartEditing o && bool_decide (opt_value o = None) = false →
  markup ≠ EmptyString →
  let st := exec (_create EmptyValue UnsupportedValue) (new_widget o markup) in
  result (_create EmptyValue UnsupportedValue) (new_widget o markup) = Normal ()
  ∧ _value (this st) = opt_value o
  ∧ _formattedValue (this st) = Some markup
  ∧ children (dom st) = [Markup markup]
  ∧ instaticmode (dom st) = true
  ∧ _isInEditMode (this st) = false
  ∧ formatting (env st) = ∅
  ∧ events (env st) = [Ev_afterdraw].
Proof.
  intros Hstore Hrest Hauto Hmarkup st. subst st.
  apply andb_prop in Hrest as [Hrest Hlang].
  apply andb_prop in Hrest as [Hparser Hformatter].
  set (st0 := new_widget o markup).
  set (s1 := on_this (set__formattedValue (Some markup))
               (on_this (set__value (opt_value o)) st0)).
  set (s2 := on_this (set__expertConstructor
                        (Some (selected_expert EmptyValue UnsupportedValue
                                 getExpert s1))) s1).
  assert (Hinit : _initValue EmptyValue UnsupportedValue (opt_value o) st0
                  = draw [] s2).
  { unfold _initValue, bind at 1, get at 1. cbv zeta.
    change (children (dom st0)) with (html_nodes (Some markup)).
    rewrite innerHTML_html_nodes.
    destruct markup as [|a s]; [done|]. cbn [truthy_string negb].
    unfold bind at 1, modify at 1. unfold bind at 1, modify at 1.
    by rewrite (bind_normal _ _ _ _ _
                  (_updateExpertConstructor_run s1 getExpert Hstore)). }
  rewrite draw_static_run in Hinit by done.
  assert (Hcreate : _create EmptyValue UnsupportedValue st0
    = (Normal (),
       on_env (λ n, set_events (events n ++ [Ev_afterdraw]) n)
         (on_dom (λ d, set_children (html_nodes (_formattedValue (this s2)))
                         (set_ineditmode false (set_instaticmode true d)))
            s2))).
  { unfold _create, bind at 1, get at 1.
    change (options (this st0)) with o. cbv zeta.
    rewrite Hstore, Hparser, Hformatter, Hlang. cbn [is_store negb orb].
    rewrite (bind_normal _ _ _ _ _ Hinit).
    unfold isEmpty, value, bind, get, ret. simpl.
    assert (strict_eq (of_data (opt_value o)) JsNull
            = bool_decide (opt_value o = None)) as ->
      by (by destruct (opt_value o)).
    by rewrite Hauto. }
  unfold result, exec. rewrite Hcreate. simpl.
  repeat split; try done. by destruct markup.
Qed.

(** ** The value and the expert chosen for it *)

Lemma selection__trigger e : keeps selection (_trigger e).
Proof. by apply keeps__trigger. Qed.

#[local] Hint Resolve selection__trigger : keeps.

Lemma selection_trigger_all l : keeps selection (trigger_all l).
Proof.
  unfold trigger_all. induction l as [|e l IH]; simpl; [apply keeps_ret|].
  apply keeps_bind; [by apply keeps__trigger | done].
Qed.

#[local] Hint Resolve selection_trigger_all : keeps.

Lemma selection_fresh : keeps selection (fresh).
Proof. by intros st. Qed.

#[local] Hint Resolve selection_fresh : keeps.

Lemma selection_isInEditMode : keeps selection (isInEditMode).
Proof. by intros st. Qed.

#[local] Hint Resolve selection_isInEditMode : keeps.

Lemma selection_getFormattedValue : keeps selection (getFormattedValue).
Proof. by intros st. Qed.

#[local] Hint Resolve selection_getFormattedValue : keeps.

Lemma selection__determineDataValueType : keeps selection (_determineDataValueType).
Proof. by intros st. Qed.

#[local] Hint Resolve selection__determineDataValueType : keeps.

Lemma selection__destroyExpert : keeps selection (_destroyExpert).
Proof. unfold _destroyExpert. keeps_auto. Qed.

#[local] Hint Resolve selection__destroyExpert : keeps.

Lemma selection__updateExpert : keeps selection (_updateExpert).
Proof. unfold _updateExpert. keeps_auto. Qed.

#[local] Hint Resolve selection__updateExpert : keeps.

Lemma selection_valueCharacteristics : keeps selection (valueCharacteristics).
Proof. unfold valueCharacteristics. keeps_auto. Qed.

#[local] Hint Resolve selection_valueCharacteristics : keeps.

Lemma selection_instantiate lookup o : keeps selection (instantiate lookup o).
Proof. unfold instantiate. keeps_auto. Qed.

#[local] Hint Resolve selection_instantiate : keeps.

Lemma selection__instantiateParser o : keeps selection (_instantiateParser o).
Proof. unfold _instantiateParser. keeps_auto. Qed.

#[local] Hint Resolve selection__instantiateParser : keeps.

Lemma selection__instantiateFormatter o : keeps selection (_instantiateFormatter o).
Proof. unfold _instantiateFormatter. keeps_auto. Qed.

#[local] Hint Resolve selection__instantiateFormatter : keeps.

Lemma selection_drawStaticContent : keeps selection (drawStaticContent).
Proof. unfold drawStaticContent. keeps_auto. Qed.

#[local] Hint Resolve selection_drawStaticContent : keeps.

Lemma selection_drawContent_then done : keeps selection (drawContent_then done).
Proof. unfold drawContent_then. keeps_auto. Qed.

#[local] Hint Resolve selection_drawContent_then : keeps.

Lemma selection__updateTextValue c : keeps selection (_updateTextValue c).
Proof. unfold _updateTextValue. keeps_auto. Qed.

#[local] Hint Resolve selection__updateTextValue : keeps.

Lemma selection_drawContent done : keeps selection (drawContent done).
Proof. unfold drawContent. keeps_auto. Qed.

#[local] Hint Resolve selection_drawContent : keeps.

Lemma selection_draw done : keeps selection (draw done).
Proof. unfold draw. keeps_auto. Qed.

#[local] Hint Resolve selection_draw : keeps.

Lemma selection__renderError m : keeps selection (_renderError m).
Proof. unfold _renderError. keeps_auto. Qed.

#[local] Hint Resolve selection__renderError : keeps.

Lemma selection__formatValue v c : keeps selection (_formatValue v c).
Proof. unfold _formatValue. keeps_auto. Qed.

#[local] Hint Resolve selection__formatValue : keeps.

(** X4. A value that is set, and does not serialize like the current one,
    becomes the accepted value and decides on the expert: the store is asked
    for the data value type of the options or, if there is none, for the type
    of the new value, together with the data type id; [UnsupportedValue]
    stands in when the store has no expert, and [EmptyValue] is taken when
    there is neither a type nor a data type id to ask for. *)
Theorem value_selects_expert (st : State) (u : option DataValue)
    (getExpert : option string → option string → option ExpertDefinition) :
  expertStore (options (this st)) = StoreInstance getExpert →
  (∀ old new, _value (this st) = Some old → u = Some new →
              dv_json new ≠ dv_json old) →
  let st' := exec (value EmptyValue UnsupportedValue (of_data u)) st in
  let type :=
    match u with
    | Some v =>
        if truthy_string (dataValueType (options (this st)))
        then dataValueType (options (this st)) else Some (dv_type v)
    | None => dataValueType (options (this st))
    end in
  _value (this st') = u
  ∧ _expertConstructor (this st')
    = Some (if truthy_string type
               || truthy_string (dataTypeId (options (this st)))
            then default UnsupportedValue
                   (getExpert type (dataTypeId (options (this st))))
            else EmptyValue).
Proof.
  intros Hstore Hnew st' type.
  assert (Hsel : selection st'
    = (u, Some (selected_expert EmptyValue UnsupportedValue getExpert
                  (on_this (set__value u) st)))).
  { subst st'. rewrite value_setter_value.
    rewrite exec_bind_keeps by (intros _; keeps_auto).
    unfold _setValue.
    assert (Hrun : ∀ k : JS unit,
      selection (exec (bind (modify (on_this (set__value u)))
                         (λ _, bind (_updateExpertConstructor EmptyValue
                                       UnsupportedValue) (λ _, k))) st)
      = selection (exec k
          (on_this (set__expertConstructor
             (Some (selected_expert EmptyValue UnsupportedValue getExpert
                      (on_this (set__value u) st))))
             (on_this (set__value u) st)))).
    { intros k. rewrite exec_modify_bind, exec_bind.
      by rewrite (_updateExpertConstructor_run _ getExpert). }
    destruct u as [v|]; simpl of_data; cbv iota; rewrite exec_get_bind;
      cbv zeta.
    - assert (Hunchanged :
        match _value (this st) with
        | Some old => same_json v old
        | None => false
        end = false).
      { destruct (_value (this st)) as [old|] eqn:Hold; [|done].
        unfold same_json. apply bool_decide_eq_false_2. by eapply Hnew. }
      rewrite Hunchanged, Hrun. apply keeps_apply; [keeps_auto|done].
    - assert (Hunchanged :
        match _value (this st) with
        | Some old => false
        | None => false
        end = false) by by destruct (_value (this st)).
      rewrite Hunchanged, Hrun. apply keeps_apply; [keeps_auto|done]. }
  unfold selection in Hsel. injection Hsel as Hv Hc.
  split; [done|]. rewrite Hc. f_equal.
  unfold selected_expert, data_value_type, type. simpl.
  destruct u as [v|]; [|done].
  by destruct (truthy_string (dataValueType (options (this st)))).
Qed.

(** X5. Setting [null] on a view in static mode returns at once with the
    view emptied: there is no value and no formatted value, the element has
    no content and carries the class of the static mode, [afterdraw] has been
    triggered, and no request went to the formatter. *)
Theorem value_null_empties_view (st : State)
    (getExpert : option string → option string → option ExpertDefinition) :
  expertStore (options (this st)) = StoreInstance getExpert →
  _isInEditMode (this st) = false →
  let st' := exec (value EmptyValue UnsupportedValue JsNull) st in
  result (value EmptyValue UnsupportedValue JsNull) st = Normal JsUndefined
  ∧ _value (this st') = None
  ∧ _formattedValue (this st') = None
  ∧ children (dom st') = []
  ∧ instaticmode (dom st') = true
  ∧ ineditmode (dom st') = false
  ∧ formatting (env st') = formatting (env st)
  ∧ events (env st') = (events (env st) ++ [Ev_afterdraw])%list.
Proof.
  intros Hstore Hmode st'.
  assert (Hrun : value EmptyValue UnsupportedValue JsNull st
    = (Normal JsUndefined,
       on_env (λ n, set_events (events n ++ [Ev_afterdraw]) n)
         (on_dom (λ d, set_children []
                         (set_ineditmode false (set_instaticmode true d)))
            (on_this (set__formattedValue None)
               (on_this (set__expertConstructor
                  (Some (selected_expert EmptyValue UnsupportedValue getExpert
                           (on_this (set__value None) st))))
                  (on_this (set__value None) st)))))).
  { unfold value. simpl. erewrite bind_normal; [reflexivity|].
    unfold _setValue.
    rewrite (bind_normal _ _ _ _ _ (eq_refl : get st = (Normal st, st))).
    cbv zeta.
    assert (Hu : (match _value (this st) with
                  | Some _ | _ => false end) = false)
      by (by destruct (_value (this st))).
    rewrite Hu.
    erewrite bind_normal; [|reflexivity].
    erewrite bind_normal;
      [|by apply (_updateExpertConstructor_run _ getExpert)].
    erewrite bind_normal; [|reflexivity].
    by rewrite draw_static_run. }
  subst st'. unfold result, exec. by rewrite Hrun.
Qed.

(** X6. Asking twice is asking once: [startEditing] after [startEditing],
    and [stopEditing( false )] after [stopEditing( false )], return at once
    and leave the state as the first call left it, whether that one returned
    or threw. *)
Theorem editing_calls_idempotent (st : State) :
  startEditing EmptyValue UnsupportedValue
    (exec (startEditing EmptyValue UnsupportedValue) st)
  = (Normal (), exec (startEditing EmptyValue UnsupportedValue) st)
  ∧ stopEditing EmptyValue UnsupportedValue false
      (exec (stopEditing EmptyValue UnsupportedValue false) st)
    = (Normal (), exec (stopEditing EmptyValue UnsupportedValue false) st).
Proof.
  split.
  - assert (Hmode : _isInEditMode
             (this (exec (startEditing EmptyValue UnsupportedValue) st))
           = true).
    { destruct (_isInEditMode (this st)) eqn:Hm.
      - unfold startEditing. rewrite exec_isInEditMode_bind, Hm.
        by rewrite exec_ret.
      - by rewrite (core_mode _ _ (startEditing_static st Hm)). }
    unfold startEditing at 1, bind, isInEditMode, get, ret. simpl.
    by rewrite Hmode.
  - pose proof (stopEditing_false_mode st) as Hmode. unfold edit_mode in Hmode.
    unfold stopEditing at 1, bind, isInEditMode, get, ret. simpl.
    by rewrite Hmode.
Qed.

(** ** Timers *)

(** X7. Whatever has happened to a view since it was created, at most one
    timer of the parse step is pending, and if one is, it is the one whose id
    [_parseTimer] holds. *)
Theorem one_timer_pending (o : Options) (markup : string)
    (inputs : list Input) :
  let st := run EmptyValue UnsupportedValue inputs
              (exec (_create EmptyValue UnsupportedValue)
                 (new_widget o markup)) in
  timers (env st) = ∅
  ∨ ∃ id job, timers (env st) = {[ id := job ]}
              ∧ _parseTimer (this st) = Some id
              ∧ truthy_id (Some id) = true.
Proof.
  intros st.
  assert (Hwf : wf st) by (eapply reachable_wf, reachable_run; constructor).
  destruct Hwf as (_ & _ & _ & [Ht|(n & job & Hp & Ht)] & _); [by left|].
  right. exists (S n), job. repeat split; try done.
Qed.

(** ** Notifications and answers *)

Lemma existsb_keys (f : string → bool) (m : JsObject) :
  existsb f (map_to_list m).*1 = true ↔ ∃ i, is_Some (m !! i) ∧ f i = true.
Proof.
  rewrite existsb_exists. split.
  - intros (i & Hin & Hf). exists i. split; [|done].
    apply list_elem_of_In, list_elem_of_fmap in Hin
      as ([i' x] & -> & Hin). apply elem_of_map_to_list in Hin. by eexists.
  - intros (i & [x Hx] & Hf). exists i. split; [|done].
    apply list_elem_of_In, list_elem_of_fmap. exists (i, x).
    split; [done|by apply elem_of_map_to_list].
Qed.

(** X8. What the two loops of the [change] handler compute: the value
    characteristics count as different exactly when some property of the
    one is not strictly equal to the property of that name of the other,
    a missing property being [undefined]. *)
Theorem differentValueCharacteristics_spec (new last : JsObject) :
  differentValueCharacteristics new last = true
  ↔ ∃ i, prop new i ≠ prop last i.
Proof.
  unfold differentValueCharacteristics. rewrite orb_true_iff.
  rewrite !existsb_keys. split.
  - intros [(i & _ & Hd)|(i & _ & Hd)]; exists i;
      apply negb_true_iff, bool_decide_eq_false in Hd; done.
  - intros (i & Hd).
    assert (Hf : negb (strict_eq (prop new i) (prop last i)) = true)
      by (by apply negb_true_iff, bool_decide_eq_false).
    destruct (new !! i) as [x|] eqn:Hn; [left; exists i; by split|].
    destruct (last !! i) as [y|] eqn:Hl; [right; exists i; by split|].
    unfold prop in Hd. by rewrite Hn, Hl in Hd.
Qed.

(** X9. A parser that answers a pending request with something that is
    neither [null] nor a data value makes the handler throw: the request is
    forgotten, but the value, the bookkeeping of the parse step and what is
    shown stay as they are, and [afterparse] is not triggered. *)
Theorem parser_result_checked (st : State) (id : nat) (job : ParseJob)
    (parsedValue : JsValue) :
  parsing (env st) !! id = Some job →
  parsedValue ≠ JsNull →
  instanceof_DataValue parsedValue = false →
  parser_done id parsedValue st
  = (Thrown UnexpectedParserResult,
     on_env (λ n, set_parsing (delete id (parsing n)) n) st).
Proof.
  intros Hjob Hnull Hdata. unfold parser_done, bind, get, modify. simpl.
  rewrite Hjob. simpl. unfold strict_eq.
  rewrite bool_decide_eq_false_2 by done. by rewrite Hdata.
Qed.

Lemma prop_extend (target source : JsObject) (i : string) :
  prop (extend target source) i
  = if bool_decide (prop source i = JsUndefined) then prop target i
    else prop source i.
Proof.
  unfold prop, extend. rewrite lookup_union, map_lookup_filter.
  destruct (source !! i) as [x|] eqn:Hs; simpl.
  - case_bool_decide as Hx.
    + subst x. rewrite option_guard_False by (simpl; tauto).
      simpl. by destruct (target !! i).
    + rewrite option_guard_True by done. simpl. by destruct (target !! i).
  - rewrite ?bool_decide_eq_true_2 by done. by destruct (target !! i).
Qed.

(** What [_instantiateParser] and [_instantiateFormatter] return when the
    store has a service for the view's type. *)
Lemma service_options_run (st : State)
    (lookup : option string → option string → option ServiceDefinition)
    (d : ServiceDefinition) (additional : JsObject) :
  lookup (data_value_type st) (dataTypeId (options (this st))) = Some d →
  ∃ service,
    (parserStore (options (this st)) = StoreInstance lookup →
     _instantiateParser additional st = (Normal service, st))
    ∧ (formatterStore (options (this st)) = StoreInstance lookup →
       _instantiateFormatter additional st = (Normal service, st))
    ∧ service
      = {| sv_name := sd_name d;
           sv_options :=
             extend (extend {[ "lang" := language (options (this st)) ]}
                       (sd_options d)) additional |}.
Proof.
  intros Hd.
  assert (Hrun : instantiate lookup additional st
    = (Normal {| sv_name := sd_name d;
                 sv_options :=
                   extend (extend {[ "lang" := language (options (this st)) ]}
                             (sd_options d)) additional |}, st)).
  { unfold instantiate, bind, get, _determineDataValueType, ret. simpl.
    unfold data_value_type in Hd.
    destruct (_value (this st)) as [v|]; simpl in *;
      [destruct (truthy_string _); simpl in *|]; by rewrite Hd. }
  eexists. split; [|split]; [| |reflexivity].
  - intros Hstore. unfold _instantiateParser, bind, get. simpl.
    rewrite Hstore. exact Hrun.
  - intros Hstore. unfold _instantiateFormatter, bind, get. simpl.
    rewrite Hstore. exact Hrun.
Qed.

(** X10. The options a parser or formatter is instantiated with: those the
    caller adds win over those of the service's prototype, which win over
    [lang], the language of the view; a property holding [undefined] is
    passed over.  The service is the one the store has for the view's data
    value type and data type id, and instantiating it changes nothing. *)
Theorem service_options_precedence (st : State)
    (lookup : option string → option string → option ServiceDefinition)
    (d : ServiceDefinition) (additional : JsObject) :
  lookup (data_value_type st) (dataTypeId (options (this st))) = Some d →
  ∃ service,
    (parserStore (options (this st)) = StoreInstance lookup →
     _instantiateParser additional st = (Normal service, st))
    ∧ (formatterStore (options (this st)) = StoreInstance lookup →
       _instantiateFormatter additional st = (Normal service, st))
    ∧ sv_name service = sd_name d
    ∧ ∀ i, prop (sv_options service) i
           = if bool_decide (prop additional i ≠ JsUndefined)
             then prop additional i
             else if bool_decide (prop (sd_options d) i ≠ JsUndefined)
             then prop (sd_options d) i
             else if bool_decide (i = "lang")
             then language (options (this st))
             else JsUndefined.
Proof.
  intros Hd.
  destruct (service_options_run st lookup d additional Hd)
    as (service & Hparser & Hformatter & ->).
  eexists. split; [exact Hparser|]. split; [exact Hformatter|].
  split; [done|].
  intros i. simpl. rewrite !prop_extend.
  repeat case_bool_decide; try done; try tauto.
  - subst i. unfold prop. by rewrite lookup_singleton_eq.
  - unfold prop. by rewrite lookup_singleton_ne.
Qed.

(** ** Experts are released *)

Create HintDb tidy discriminated.

#[local] Hint Resolve pres_ret pres_throw pres_get pres_when : tidy.

(** A statement that assigns to members the invariant does not mention. *)
Ltac tidy_leaf :=
  let st := fresh "st" in
  intros st; unfold tidy, experts_tidy, idle_ok; simpl;
  intros [? ?]; split; assumption.

Ltac tidy_step :=
  lazymatch goal with
  | |- pres _ (bind _ _) => apply pres_bind; [|intros ?]
  | |- pres _ (ret _) => apply pres_ret
  | |- pres _ (throw _) => apply pres_throw
  | |- pres _ get => apply pres_get
  | |- pres _ (when _ _) => apply pres_when
  | |- pres _ (modify _) => apply pres_modify; tidy_leaf
  | |- pres _ (match _ with _ => _ end) => case_match
  | |- pres _ (let _ := _ in _) => cbv zeta
  | |- _ => solve [eauto with tidy]
  end.

Ltac tidy_auto := repeat tidy_step.

Lemma tidy_trigger_all l : pres tidy (trigger_all l).
Proof.
  unfold trigger_all. induction l as [|e l IH]; simpl; [apply pres_ret|].
  apply pres_bind; [apply pres_modify; tidy_leaf | done].
Qed.

Lemma tidy_fresh : pres tidy fresh.
Proof. unfold pres, exec, fresh. simpl. tidy_leaf. Qed.

Lemma tidy_on_expert r f :
  (∀ e, Expert.viewPort (f e) = Expert.viewPort e) →
  (∀ e, Expert.destroyed e → Expert.destroyed (f e)) →
  ∀ st, tidy st → tidy (on_expert r f st).
Proof.
  intros Hport Hgone st [H1 H2]. split; [|done].
  intros r' e'. simpl. rewrite lookup_alter.
  case_decide as Hr; [subst r'|by apply H1].
  destruct (experts (env st) !! r) as [e|] eqn:He; simpl; [|done].
  intros [= <-]. specialize (H1 r e He).
  case_bool_decide; [by rewrite Hport|by apply Hgone].
Qed.

#[local] Hint Resolve tidy_trigger_all tidy_fresh : tidy.

(** [_destroyExpert] either throws at once, or returns having destroyed the
    expert and forgotten it. *)
Lemma _destroyExpert_cases st :
  experts_tidy st →
  (∃ err, _destroyExpert st = (Thrown err, st))
  ∨ ∃ r e' w,
      _expert (this st) = Some r
      ∧ _destroyExpert st
        = (Normal (),
           on_this (set__expert None) (put_expert r e' (put_world w st)))
      ∧ Expert.destroyed e'.
Proof.
  intros H1. unfold _destroyExpert, bind, get. simpl.
  destruct (_expert (this st)) as [r|] eqn:Hr; [|left; by eexists].
  unfold the_expert. rewrite Hr. simpl.
  destruct (experts (env st) !! r) as [e|] eqn:He; [|left; by eexists].
  specialize (H1 r e He). rewrite Hr, bool_decide_eq_true_2 in H1 by done.
  destruct H1 as [p Hp]. unfold Expert.destroy. rewrite Hp.
  destruct (Expert._extendable e) as [x|]; [|left; by eexists].
  right. eexists r, _, _. split; [done|]. split; [reflexivity|].
  by repeat split.
Qed.

Lemma tidy_released st r e' w :
  tidy st → _expert (this st) = Some r → Expert.destroyed e' →
  tidy (on_this (set__expert None) (put_expert r e' (put_world w st))).
Proof.
  intros [H1 H2] Hr He'. split.
  - intros r' e0. simpl. rewrite lookup_insert.
    case_decide; [by intros [= <-]|]. intros He0.
    specialize (H1 r' e0 He0). case_bool_decide as Hc; [|done].
    congruence.
  - intros Hmode. split; [done|]. by apply H2.
Qed.

Lemma tidy__destroyExpert : pres tidy _destroyExpert.
Proof.
  intros st Ht. unfold exec.
  destruct (_destroyExpert_cases st (proj1 Ht))
    as [[err ->]|(r & e' & w & Hr & -> & He')]; [done|].
  by apply tidy_released.
Qed.

#[local] Hint Resolve tidy__destroyExpert : tidy.

(** [_updateExpert] in edit mode. *)
Lemma _updateExpert_tidy st :
  tidy st → _isInEditMode (this st) = true → tidy (exec _updateExpert st).
Proof.
  intros Ht Hmode. unfold _updateExpert. rewrite exec_get_bind. cbv zeta.
  match goal with |- context [if ?c then _ else _] => destruct c end;
    [done|].
  rewrite exec_bind.
  assert (Hfirst : ∃ c s1,
    when (bool_decide (is_Some (_expert (this st)))) _destroyExpert st
    = (c, s1) ∧ tidy s1 ∧ _isInEditMode (this s1) = true
    ∧ (c = Normal () → _expert (this s1) = None)).
  { destruct (_expert (this st)) as [r|] eqn:Hr.
    - rewrite bool_decide_eq_true_2 by by eexists. unfold when.
      destruct (_destroyExpert_cases st (proj1 Ht))
        as [[err ->]|(r' & e' & w & Hr' & -> & He')].
      + by eexists _, _.
      + eexists _, _. split; [done|]. split; [by apply tidy_released|done].
    - rewrite bool_decide_eq_false_2 by (by intros [? ?]).
      by exists (Normal ()), st. }
  destruct Hfirst as (c & s1 & -> & Ht1 & Hm1 & Hnone).
  destruct c as [[]|err]; [|done]. specialize (Hnone eq_refl).
  destruct (_expertConstructor (this st)) as [d|]; [|done].
  rewrite exec_bind. unfold fresh at 1. rewrite exec_modify_bind, exec_get_bind.
  match goal with |- tidy (exec _ ?s) =>
    assert (Ht2 : tidy s); [|revert Ht2; generalize s; intros s2 Ht2] end.
  { destruct Ht1 as [H1 H2]. split; [|unfold idle_ok; simpl; intros; congruence].
    intros r' e0. simpl. rewrite lookup_insert.
    case_decide as Hr.
    - subst r'. intros [= <-]. rewrite bool_decide_eq_true_2 by done.
      by eexists.
    - intros He0. rewrite bool_decide_eq_false_2 by congruence.
      specialize (H1 r' e0 He0).
      by rewrite Hnone, bool_decide_eq_false_2 in H1. }
  case_match; [|done]. rewrite exec_modify. revert Ht2. generalize s2.
  tidy_leaf.
Qed.

Lemma tidy_drawContent_then done : pres tidy (drawContent_then done).
Proof.
  intros st Ht. unfold drawContent_then. rewrite exec_isInEditMode_bind.
  destruct (_isInEditMode (this st)) eqn:Hmode; [|done]. simpl negb. cbv iota.
  rewrite exec_bind. pose proof (_updateExpert_tidy st Ht Hmode) as Ht1.
  unfold exec in Ht1. destruct (_updateExpert st) as [[[]|err] s1]; [|done].
  simpl in Ht1. revert Ht1. generalize s1. clear.
  change (pres tidy (bind get (λ st,
    match the_expert st with
    | Some e =>
        match Expert.draw e (world st) with
        | Normal (drawn, w) =>
            bind (modify (put_world w)) (λ _,
              match drawn with
              | Some true => trigger_all done
              | Some false => ret ()
              | None => throw TypeError
              end)
        | Thrown err => throw err
        end
    | None => throw TypeError
    end))).
  tidy_auto.
Qed.

#[local] Hint Resolve tidy_drawContent_then : tidy.

Lemma tidy__updateExpertConstructor :
  pres tidy (_updateExpertConstructor EmptyValue UnsupportedValue).
Proof. unfold _updateExpertConstructor, _determineDataValueType. tidy_auto. Qed.

#[local] Hint Resolve tidy__updateExpertConstructor : tidy.

Lemma tidy_valueCharacteristics : pres tidy valueCharacteristics.
Proof. unfold valueCharacteristics. tidy_auto. Qed.

#[local] Hint Resolve tidy_valueCharacteristics : tidy.

Lemma tidy_instantiate lookup o : pres tidy (instantiate lookup o).
Proof. unfold instantiate, _determineDataValueType. tidy_auto. Qed.

#[local] Hint Resolve tidy_instantiate : tidy.

Lemma tidy__instantiateParser o : pres tidy (_instantiateParser o).
Proof. unfold _instantiateParser. tidy_auto. Qed.

#[local] Hint Resolve tidy__instantiateParser : tidy.

Lemma tidy__instantiateFormatter o : pres tidy (_instantiateFormatter o).
Proof. unfold _instantiateFormatter. tidy_auto. Qed.

#[local] Hint Resolve tidy__instantiateFormatter : tidy.

Lemma tidy__updateTextValue c : pres tidy (_updateTextValue c).
Proof. unfold _updateTextValue. tidy_auto. Qed.

#[local] Hint Resolve tidy__updateTextValue : tidy.

Lemma tidy_drawContent done : pres tidy (drawContent done).
Proof. unfold drawContent, drawStaticContent, isInEditMode, getFormattedValue. tidy_auto. Qed.

#[local] Hint Resolve tidy_drawContent : tidy.

Lemma tidy_draw done : pres tidy (draw done).
Proof. unfold draw, isInEditMode. tidy_auto. Qed.

#[local] Hint Resolve tidy_draw : tidy.

Lemma tidy__renderError m : pres tidy (_renderError m).
Proof.
  unfold _renderError. apply pres_bind; [apply pres_get|intros st0].
  repeat case_match; try apply pres_ret.
  apply pres_when, pres_modify, tidy_on_expert; [done|].
  by intros e (? & ? & ? & ? & ?).
Qed.

#[local] Hint Resolve tidy__renderError : tidy.

Lemma tidy__formatValue v c : pres tidy (_formatValue v c).
Proof. unfold _formatValue. tidy_auto. Qed.

#[local] Hint Resolve tidy__formatValue : tidy.

Lemma tidy__setValue x : pres tidy (_setValue EmptyValue UnsupportedValue x).
Proof. unfold _setValue. tidy_auto. Qed.

#[local] Hint Resolve tidy__setValue : tidy.

Lemma tidy_value x : pres tidy (value EmptyValue UnsupportedValue x).
Proof. unfold value. tidy_auto. Qed.

#[local] Hint Resolve tidy_value : tidy.

Lemma tidy_initialValue : pres tidy (initialValue EmptyValue UnsupportedValue).
Proof. unfold initialValue, isInEditMode. tidy_auto. Qed.

#[local] Hint Resolve tidy_initialValue : tidy.

Lemma tidy_isEmpty : pres tidy (isEmpty EmptyValue UnsupportedValue).
Proof. unfold isEmpty. tidy_auto. Qed.

#[local] Hint Resolve tidy_isEmpty : tidy.

Lemma tidy_startEditing : pres tidy (startEditing EmptyValue UnsupportedValue).
Proof.
  intros st Ht. unfold startEditing. rewrite exec_isInEditMode_bind.
  destruct (_isInEditMode (this st)) eqn:Hmode; [by rewrite exec_ret|].
  change (tidy (exec
    (bind (modify (on_this (set__initialValue
                              (as_data (of_data (_value (this st)))))))
       (λ _, bind (modify (on_this (set__isInEditMode true)))
       (λ _, bind (modify (on_dom (set_children [ValueNode])))
       (λ _, draw [Ev_afterstartediting])))) st)).
  js_run. apply pres_at; [apply tidy_draw|].
  destruct Ht as [H1 H2]. by split.
Qed.

#[local] Hint Resolve tidy_startEditing : tidy.

Lemma tidy__setDisabled b : pres tidy (_setDisabled b).
Proof. unfold _setDisabled. tidy_auto. Qed.

#[local] Hint Resolve tidy__setDisabled : tidy.

Lemma tidy__parseValue : pres tidy _parseValue.
Proof. unfold _parseValue, _trigger, clearTimeout. tidy_auto. Qed.

#[local] Hint Resolve tidy__parseValue : tidy.

Lemma tidy__updateValue_done pv : pres tidy (_updateValue_done pv).
Proof. unfold _updateValue_done. tidy_auto. Qed.

#[local] Hint Resolve tidy__updateValue_done : tidy.

Lemma tidy__updateValue_fail m : pres tidy (_updateValue_fail m).
Proof. unfold _updateValue_fail. tidy_auto. Qed.

#[local] Hint Resolve tidy__updateValue_fail : tidy.

Lemma tidy__updateValue : pres tidy _updateValue.
Proof. unfold _updateValue. tidy_auto. Qed.

#[local] Hint Resolve tidy__updateValue : tidy.

Lemma tidy_timer_expired id : pres tidy (timer_expired id).
Proof.
  unfold timer_expired, clearTimeout.
  apply pres_bind; [apply pres_get|intros st0].
  case_match; [|apply pres_ret].
  apply pres_bind; [tidy_auto|intros _].
  apply pres_bind; [|intros _; tidy_auto].
  case_match; [|apply pres_ret].
  apply pres_when, pres_modify, tidy_on_expert; [done|].
  by intros e (? & ? & ? & ? & ?).
Qed.

#[local] Hint Resolve tidy_timer_expired : tidy.

Lemma tidy_settle d m : pres tidy m → pres tidy (settle d m).
Proof. intros H. destruct d; simpl; tidy_auto. Qed.

#[local] Hint Resolve tidy_settle : tidy.

Lemma tidy_parser_done id pv : pres tidy (parser_done id pv).
Proof. unfold parser_done, _trigger. tidy_auto. Qed.

#[local] Hint Resolve tidy_parser_done : tidy.

Lemma tidy_parser_fail id m : pres tidy (parser_fail id m).
Proof. unfold parser_fail, _trigger. tidy_auto. Qed.

#[local] Hint Resolve tidy_parser_fail : tidy.

Lemma tidy_format_resolved c fv : pres tidy (format_resolved c fv).
Proof. unfold format_resolved. tidy_auto. Qed.

#[local] Hint Resolve tidy_format_resolved : tidy.

Lemma tidy_format_rejected c m : pres tidy (format_rejected c m).
Proof. unfold format_rejected. tidy_auto. Qed.

#[local] Hint Resolve tidy_format_rejected : tidy.

Lemma tidy_format_always c : pres tidy (format_always c).
Proof. unfold format_always, _trigger. tidy_auto. Qed.

#[local] Hint Resolve tidy_format_always : tidy.

Lemma tidy_formatter_done id fv echo : pres tidy (formatter_done id fv echo).
Proof. unfold formatter_done. tidy_auto. Qed.

#[local] Hint Resolve tidy_formatter_done : tidy.

Lemma tidy_formatter_fail id m : pres tidy (formatter_fail id m).
Proof. unfold formatter_fail. tidy_auto. Qed.

#[local] Hint Resolve tidy_formatter_fail : tidy.

Lemma tidy_viewNotifier_change : pres tidy viewNotifier_change.
Proof. unfold viewNotifier_change, getTextValue, _trigger. tidy_auto. Qed.

#[local] Hint Resolve tidy_viewNotifier_change : tidy.

Lemma tidy_expert_edited raw c : pres tidy (expert_edited raw c).
Proof.
  unfold expert_edited. apply pres_bind; [apply pres_get|intros st0].
  apply pres_bind; [|intros _; tidy_auto].
  repeat case_match; try apply pres_ret.
  apply pres_modify, tidy_on_expert; [done|].
  by intros e (? & ? & ? & ? & ?).
Qed.

#[local] Hint Resolve tidy_expert_edited : tidy.

Lemma tidy__initValue v : pres tidy (_initValue EmptyValue UnsupportedValue v).
Proof. unfold _initValue. tidy_auto. Qed.

#[local] Hint Resolve tidy__initValue : tidy.

Lemma tidy__create : pres tidy (_create EmptyValue UnsupportedValue).
Proof. unfold _create. tidy_auto. Qed.

#[local] Hint Resolve tidy__create : tidy.


(** [stopEditing] needs the experts to be well-formed as well, so that the
    expert can be destroyed. *)
Lemma stopEditing_tidy dropValue st :
  wf st → tidy st →
  tidy (exec (stopEditing EmptyValue UnsupportedValue dropValue) st).
Proof.
  intros Hwf Ht. unfold stopEditing. rewrite exec_isInEditMode_bind.
  destruct (_isInEditMode (this st)) eqn:Hmode; simpl negb; cbv iota;
    [|by rewrite exec_ret].
  rewrite exec_bind.
  assert (Hpre : pres wf (when dropValue
            (bind (initialValue EmptyValue UnsupportedValue)
               (λ initial, bind (value EmptyValue UnsupportedValue initial)
                             (λ _, ret ()))))) by pres_auto.
  assert (Hpre' : pres tidy (when dropValue
            (bind (initialValue EmptyValue UnsupportedValue)
               (λ initial, bind (value EmptyValue UnsupportedValue initial)
                             (λ _, ret ()))))) by tidy_auto.
  specialize (Hpre st Hwf). specialize (Hpre' st Ht).
  unfold exec in Hpre, Hpre'.
  destruct (when dropValue _ st) as [[[]|err] s0]; simpl in Hpre, Hpre';
    [|done].
  clear st Hwf Ht Hmode. destruct Hpre as (_ & _ & HJ & _).
  destruct Hpre' as [H1 H2].
  js_run.
  set (s1 := on_this (set___lastValueCharacteristics None)
               (on_this (set__isInEditMode false)
                  (on_this (set__initialValue None) s0))).
  assert (HJ1 : experts_ok s1) by (split; apply HJ).
  assert (H11 : experts_tidy s1) by done.
  destruct (_expert (this s1)) as [r|] eqn:Hr.
  - destruct (_destroyExpert_cases s1 H11)
      as [[err Hthrow]|(r' & e' & w & Hr' & Hrun & He')].
    { destruct (_destroyExpert_spec s1 r HJ1 Hr) as (? & ? & Hrun & _).
      congruence. }
    rewrite exec_bind. simpl. rewrite Hrun. js_run.
    apply pres_at; [apply tidy_draw|]. split.
    + intros r0 e0. simpl. rewrite lookup_insert.
      case_decide; [by intros [= <-]|]. intros He0.
      specialize (H1 r0 e0 He0). case_bool_decide as Hc; [|done].
      simpl in Hr'. congruence.
    + done.
  - simpl. js_run. apply pres_at; [apply tidy_draw|]. split; [|done].
    intros r0 e0 He0. specialize (H1 r0 e0 He0). simpl in *.
    by rewrite Hr in *.
Qed.

Lemma tidy_handle i st :
  wf st → tidy st → tidy (exec (handle EmptyValue UnsupportedValue i) st).
Proof.
  intros Hwf Ht. destruct i; simpl handle;
    try (by apply stopEditing_tidy);
    (apply pres_at; [|done]); unfold disable, enable; tidy_auto.
Qed.

Lemma tidy_new_widget o markup : tidy (new_widget o markup).
Proof. split; [|done]. intros r e. simpl. by rewrite lookup_empty. Qed.

(** Every state a widget can be in is tidy. *)
Lemma reachable_tidy o markup st :
  reachable EmptyValue UnsupportedValue o markup st → tidy st.
Proof.
  induction 1 as [|st i Hst IH].
  - apply tidy__create, tidy_new_widget.
  - apply tidy_handle; [by eapply reachable_wf|done].
Qed.

(** What [if( this._expert ) { this._destroyExpert(); }] leaves on a
    well-formed, tidy state: no expert object is live any more, and nothing
    but the experts, their view port and the record of their callbacks has
    changed. *)
Lemma release_run st :
  experts_ok st → experts_tidy st →
  ∃ s2,
    when (bool_decide (is_Some (_expert (this st)))) _destroyExpert st
    = (Normal (), s2)
    ∧ _expert (this s2) = None
    ∧ (∀ r e, experts (env s2) !! r = Some e → Expert.destroyed e)
    ∧ core s2 = core st
    ∧ (_formattedValue (this s2), _textValue (this s2),
       _expertConstructor (this s2))
      = (_formattedValue (this st), _textValue (this st),
         _expertConstructor (this st))
    ∧ (children (dom s2), instaticmode (dom s2), ineditmode (dom s2))
      = (children (dom st), instaticmode (dom st), ineditmode (dom st))
    ∧ (formatting (env s2), next_id (env s2), events (env s2))
      = (formatting (env st), next_id (env st), events (env st)).
Proof.
  intros HJ H1. destruct (_expert (this st)) as [r|] eqn:Hr.
  - rewrite bool_decide_eq_true_2 by by eexists. unfold when.
    destruct (_destroyExpert_cases st H1)
      as [[err Hthrow]|(r' & e' & w & Hr' & Hrun & He')].
    { destruct (_destroyExpert_spec st r HJ Hr) as (? & ? & Hrun & _).
      congruence. }
    eexists. split; [exact Hrun|]. split; [done|].
    split; [|done].
    intros r0 e0. simpl. rewrite lookup_insert.
    case_decide; [by intros [= <-]|]. intros He0.
    specialize (H1 r0 e0 He0). case_bool_decide; [congruence|done].
  - rewrite bool_decide_eq_false_2 by (by intros [? ?]).
    exists st. split; [done|]. split; [done|]. split; [|done].
    intros r0 e0 He0. specialize (H1 r0 e0 He0). by rewrite Hr in H1.
Qed.

(** Without an expert, a notification of a change is ignored. *)
Lemma expert_edited_ignored st rawValue characteristics :
  _expert (this st) = None →
  expert_edited rawValue characteristics st = (Normal (), st).
Proof.
  intros Hr. unfold expert_edited, viewNotifier_change, bind, get, ret.
  simpl. rewrite Hr. simpl. by rewrite Hr.
Qed.

(** X11. Whatever has happened to a view since it was created, an expert
    exists only while the view is in edit mode: in static mode [_expert] is
    [null], every expert object there ever was has been destroyed, and there
    is no value to roll back to. *)
Theorem expert_only_while_editing (o : Options) (markup : string)
    (inputs : list Input) :
  let st := run EmptyValue UnsupportedValue inputs
              (exec (_create EmptyValue UnsupportedValue)
                 (new_widget o markup)) in
  _isInEditMode (this st) = false →
  _expert (this st) = None
  ∧ _initialValue (this st) = None
  ∧ ∀ r e, experts (env st) !! r = Some e → Expert.destroyed e.
Proof.
  intros st Hmode.
  assert (Ht : tidy st) by (eapply reachable_tidy, reachable_run; constructor).
  destruct Ht as [H1 H2]. destruct (H2 Hmode) as [Hr Hi].
  split; [done|]. split; [done|].
  intros r e He. specialize (H1 r e He). by rewrite Hr in H1.
Qed.

(** X12. Whatever has happened to a view since it was created, at most one
    expert object is live, the one [_expert] refers to: that one has its
    view port and its extensions, and every other expert object that was
    ever constructed has been destroyed. *)
Theorem one_live_expert (o : Options) (markup : string)
    (inputs : list Input) :
  let st := run EmptyValue UnsupportedValue inputs
              (exec (_create EmptyValue UnsupportedValue)
                 (new_widget o markup)) in
  (∀ r, _expert (this st) = Some r →
        ∃ e, experts (env st) !! r = Some e
             ∧ is_Some (Expert.viewPort e)
             ∧ is_Some (Expert._extendable e))
  ∧ (∀ r e, experts (env st) !! r = Some e →
            _expert (this st) ≠ Some r → Expert.destroyed e).
Proof.
  intros st.
  assert (Hreach : reachable EmptyValue UnsupportedValue o markup st)
    by (apply reachable_run; constructor).
  destruct (reachable_tidy _ _ _ Hreach) as [H1 _].
  destruct (reachable_wf _ _ _ Hreach) as (_ & _ & [J1 J2] & _).
  split.
  - intros r Hr. destruct (J2 r Hr) as [e He]. exists e.
    split; [done|]. split; [|by eapply J1].
    specialize (H1 r e He). by rewrite bool_decide_eq_true_2 in H1.
  - intros r e He Hr. specialize (H1 r e He).
    by rewrite bool_decide_eq_false_2 in H1.
Qed.

(** X13. [stopEditing( false )] on a view in edit mode, whatever has
    happened to it before: it returns with the view in static mode, showing
    the formatted value; the accepted value is kept, the value to roll back
    to and the last value characteristics are forgotten; the expert is
    destroyed and forgotten, so that no expert object is live and
    notifications of a change are ignored from now on; [afterdraw] and
    then [afterstopediting] have been triggered.  A timer or a request of
    the parse step that is pending stays pending. *)
Theorem stopEditing_releases (o : Options) (markup : string)
    (inputs : list Input) :
  let st := run EmptyValue UnsupportedValue inputs
              (exec (_create EmptyValue UnsupportedValue)
                 (new_widget o markup)) in
  _isInEditMode (this st) = true →
  let st' := exec (stopEditing EmptyValue UnsupportedValue false) st in
  result (stopEditing EmptyValue UnsupportedValue false) st = Normal ()
  ∧ _isInEditMode (this st') = false
  ∧ _value (this st') = _value (this st)
  ∧ _initialValue (this st') = None
  ∧ __lastValueCharacteristics (this st') = None
  ∧ _expert (this st') = None
  ∧ (∀ r e, experts (env st') !! r = Some e → Expert.destroyed e)
  ∧ (∀ rawValue characteristics,
       expert_edited rawValue characteristics st' = (Normal (), st'))
  ∧ children (dom st') = html_nodes (_formattedValue (this st))
  ∧ instaticmode (dom st') = true
  ∧ ineditmode (dom st') = false
  ∧ events (env st')
    = (events (env st) ++ [Ev_afterdraw; Ev_afterstopediting false])%list
  ∧ schedule st' = schedule st
  ∧ formatting (env st') = formatting (env st).
Proof.
  intros st Hmode st'.
  assert (Hreach : reachable EmptyValue UnsupportedValue o markup st)
    by (apply reachable_run; constructor).
  destruct (reachable_tidy _ _ _ Hreach) as [H1 _].
  destruct (reachable_wf _ _ _ Hreach) as (_ & _ & HJ & _).
  set (s1 := on_this (set___lastValueCharacteristics None)
               (on_this (set__isInEditMode false)
                  (on_this (set__initialValue None) st))).
  destruct (release_run s1) as (s2 & Hrel & Hr2 & Hgone & Hcore & Hthis
                                & Hdom & Henv); [by split; apply HJ|done|].
  assert (Hrun : stopEditing EmptyValue UnsupportedValue false st
    = (Normal (),
       on_env (λ n, set_events
                 (events n ++ [Ev_afterdraw; Ev_afterstopediting false]) n)
         (on_dom (λ d, set_children (html_nodes (_formattedValue (this s2)))
                         (set_ineditmode false (set_instaticmode true d)))
            (on_dom (λ d, set_children (detach_value (children d)) d) s2)))).
  { unfold stopEditing.
    erewrite bind_normal;
      [|unfold isInEditMode, bind, get, ret; simpl; by rewrite Hmode].
    change (negb true) with false. cbv iota.
    erewrite bind_normal; [|reflexivity].
    do 3 (erewrite bind_normal; [|reflexivity]).
    erewrite bind_normal; [|reflexivity].
    erewrite bind_normal; [|exact Hrel].
    erewrite bind_normal; [|reflexivity].
    rewrite draw_static_run; [done|].
    simpl. by rewrite (core_mode _ _ Hcore). }
  subst st'. unfold result, exec. rewrite Hrun. simpl.
  unfold core in Hcore. simpl in Hcore.
  injection Hcore as Hc1 Hc2 Hc3 Hc4 Hc5 Hc6 Hc7 Hc8 Hc9.
  injection Hthis as Ht1 Ht2 Ht3. injection Henv as He1 He2 He3.
  split_and!; try done.
  - intros rawValue characteristics. by apply expert_edited_ignored.
  - by rewrite Ht1.
  - by rewrite He3.
  - unfold schedule. simpl. by rewrite Hc4, Hc5, Hc8, Hc9.
Qed.

(** X14. The widget's [destroy], whatever has happened to the view before:
    it returns with both mode classes removed from the element and with no
    expert, every expert object being destroyed; the members of the widget
    that hold the value, the mode and the bookkeeping of the parse step are
    left as they are, and so is a pending timer or request. *)
Theorem destroy_releases (o : Options) (markup : string)
    (inputs : list Input) :
  let st := run EmptyValue UnsupportedValue inputs
              (exec (_create EmptyValue UnsupportedValue)
                 (new_widget o markup)) in
  let st' := exec destroy st in
  result destroy st = Normal ()
  ∧ instaticmode (dom st') = false
  ∧ ineditmode (dom st') = false
  ∧ _expert (this st') = None
  ∧ (∀ r e, experts (env st') !! r = Some e → Expert.destroyed e)
  ∧ core st' = core st
  ∧ children (dom st') = children (dom st)
  ∧ events (env st') = events (env st).
Proof.
  intros st st'.
  assert (Hreach : reachable EmptyValue UnsupportedValue o markup st)
    by (apply reachable_run; constructor).
  destruct (reachable_tidy _ _ _ Hreach) as [H1 _].
  destruct (reachable_wf _ _ _ Hreach) as (_ & _ & HJ & _).
  set (s1 := on_dom (λ d, set_ineditmode false (set_instaticmode false d)) st).
  destruct (release_run s1) as (s2 & Hrel & Hr2 & Hgone & Hcore & Hthis
                                & Hdom & Henv); [by split; apply HJ|done|].
  assert (Hrun : destroy st = (Normal (), s2)).
  { unfold destroy.
    erewrite bind_normal; [|reflexivity].
    erewrite bind_normal; [|reflexivity]. exact Hrel. }
  subst st'. unfold result, exec. rewrite Hrun. simpl.
  injection Hdom as Hd1 Hd2 Hd3. injection Henv as He1 He2 He3.
  split_and!; done.
Qed.

(** ** Entering the edit mode *)

(** [_updateExpert] on a view without an expert. *)
Lemma _updateExpert_creates st c :
  _expert (this st) = None →
  _expertConstructor (this st) = Some c →
  _updateExpert st
  = (Normal (),
     put_world
       (Expert.callExtensions {| Expert.extensions := ed_extensions c |} "init"
          {| Expert.port := addClass ("valueview-expert-" ++ ed_name c)
                              (value_node (dom st));
             Expert.calls := calls (env st) |})
       (on_this (set__expert (Some (next_id (env st))))
          (put_expert (next_id (env st)) (new_expert c st)
             (on_env (set_next_id (S (next_id (env st)))) st)))).
Proof.
  intros Hr Hc. unfold _updateExpert.
  rewrite (bind_normal _ _ _ _ _ (eq_refl : get st = (Normal st, st))).
  cbv zeta. unfold the_expert. rewrite Hr, Hc. simpl.
  erewrite bind_normal; [|reflexivity].
  erewrite bind_normal; [|reflexivity].
  erewrite bind_normal; [|reflexivity].
  by erewrite bind_normal; [|reflexivity].
Qed.

(** [drawContent]'s callback in edit mode, on a view without an expert:
    an expert of the current definition is constructed, initialized and
    drawn; the handlers waiting for the drawing run if the promise of the
    expert's [draw] is resolved. *)
Lemma drawContent_then_creates st c done :
  _isInEditMode (this st) = true →
  _expert (this st) = None →
  _expertConstructor (this st) = Some c →
  match ed_draw c with
  | Some drawn =>
      ∃ st', drawContent_then done st = (Normal (), st')
             ∧ expert_drawn c (if drawn then done else []) st st'
  | None =>
      ∃ st', drawContent_then done st = (Thrown TypeError, st')
             ∧ expert_drawn c [] st st'
  end.
Proof.
  intros Hmode Hr Hc. unfold drawContent_then.
  erewrite bind_normal;
    [|unfold isInEditMode, bind, get, ret; simpl; by rewrite Hmode].
  change (negb true) with false. cbv iota.
  erewrite bind_normal; [|by apply _updateExpert_creates].
  erewrite bind_normal; [|reflexivity].
  unfold the_expert. simpl. rewrite lookup_insert_eq. simpl.
  destruct (ed_draw c) as [[|]|]; simpl.
  - erewrite bind_normal; [|reflexivity]. rewrite trigger_all_run.
    eexists. split; [reflexivity|].
    unfold expert_drawn, the_expert. simpl. rewrite lookup_insert_eq.
    split_and!; done.
  - erewrite bind_normal; [|reflexivity].
    eexists. split; [reflexivity|].
    unfold expert_drawn, the_expert. simpl. rewrite lookup_insert_eq.
    rewrite app_nil_r. split_and!; done.
  - erewrite bind_normal; [|reflexivity].
    eexists. split; [reflexivity|].
    unfold expert_drawn, the_expert. simpl. rewrite lookup_insert_eq.
    rewrite app_nil_r. split_and!; done.
Qed.

(** [startEditing] from the static mode, up to the call of [drawContent]. *)
Lemma startEditing_run st :
  _isInEditMode (this st) = false →
  startEditing EmptyValue UnsupportedValue st
  = drawContent [Ev_afterdraw; Ev_afterstartediting]
      (on_dom (λ d, set_ineditmode true (set_instaticmode false d))
         (on_dom (set_children [ValueNode])
            (on_this (set__isInEditMode true)
               (on_this (set__initialValue (_value (this st))) st)))).
Proof.
  intros Hmode. unfold startEditing.
  erewrite bind_normal;
    [|unfold isInEditMode, bind, get, ret; simpl; by rewrite Hmode].
  cbv iota.
  erewrite bind_normal; [|reflexivity]. rewrite as_data_of_data.
  do 3 (erewrite bind_normal; [|reflexivity]).
  unfold draw.
  erewrite bind_normal; [|reflexivity].
  by erewrite bind_normal; [|reflexivity].
Qed.

(** X15. [startEditing] on an empty view in static mode, whatever has
    happened to it before: the view is in edit mode on return, with nothing
    to roll back to and the empty string as its text; an expert of the
    current definition has been constructed under a new reference and
    initialized on the [$value] node, which is the only content of the
    element; no request went to the formatter.  If the expert's [draw]
    resolves its promise, [afterdraw] and then [afterstartediting] have been
    triggered. *)
Theorem startEditing_empty (o : Options) (markup : string)
    (inputs : list Input) (c : ExpertDefinition) :
  let st := run EmptyValue UnsupportedValue inputs
              (exec (_create EmptyValue UnsupportedValue)
                 (new_widget o markup)) in
  _isInEditMode (this st) = false →
  _value (this st) = None →
  _expertConstructor (this st) = Some c →
  ed_draw c = Some true →
  let st' := exec (startEditing EmptyValue UnsupportedValue) st in
  result (startEditing EmptyValue UnsupportedValue) st = Normal ()
  ∧ _isInEditMode (this st') = true
  ∧ _value (this st') = None
  ∧ _initialValue (this st') = None
  ∧ _textValue (this st') = Some EmptyString
  ∧ _expert (this st') = Some (next_id (env st))
  ∧ the_expert st' = Some (new_expert c st)
  ∧ value_node (dom st')
    = addClass ("valueview-expert-" ++ ed_name c) (value_node (dom st))
  ∧ children (dom st') = [ValueNode]
  ∧ ineditmode (dom st') = true
  ∧ instaticmode (dom st') = false
  ∧ events (env st')
    = (events (env st) ++ [Ev_afterdraw; Ev_afterstartediting])%list
  ∧ formatting (env st') = formatting (env st).
Proof.
  intros st Hmode Hvalue Hc Hdraw st'.
  assert (Ht : tidy st) by (eapply reachable_tidy, reachable_run; constructor).
  destruct Ht as [_ H2]. destruct (H2 Hmode) as [Hr _].
  set (s0 := on_this (set__textValue (Some EmptyString))
    (on_dom (λ d, set_ineditmode true (set_instaticmode false d))
       (on_dom (set_children [ValueNode])
          (on_this (set__isInEditMode true)
             (on_this (set__initialValue (_value (this st))) st))))).
  pose proof (drawContent_then_creates s0 c
                [Ev_afterdraw; Ev_afterstartediting] eq_refl Hr Hc) as Hthen.
  rewrite Hdraw in Hthen. destruct Hthen as (s1 & Hthen & Hs1).
  assert (Hrun : startEditing EmptyValue UnsupportedValue st = (Normal (), s1)).
  { rewrite (startEditing_run st Hmode). unfold drawContent.
    match goal with |- bind _ _ ?s = _ =>
      rewrite (bind_normal _ _ _ _ _
                 (eq_refl : isInEditMode s = (Normal true, s))) end.
    cbv iota.
    erewrite bind_normal;
      [|unfold _updateTextValue, bind, get, modify, ret; simpl;
        by rewrite Hvalue].
    unfold s0 in Hthen. rewrite Hvalue in Hthen. exact Hthen. }
  subst st'. unfold result, exec. rewrite Hrun. simpl.
  destruct Hs1 as (E1 & E2 & E3 & E4 & E5 & E6 & E7 & E8 & E9).
  unfold core in E6. simpl in E6.
  injection E6 as Hc1 Hc2 Hc3 Hc4 Hc5 Hc6 Hc7 Hc8 Hc9.
  injection E7 as Hd1 Hd2 Hd3. injection E8 as Ht1 Ht2 Ht3.
  split_and!; try done.
  - by rewrite Hc1.
  - by rewrite Hc2.
Qed.

(** Without an expert, the value characteristics are those of the current
    expert definition. *)
Lemma valueCharacteristics_idle st :
  _expert (this st) = None →
  valueCharacteristics st
  = (Normal (match _expertConstructor (this st) with
             | Some c => ed_valueCharacteristics c
             | None => ∅
             end), st).
Proof.
  intros Hr. unfold valueCharacteristics, bind, get. simpl. rewrite Hr.
  by destruct (_expertConstructor (this st)).
Qed.

(** [_updateTextValue] on a view that has a value and no expert: a request
    for the plain text of the value goes to the formatter, and the promise
    is pending on return. *)
Lemma _updateTextValue_request st v getFormatter d callbacks :
  _value (this st) = Some v →
  _expert (this st) = None →
  formatterStore (options (this st)) = StoreInstance getFormatter →
  getFormatter (data_value_type st) (dataTypeId (options (this st))) = Some d →
  ∃ job,
    _updateTextValue callbacks st
    = (Normal false,
       on_env (λ n, set_formatting
                 (<[next_id (env st) := job]> (formatting n)) n)
         (on_env (set_next_id (S (next_id (env st)))) st))
    ∧ fj_dataValue job = v
    ∧ fj_outputFormat job = "text/plain"
    ∧ fj_callbacks job = callbacks
    ∧ sv_name (fj_valueFormatter job) = sd_name d.
Proof.
  intros Hv Hr Hstore Hd.
  destruct (service_options_run st getFormatter d
              (match _expertConstructor (this st) with
               | Some c => ed_valueCharacteristics c
               | None => ∅
               end) Hd) as (service & _ & Hinst & ->).
  specialize (Hinst Hstore).
  eexists. split.
  - unfold _updateTextValue.
    rewrite (bind_normal _ _ _ _ _ (eq_refl : get st = (Normal st, st))).
    rewrite Hv.
    erewrite bind_normal; [|by apply valueCharacteristics_idle].
    erewrite bind_normal; [|exact Hinst].
    erewrite bind_normal; [|reflexivity].
    erewrite bind_normal; [|reflexivity].
    reflexivity.
  - split_and!; reflexivity.
Qed.

(** X16. [startEditing] on a view in static mode that has a value, whatever
    has happened to it before, with a formatter for the value's type: on
    return the view is in edit mode and shows the [$value] node, the value
    is the one to roll back to, and a request for the plain text of the
    value is with the formatter; there is no expert yet and no event has
    been triggered.  When the formatter answers for this very value, the
    text is stored, an expert of the current definition is constructed and
    drawn, and, its [draw] resolving, [afterdraw] and then
    [afterstartediting] are triggered.  When the formatter fails, nothing of
    this happens, whatever the message: the view stays in edit mode without
    an expert. *)
Theorem startEditing_waits_for_text (o : Options) (markup : string)
    (inputs : list Input) (c : ExpertDefinition) (v : DataValue)
    (getFormatter : option string → option string → option ServiceDefinition)
    (d : ServiceDefinition) :
  let st := run EmptyValue UnsupportedValue inputs
              (exec (_create EmptyValue UnsupportedValue)
                 (new_widget o markup)) in
  _isInEditMode (this st) = false →
  _value (this st) = Some v →
  _expertConstructor (this st) = Some c →
  formatterStore (options (this st)) = StoreInstance getFormatter →
  getFormatter (data_value_type st) (dataTypeId (options (this st))) = Some d →
  let st1 := exec (startEditing EmptyValue UnsupportedValue) st in
  let id := next_id (env st) in
  result (startEditing EmptyValue UnsupportedValue) st = Normal ()
  ∧ _isInEditMode (this st1) = true
  ∧ _initialValue (this st1) = Some v
  ∧ _expert (this st1) = None
  ∧ children (dom st1) = [ValueNode]
  ∧ events (env st1) = events (env st)
  ∧ (∃ job,
       formatting (env st1) = <[id := job]> (formatting (env st))
       ∧ fj_dataValue job = v
       ∧ fj_outputFormat job = "text/plain"
       ∧ sv_name (fj_valueFormatter job) = sd_name d)
  ∧ (∀ text,
       ed_draw c = Some true →
       let st2 := exec (formatter_done id text (JsData v)) st1 in
       _textValue (this st2) = Some text
       ∧ the_expert st2 = Some (new_expert c st)
       ∧ events (env st2)
         = (events (env st) ++ [Ev_afterdraw; Ev_afterstartediting])%list)
  ∧ (∀ message,
       let st2 := exec (formatter_fail id message) st1 in
       _isInEditMode (this st2) = true
       ∧ _expert (this st2) = None
       ∧ formatting (env st2) !! id = None
       ∧ events (env st2) = events (env st)).
Proof.
  intros st Hmode Hvalue Hc Hstore Hd st1 id.
  assert (Ht : tidy st) by (eapply reachable_tidy, reachable_run; constructor).
  destruct Ht as [_ H2]. destruct (H2 Hmode) as [Hr _].
  set (s0 := on_dom (λ d, set_ineditmode true (set_instaticmode false d))
       (on_dom (set_children [ValueNode])
          (on_this (set__isInEditMode true)
             (on_this (set__initialValue (_value (this st))) st)))).
  destruct (_updateTextValue_request s0 v getFormatter d
              (In_updateTextValue [Ev_afterdraw; Ev_afterstartediting])
              Hvalue Hr Hstore Hd) as (job & Htext & Hj1 & Hj2 & Hj3 & Hj4).
  assert (Hrun : startEditing EmptyValue UnsupportedValue st
    = (Normal (),
       on_env (λ n, set_formatting (<[id := job]> (formatting n)) n)
         (on_env (set_next_id (S id)) s0))).
  { rewrite (startEditing_run st Hmode). fold s0. unfold drawContent.
    rewrite (bind_normal _ _ _ _ _
               (eq_refl : isInEditMode s0 = (Normal true, s0))).
    cbv iota. erewrite bind_normal; [|exact Htext]. reflexivity. }
  assert (Hst1 : st1 = on_env (λ n, set_formatting
                                  (<[id := job]> (formatting n)) n)
                         (on_env (set_next_id (S id)) s0))
    by (subst st1; unfold exec; by rewrite Hrun).
  clearbody st1. subst st1.
  split; [unfold result; by rewrite Hrun|].
  split; [done|]. split; [by rewrite <- Hvalue|]. split; [done|].
  split; [done|]. split; [done|].
  split; [by exists job|]. split.
  - intros text Hdraw st2.
    set (s2 := on_this (set__textValue (Some text))
                 (on_env (λ n, set_formatting (delete id (formatting n)) n)
                    (on_env (λ n, set_formatting
                               (<[id := job]> (formatting n)) n)
                       (on_env (set_next_id (S id)) s0)))).
    pose proof (drawContent_then_creates s2 c
                  [Ev_afterdraw; Ev_afterstartediting] eq_refl Hr Hc) as Hthen.
    rewrite Hdraw in Hthen. destruct Hthen as (s3 & Hthen & Hs3).
    assert (Hdone : st2 = s3).
    { subst st2. unfold exec, formatter_done.
      rewrite (bind_normal _ _ _ _ _ (eq_refl : get _ = (Normal _, _))).
      cbn [formatting env on_env set_formatting]. rewrite lookup_insert_eq.
      erewrite bind_normal; [|reflexivity].
      rewrite Hj1, Hj3. unfold strict_eq. rewrite bool_decide_eq_true_2 by done.
      erewrite bind_normal; [reflexivity|].
      unfold format_resolved.
      erewrite bind_normal; [|reflexivity]. exact Hthen. }
    clearbody st2. subst st2.
    destruct Hs3 as (E1 & E2 & E3 & E4 & E5 & E6 & E7 & E8 & E9).
    injection E8 as Ht1 Ht2 Ht3.
    split; [by rewrite Ht2|]. split; [done|done].
  - intros message st2.
    assert (Hfail : st2
      = on_env (λ n, set_formatting (delete id (formatting n)) n)
          (on_env (λ n, set_formatting (<[id := job]> (formatting n)) n)
             (on_env (set_next_id (S id)) s0))).
    { subst st2. unfold exec, formatter_fail.
      rewrite (bind_normal _ _ _ _ _ (eq_refl : get _ = (Normal _, _))).
      cbn [formatting env on_env set_formatting]. rewrite lookup_insert_eq.
      erewrite bind_normal; [|reflexivity].
      rewrite Hj3. unfold format_rejected, format_always.
      by destruct message as [[|a s]|]. }
    clearbody st2. subst st2. simpl.
    split; [done|]. split; [done|]. split; [|done].
    apply lookup_delete_eq.
Qed.

(** ** Showing a value *)

(** [_formatValue] on a view without an expert: a request for the HTML of
    the value goes to the formatter. *)
Lemma _formatValue_request st v getFormatter d callbacks :
  _expert (this st) = None →
  formatterStore (options (this st)) = StoreInstance getFormatter →
  getFormatter (data_value_type st) (dataTypeId (options (this st))) = Some d →
  ∃ job,
    _formatValue v callbacks st
    = (Normal (),
       on_env (λ n, set_formatting
                 (<[next_id (env st) := job]> (formatting n)) n)
         (on_env (set_next_id (S (next_id (env st)))) st))
    ∧ fj_dataValue job = v
    ∧ fj_outputFormat job = "text/html"
    ∧ fj_callbacks job = callbacks
    ∧ sv_name (fj_valueFormatter job) = sd_name d.
Proof.
  intros Hr Hstore Hd.
  destruct (service_options_run st getFormatter d
              (match _expertConstructor (this st) with
               | Some c => ed_valueCharacteristics c
               | None => ∅
               end) Hd) as (service & _ & Hinst & ->).
  specialize (Hinst Hstore).
  eexists. split.
  - unfold _formatValue.
    rewrite (bind_normal _ _ _ _ _ (eq_refl : get st = (Normal st, st))).
    erewrite bind_normal; [|by apply valueCharacteristics_idle].
    erewrite bind_normal; [|exact Hinst].
    erewrite bind_normal; [|reflexivity].
    reflexivity.
  - split_and!; reflexivity.
Qed.

(** X17. Setting a data value on a view in static mode, whatever has
    happened to it before, with a formatter for the value's type: [value]
    returns with the value accepted and a request for its HTML with the
    formatter, while the view still shows what it showed.  When the
    formatter answers for this very value, the answer becomes the formatted
    value and the content of the element, and [afterdraw] and then
    [afterformat] are triggered; an answer for another value only triggers
    [afterformat]. *)
Theorem value_shows_formatted (o : Options) (markup : string)
    (inputs : list Input) (v : DataValue)
    (getExpert : option string → option string → option ExpertDefinition)
    (getFormatter : option string → option string → option ServiceDefinition)
    (d : ServiceDefinition) :
  let st := run EmptyValue UnsupportedValue inputs
              (exec (_create EmptyValue UnsupportedValue)
                 (new_widget o markup)) in
  _isInEditMode (this st) = false →
  (∀ old, _value (this st) = Some old → dv_json v ≠ dv_json old) →
  expertStore (options (this st)) = StoreInstance getExpert →
  formatterStore (options (this st)) = StoreInstance getFormatter →
  getFormatter (data_value_type (on_this (set__value (Some v)) st))
    (dataTypeId (options (this st))) = Some d →
  let st1 := exec (value EmptyValue UnsupportedValue (JsData v)) st in
  let id := next_id (env st) in
  result (value EmptyValue UnsupportedValue (JsData v)) st = Normal JsUndefined
  ∧ _value (this st1) = Some v
  ∧ _formattedValue (this st1) = _formattedValue (this st)
  ∧ children (dom st1) = children (dom st)
  ∧ events (env st1) = events (env st)
  ∧ (∃ job,
       formatting (env st1) = <[id := job]> (formatting (env st))
       ∧ fj_dataValue job = v
       ∧ fj_outputFormat job = "text/html"
       ∧ sv_name (fj_valueFormatter job) = sd_name d)
  ∧ (∀ formattedValue,
       let st2 := exec (formatter_done id formattedValue (JsData v)) st1 in
       _formattedValue (this st2) = Some formattedValue
       ∧ children (dom st2) = html_nodes (Some formattedValue)
       ∧ instaticmode (dom st2) = true
       ∧ events (env st2)
         = (events (env st) ++ [Ev_afterdraw; Ev_afterformat])%list)
  ∧ (∀ formattedValue other,
       other ≠ JsData v →
       let st2 := exec (formatter_done id formattedValue other) st1 in
       _formattedValue (this st2) = _formattedValue (this st)
       ∧ children (dom st2) = children (dom st)
       ∧ events (env st2) = (events (env st) ++ [Ev_afterformat])%list).
Proof.
  intros st Hmode Hnew Hexperts Hstore Hd st1 id.
  assert (Ht : tidy st) by (eapply reachable_tidy, reachable_run; constructor).
  destruct Ht as [_ H2]. destruct (H2 Hmode) as [Hr _].
  set (s0 := on_this (set__expertConstructor
                (Some (selected_expert EmptyValue UnsupportedValue getExpert
                         (on_this (set__value (Some v)) st))))
               (on_this (set__value (Some v)) st)).
  destruct (_formatValue_request s0 v getFormatter d In_setValue
              Hr Hstore Hd) as (job & Hfmt & Hj1 & Hj2 & Hj3 & Hj4).
  assert (Hrun : value EmptyValue UnsupportedValue (JsData v) st
    = (Normal JsUndefined,
       on_env (λ n, set_formatting (<[id := job]> (formatting n)) n)
         (on_env (set_next_id (S id)) s0))).
  { unfold value. simpl. erewrite bind_normal; [reflexivity|].
    unfold _setValue.
    rewrite (bind_normal _ _ _ _ _ (eq_refl : get st = (Normal st, st))).
    cbv zeta.
    assert (Hu : match _value (this st) with
                 | Some old => same_json v old
                 | None => false
                 end = false).
    { destruct (_value (this st)) as [old|] eqn:Hold; [|done].
      apply bool_decide_eq_false_2. by apply Hnew. }
    rewrite Hu.
    erewrite bind_normal; [|reflexivity].
    erewrite bind_normal;
      [|by apply (_updateExpertConstructor_run _ getExpert)].
    exact Hfmt. }
  assert (Hst1 : st1 = on_env (λ n, set_formatting
                                  (<[id := job]> (formatting n)) n)
                         (on_env (set_next_id (S id)) s0))
    by (subst st1; unfold exec; by rewrite Hrun).
  clearbody st1. subst st1.
  split; [unfold result; by rewrite Hrun|].
  do 4 (split; [done|]).
  split; [by exists job|]. split.
  - intros formattedValue st2.
    assert (Hdone : st2
      = on_env (λ n, set_events (events n ++ [Ev_afterformat]) n)
          (on_env (λ n, set_events (events n ++ [Ev_afterdraw]) n)
             (on_dom (λ d, set_children (html_nodes (Some formattedValue))
                             (set_ineditmode false (set_instaticmode true d)))
                (on_this (set__formattedValue (Some formattedValue))
                   (on_env (λ n, set_formatting (delete id (formatting n)) n)
                      (on_env (λ n, set_formatting
                                 (<[id := job]> (formatting n)) n)
                         (on_env (set_next_id (S id)) s0))))))).
    { subst st2. unfold exec, formatter_done.
      rewrite (bind_normal _ _ _ _ _ (eq_refl : get _ = (Normal _, _))).
      cbn [formatting env on_env set_formatting]. rewrite lookup_insert_eq.
      erewrite bind_normal; [|reflexivity].
      rewrite Hj1, Hj3. unfold strict_eq. rewrite bool_decide_eq_true_2 by done.
      erewrite bind_normal; [reflexivity|].
      unfold format_resolved.
      erewrite bind_normal; [|reflexivity].
      by rewrite draw_static_run. }
    clearbody st2. subst st2. simpl.
    split_and!; try done. by rewrite <- app_assoc.
  - intros formattedValue other Hother st2.
    assert (Hdone : st2
      = on_env (λ n, set_events (events n ++ [Ev_afterformat]) n)
          (on_env (λ n, set_formatting (delete id (formatting n)) n)
             (on_env (λ n, set_formatting (<[id := job]> (formatting n)) n)
                (on_env (set_next_id (S id)) s0)))).
    { subst st2. unfold exec, formatter_done.
      rewrite (bind_normal _ _ _ _ _ (eq_refl : get _ = (Normal _, _))).
      cbn [formatting env on_env set_formatting]. rewrite lookup_insert_eq.
      erewrite bind_normal; [|reflexivity].
      rewrite Hj1, Hj3. unfold strict_eq.
      rewrite bool_decide_eq_false_2 by done.
      reflexivity. }
    clearbody st2. subst st2. simpl. done.
Qed.

(** ** Answers that arrive after editing has stopped *)

Lemma schedule_stopEditing_false :
  keeps schedule (stopEditing EmptyValue UnsupportedValue false).
Proof.
  unfold stopEditing.
  apply keeps_bind; [keeps_auto|intros editing].
  destruct editing; simpl; [|apply keeps_ret].
  change (when false ?m) with (ret ()). keeps_auto.
Qed.

Lemma mode_parser_done id pv : keeps edit_mode (parser_done id pv).
Proof.
  unfold parser_done, settle, _updateValue_fail, _updateValue_done.
  keeps_auto.
Qed.

(** X18. [stopEditing( false )] does not call off the parse step: an answer
    of the parser to the latest request that arrives after editing has
    stopped is still accepted, so that the value of the view changes while
    it is in static mode. *)
Theorem parse_survives_stopEditing (st : State) (id : nat) (job : ParseJob)
    (v : DataValue) :
  parsing (env st) !! id = Some job →
  __lastUpdateValue (this st) = pj_rawValue job →
  pj_rawValue job ≠ JsUndefined →
  let st1 := exec (stopEditing EmptyValue UnsupportedValue false) st in
  let st2 := exec (parser_done id (JsData v)) st1 in
  _isInEditMode (this st1) = false
  ∧ _value (this st1) = _value (this st)
  ∧ _isInEditMode (this st2) = false
  ∧ _value (this st2) = Some v.
Proof.
  intros Hjob Hlast Hdef st1 st2.
  pose proof (schedule_stopEditing_false st) as Hs. fold st1 in Hs.
  unfold schedule in Hs. injection Hs as Hs1 Hs2 Hs3 Hs4.
  pose proof (stopEditing_false_mode st) as Hm1. fold st1 in Hm1.
  pose proof (stopEditing_value false st) as Hv1. rewrite andb_false_r in Hv1.
  fold st1 in Hv1.
  destruct (parser_done_accepted st1 id job (JsData v)) as [Hv2 _];
    [by rewrite Hs4|by right|by rewrite Hs2|done|].
  split; [done|]. split; [done|]. split; [|done].
  pose proof (mode_parser_done id (JsData v) st1) as Hm2.
  unfold edit_mode in Hm2, Hm1. fold st2 in Hm2. by rewrite Hm2.
Qed.

(** ** Disabling *)

Lemma options__setDisabled b st :
  disabled (options (this (exec (_setDisabled b) st))) = b.
Proof.
  unfold _setDisabled. rewrite exec_get_bind.
  case_bool_decide as Hb; [by rewrite exec_ret|].
  rewrite exec_modify_bind.
  assert (Hk : keeps (λ s, disabled (options (this s))) (draw []))
    by (apply (keeps_of_core (λ c, disabled (c.1.1.2))); keeps_auto).
  by rewrite Hk.
Qed.

(** X19. [disable] and [enable] set the option [disabled], which
    [isDisabled] reads; called on a view that is in the state asked for they
    return at once with nothing changed and nothing drawn.  Neither touches
    the accepted value, the mode or the bookkeeping of the parse step. *)
Theorem disable_enable (st : State) :
  let st1 := exec disable st in
  let st2 := exec enable st1 in
  result isDisabled st1 = Normal true
  ∧ result isDisabled st2 = Normal false
  ∧ disable st1 = (Normal (), st1)
  ∧ enable st2 = (Normal (), st2)
  ∧ accepted_value st2 = accepted_value st
  ∧ edit_mode st2 = edit_mode st
  ∧ schedule st2 = schedule st.
Proof.
  intros st1 st2.
  assert (H1 : disabled (options (this st1)) = true)
    by apply options__setDisabled.
  assert (H2 : disabled (options (this st2)) = false)
    by apply options__setDisabled.
  assert (Hnoop : ∀ b s, disabled (options (this s)) = b →
                         _setDisabled b s = (Normal (), s)).
  { intros b s Hb. unfold _setDisabled, bind, get. simpl.
    by rewrite bool_decide_eq_true_2. }
  assert (Hk : ∀ {T} (f : State → T) b,
    (∀ s x, f (on_this (λ w, set_options (set_disabled x (options w)) w) s)
            = f s) →
    keeps f (draw []) → keeps f (_setDisabled b)).
  { intros T f b Hf Hdraw. unfold _setDisabled.
    apply keeps_bind; [apply keeps_get|intros s].
    case_bool_decide; [apply keeps_ret|].
    apply keeps_bind; [apply keeps_modify; intros; apply Hf|by intros _]. }
  split_and!.
  - unfold result, isDisabled, bind, get, ret. simpl. by rewrite H1.
  - unfold result, isDisabled, bind, get, ret. simpl. by rewrite H2.
  - by apply Hnoop.
  - by apply Hnoop.
  - subst st2 st1. unfold enable, disable.
    rewrite !(Hk _ accepted_value); [done|done|keeps_auto|done|keeps_auto].
  - subst st2 st1. unfold enable, disable.
    rewrite !(Hk _ edit_mode); [done|done|keeps_auto|done|keeps_auto].
  - subst st2 st1. unfold enable, disable.
    rewrite !(Hk _ schedule); [done|done|keeps_auto|done|keeps_auto].
Qed.

(** ** The life of an expert *)

Lemma filter_app_singleton_ne (c : string) (l : list string) :
  filter (λ x, x ≠ c) (l ++ [c])%list = filter (λ x, x ≠ c) l.
Proof.
  rewrite filter_app. rewrite (filter_cons_False _ c []) by (intros H; by apply H).
  rewrite filter_nil. apply app_nil_r.
Qed.

(** X20. An expert as its constructor leaves it, initialized and then
    destroyed: [init] puts the expert's class, [valueview-expert-] followed
    by the name of the definition, on the view port and runs the [init]
    callbacks of the extensions; [destroy] runs their [destroy] callbacks,
    takes the class off again, whether or not the view port carried it
    before, and empties the view port.  On the destroyed expert [init]
    throws, while [draw] still runs the [draw] callbacks. *)
Theorem Expert_init_destroy (d : ExpertDefinition) (o : Expert.Options)
    (w : Expert.World) :
  let e := Expert.create d Expert.ViewStateOfView Expert.NotifierOfView o in
  let x := {| Expert.extensions := ed_extensions d |} in
  let class := "valueview-expert-" ++ ed_name d in
  ∃ w1 e2 w2,
    Expert.init e w = Normal w1
    ∧ class ∈ vp_classes (Expert.port w1)
    ∧ vp_contents (Expert.port w1) = vp_contents (Expert.port w)
    ∧ Expert.destroy e w1 = Normal (e2, w2)
    ∧ Expert.destroyed e2
    ∧ vp_classes (Expert.port w2)
      = filter (λ c, c ≠ class) (vp_classes (Expert.port w))
    ∧ vp_contents (Expert.port w2) = []
    ∧ Expert.calls w2
      = Expert.calls (Expert.callExtensions x "destroy"
                        (Expert.callExtensions x "init" w))
    ∧ Expert.init e2 w2 = Thrown TypeError
    ∧ Expert.draw e2 w2
      = Normal (ed_draw d, Expert.callExtensions x "draw" w2).
Proof.
  intros e x class. eexists _, _, _.
  split; [reflexivity|]. split.
  { simpl. case_bool_decide; [done|]. apply elem_of_app. right.
    apply list_elem_of_singleton. done. }
  split; [done|]. split; [reflexivity|]. split; [by repeat split|].
  split.
  { simpl. case_bool_decide; [done|]. apply filter_app_singleton_ne. }
  split; [done|]. split; [done|]. split; done.
Qed.

(** X21. [_updateExpert] on a view that has an expert, whatever has
    happened to it before: an expert constructed from the current expert
    definition is kept, and nothing changes; any other expert is destroyed
    and replaced by a new one of the current definition, constructed under a
    new reference and initialized, which then is the only live expert. *)
Theorem _updateExpert_replaces (o : Options) (markup : string)
    (inputs : list Input) (r : nat) (e : Expert.t) (c : ExpertDefinition) :
  let st := run EmptyValue UnsupportedValue inputs
              (exec (_create EmptyValue UnsupportedValue)
                 (new_widget o markup)) in
  _expert (this st) = Some r →
  experts (env st) !! r = Some e →
  _expertConstructor (this st) = Some c →
  (Expert.definition e = c → _updateExpert st = (Normal (), st))
  ∧ (Expert.definition e ≠ c →
     let st' := exec _updateExpert st in
     result _updateExpert st = Normal ()
     ∧ _expert (this st') = Some (next_id (env st))
     ∧ the_expert st' = Some (new_expert c st)
     ∧ (∀ r' e', experts (env st') !! r' = Some e' →
                 r' ≠ next_id (env st) → Expert.destroyed e')
     ∧ core st' = core st).
Proof.
  intros st Hr He Hc.
  assert (Hreach : reachable EmptyValue UnsupportedValue o markup st)
    by (apply reachable_run; constructor).
  destruct (reachable_tidy _ _ _ Hreach) as [H1 H2].
  destruct (reachable_wf _ _ _ Hreach) as (_ & _ & HJ & _).
  split.
  - intros Hdef. unfold _updateExpert.
    rewrite (bind_normal _ _ _ _ _ (eq_refl : get st = (Normal st, st))).
    cbv zeta. rewrite (the_expert_lookup _ _ _ Hr He), Hc.
    by rewrite bool_decide_eq_true_2.
  - intros Hdef st'.
    destruct (_destroyExpert_cases st H1)
      as [[err Hthrow]|(r' & e' & w & Hr' & Hrun & He')].
    { destruct (_destroyExpert_spec st r HJ Hr) as (? & ? & Hrun & _).
      congruence. }
    set (s1 := on_this (set__expert None)
                 (put_expert r' e' (put_world w st))) in Hrun.
    assert (Hs1 : _updateExpert st = _updateExpert s1).
    { unfold _updateExpert.
      rewrite (bind_normal _ _ _ _ _ (eq_refl : get st = (Normal st, st))).
      rewrite (bind_normal _ _ _ _ _ (eq_refl : get s1 = (Normal s1, s1))).
      cbv zeta. rewrite (the_expert_lookup _ _ _ Hr He), Hc.
      rewrite bool_decide_eq_false_2 by done.
      rewrite Hr. rewrite bool_decide_eq_true_2 by by eexists.
      erewrite bind_normal; [|exact Hrun].
      change (the_expert s1) with (@None Expert.t).
      change (_expertConstructor (this s1)) with (_expertConstructor (this st)).
      rewrite Hc. cbv iota.
      change (_expert (this s1)) with (@None nat).
      rewrite bool_decide_eq_false_2 by (by intros [? ?]).
      by erewrite (bind_normal (when false _)); [|reflexivity]. }
    assert (Hnew : _updateExpert s1 = _) by (by apply _updateExpert_creates).
    subst st'. unfold result, exec. rewrite Hs1, Hnew. simpl.
    split; [done|]. split; [done|]. split.
    { unfold the_expert. simpl. by rewrite lookup_insert_eq. }
    split; [|done].
    intros r0 e0. rewrite lookup_insert. case_decide; [done|].
    rewrite lookup_insert. case_decide; [by intros [= <-]|].
    intros He0 _. specialize (H1 r0 e0 He0).
    rewrite bool_decide_eq_false_2 in H1 by congruence. done.
Qed.

End Properties.

(** * Properties of the [eachchange] event *)

Section EachchangeProperties.

Import Eachchange.

Lemma append_cons c (s t : string) : String c s ++ t = String c (s ++ t).
Proof. reflexivity. Qed.

Lemma split_spaceless_piece (x s : string) :
  spaceless x = true → split (x ++ " " ++ s) = x :: split s.
Proof.
  induction x as [|c x IH]; intros Hx; [done|].
  simpl in Hx. apply andb_prop in Hx as [Hc Hx].
  rewrite append_cons. simpl. apply negb_true_iff in Hc. rewrite Hc.
  by rewrite (IH Hx).
Qed.

Lemma split_spaceless (x : string) : spaceless x = true → split x = [x].
Proof.
  induction x as [|c x IH]; intros Hx; [done|].
  simpl in Hx. apply andb_prop in Hx as [Hc Hx].
  simpl. apply negb_true_iff in Hc. rewrite Hc. by rewrite (IH Hx).
Qed.

Lemma split_join (l : list string) :
  l ≠ [] → Forall (λ x, spaceless x = true) l → split (join l) = l.
Proof.
  induction l as [|x l IH]; intros Hne Hl; [done|].
  apply Forall_cons in Hl as [Hx Hl].
  destruct l as [|y l]; [by apply split_spaceless|].
  change (join (x :: y :: l)) with (x ++ " " ++ join (y :: l)).
  rewrite (split_spaceless_piece _ _ Hx). by rewrite IH.
Qed.

Lemma split_pieces (s : string) :
  split s ≠ [] ∧ Forall (λ x, spaceless x = true) (split s).
Proof.
  induction s as [|c s [Hne IH]]; [by split; [|repeat constructor]|].
  simpl. case_bool_decide as Hc.
  - split; [done|]. by constructor.
  - destruct (split s) as [|piece rest]; [done|]. split; [done|].
    apply Forall_cons in IH as [Hp Hr]. constructor; [|done].
    simpl. rewrite Hp. by rewrite bool_decide_eq_false_2.
Qed.

Lemma spaceless_app (s t : string) :
  spaceless (s ++ t) = spaceless s && spaceless t.
Proof.
  induction s as [|c s IH]; [done|].
  rewrite append_cons. simpl. rewrite IH. by rewrite andb_assoc.
Qed.

Lemma join_split (s : string) : join (split s) = s.
Proof.
  induction s as [|c s IH]; [done|].
  simpl. case_bool_decide as Hc.
  - subst c. destruct (split_pieces s) as [Hne _].
    destruct (split s) as [|piece rest] eqn:Hs; [done|].
    change (join (EmptyString :: piece :: rest))
      with (EmptyString ++ " " ++ join (piece :: rest)).
    by rewrite IH.
  - destruct (split_pieces s) as [Hne _].
    destruct (split s) as [|piece rest] eqn:Hs; [done|].
    destruct rest as [|piece' rest].
    + simpl in *. by rewrite IH.
    + change (join (String c piece :: piece' :: rest))
        with (String c (piece ++ " " ++ join (piece' :: rest))).
      change (join (piece :: piece' :: rest))
        with (piece ++ " " ++ join (piece' :: rest)) in IH.
      by rewrite IH.
Qed.

(** X22. [assignNamespace] gives every event name its namespace and loses
    none: split at the spaces, its result is the list of the given names,
    each followed by a dot and the namespace, provided the namespace has no
    space in it; and joining the pieces of a string gives the string back. *)
Theorem assignNamespace_names (eventNames namespace : string) :
  spaceless namespace = true →
  split (assignNamespace eventNames namespace)
  = map (λ name, name ++ "." ++ namespace) (split eventNames)
  ∧ length (split (assignNamespace eventNames namespace))
    = length (split eventNames)
  ∧ join (split eventNames) = eventNames.
Proof.
  intros Hns.
  assert (Hsplit : split (assignNamespace eventNames namespace)
                   = map (λ name, name ++ "." ++ namespace) (split eventNames)).
  { unfold assignNamespace. destruct (split_pieces eventNames) as [Hne Hl].
    apply split_join.
    - by destruct (split eventNames).
    - apply Forall_map. eapply Forall_impl; [exact Hl|].
      intros x Hx. simpl. rewrite !spaceless_app, Hx, Hns. done. }
  split; [done|]. split; [by rewrite Hsplit, length_map|].
  apply join_split.
Qed.

Lemma alreadyTriggered_elem (triggered : list (string * nat)) eventId i :
  alreadyTriggered triggered eventId i = true ↔ (eventId, i) ∈ triggered.
Proof.
  unfold alreadyTriggered. rewrite existsb_exists. split.
  - intros ([k j] & Hin & Ht). simpl in Ht.
    apply andb_prop in Ht as [Hk Hj].
    apply bool_decide_eq_true in Hk, Hj. subst.
    by apply list_elem_of_In.
  - intros Hin. exists (eventId, i). split; [by apply list_elem_of_In|].
    simpl. by rewrite !bool_decide_eq_true_2.
Qed.

Lemma alreadyTriggered_not_elem (triggered : list (string * nat)) eventId i :
  alreadyTriggered triggered eventId i = false ↔ (eventId, i) ∉ triggered.
Proof.
  rewrite <- alreadyTriggered_elem. by destruct (alreadyTriggered _ _ _).
Qed.

(** The inner loop when none of the handlers from index [i] on has been
    triggered: each is called and marked. *)
Lemma handle_handlers_fresh eventId prevVal hs i w :
  (∀ j, (i ≤ j)%nat → (eventId, j) ∉ triggeredHandlers w) →
  handle_handlers eventId prevVal hs i w
  = set_triggeredHandlers
      (triggeredHandlers w ++ imap (λ k _, (eventId, i + k)%nat) hs)
      (set_called (called w ++ map (λ h, (h, prevVal)) hs) w).
Proof.
  revert i w. induction hs as [|h hs IH]; intros i w Hfresh.
  - simpl. rewrite !app_nil_r. by destruct w.
  - simpl. assert (Hi : alreadyTriggered (triggeredHandlers w) eventId i = false)
      by (apply alreadyTriggered_not_elem, Hfresh; lia).
    rewrite Hi. rewrite IH.
    + unfold set_triggeredHandlers, set_called. simpl.
      rewrite <- !app_assoc. simpl. rewrite Nat.add_0_r.
      f_equal. f_equal. f_equal. apply imap_ext. intros k x _. simpl.
      f_equal. lia.
    + intros j Hj. simpl. rewrite elem_of_app, list_elem_of_singleton.
      intros [Hin|[= Heq]]; [|lia]. eapply Hfresh; [|exact Hin]. lia.
Qed.

(** The inner loop when all the handlers have been triggered: nothing
    happens. *)
Lemma handle_handlers_done eventId prevVal hs i w :
  (∀ k, (k < length hs)%nat → (eventId, (i + k)%nat) ∈ triggeredHandlers w) →
  handle_handlers eventId prevVal hs i w = w.
Proof.
  revert i. induction hs as [|h hs IH]; intros i Hdone; [done|].
  simpl. assert (Hi : alreadyTriggered (triggeredHandlers w) eventId i = true).
  { apply alreadyTriggered_elem. specialize (Hdone 0%nat).
    rewrite Nat.add_0_r in Hdone. apply Hdone. simpl. lia. }
  rewrite Hi. apply IH. intros k Hk.
  replace (S i + k)%nat with (i + S k)%nat by lia. apply Hdone. simpl. lia.
Qed.

Lemma marks_event_id (l : list (string * Datum)) eventId i :
  (eventId, i) ∈ marks l → eventId ∈ l.*1.
Proof.
  unfold marks. intros Hin. apply list_elem_of_In, in_flat_map in Hin
    as ([k x] & Hin & Hm). apply list_elem_of_In in Hin.
  destruct x as [d|p]; [|done].
  destruct (String.prefix EVENT_ID k); [|done].
  apply list_elem_of_In, elem_of_lookup_imap in Hm as (j & h & [= -> ->] & _).
  apply list_elem_of_fmap. by exists (k, Eachchange d).
Qed.

(** The outer loop when no handler of the event ids in [l] has been
    triggered. *)
Lemma handle_data_fresh (l : list (string * Datum)) w :
  NoDup l.*1 → own l →
  (∀ eventId j, eventId ∈ l.*1 → (eventId, j) ∉ triggeredHandlers w) →
  handle_data l w
  = (Normal (),
     set_triggeredHandlers (triggeredHandlers w ++ marks l)
       (set_called (called w ++ registered l) w)).
Proof.
  revert w. induction l as [|[k x] l IH]; intros w Hnd Hown Hfresh.
  - simpl. rewrite !app_nil_r. by destruct w.
  - apply NoDup_cons in Hnd as [Hk Hnd].
    assert (Hown' : own l).
    { intros e p Hin. apply (Hown e p). by apply list_elem_of_further. }
    simpl. destruct (String.prefix EVENT_ID k) eqn:Hp; simpl.
    + destruct x as [d|p].
      2:{ specialize (Hown k p (list_elem_of_here _ _)). congruence. }
      rewrite handle_handlers_fresh
        by (intros j _; apply Hfresh, list_elem_of_here).
      rewrite IH; [|done|done|].
      * unfold set_triggeredHandlers, set_called. simpl.
        by rewrite <- !app_assoc.
      * intros e j He. simpl. rewrite elem_of_app. intros [Hin|Hin].
        -- eapply Hfresh; [|exact Hin]. by apply list_elem_of_further.
        -- apply elem_of_lookup_imap in Hin as (i & h & [= -> ->] & _).
           done.
    + rewrite IH; [|done|done|].
      * by destruct x.
      * intros e j He. apply Hfresh. by apply list_elem_of_further.
Qed.

(** The outer loop when every handler has been triggered. *)
Lemma handle_data_done (l : list (string * Datum)) w :
  own l →
  (∀ eventId i, (eventId, i) ∈ marks l → (eventId, i) ∈ triggeredHandlers w) →
  handle_data l w = (Normal (), w).
Proof.
  induction l as [|[k x] l IH]; intros Hown Hdone; [done|].
  assert (Hown' : own l).
  { intros e p Hin. apply (Hown e p). by apply list_elem_of_further. }
  simpl. destruct (String.prefix EVENT_ID k) eqn:Hp; simpl.
  - destruct x as [d|p].
    2:{ specialize (Hown k p (list_elem_of_here _ _)). congruence. }
    rewrite handle_handlers_done.
    + apply IH; [done|]. intros e i Hin. apply Hdone. simpl. rewrite Hp.
      apply elem_of_app. by right.
    + intros j Hj. apply Hdone. simpl. rewrite Hp. apply elem_of_app. left.
      apply elem_of_lookup_imap. apply lookup_lt_is_Some in Hj as [h Hh].
      by exists j, h.
  - apply IH; [done|]. intros e i Hin. apply Hdone. simpl. rewrite Hp.
    by destruct x.
Qed.

Lemma trigger_data (l : list (string * Datum)) (v : JsValue) :
  let l' := map (λ '(eventId, eventData),
              if String.prefix EVENT_ID eventId then
                (eventId,
                 match eventData with
                 | Eachchange d =>
                     Eachchange {| handlers := handlers d; prevVal := v |}
                 | Foreign _ => Foreign v
                 end)
              else (eventId, eventData)) l in
  l'.*1 = l.*1
  ∧ (own l → own l')
  ∧ registered l' = (λ c, (c.1, v)) <$> registered l.
Proof.
  induction l as [|[k x] l (IH1 & IH2 & IH3)]; [done|].
  simpl. split; [|split].
  - f_equal; [by destruct (String.prefix EVENT_ID k)|done].
  - intros Hown e p Hin.
    assert (Hown' : own l).
    { intros e' p' Hin'. apply (Hown e' p'). by apply list_elem_of_further. }
    apply elem_of_cons in Hin as [Heq|Hin]; [|by apply (IH2 Hown' e p)].
    destruct (String.prefix EVENT_ID k) eqn:Hp.
    + destruct x as [d|q]; [done|].
      specialize (Hown k q (list_elem_of_here _ _)). congruence.
    + injection Heq as -> <-. done.
  - rewrite fmap_app, <- IH3. f_equal.
    destruct (String.prefix EVENT_ID k) eqn:Hp; simpl.
    + destruct x as [d|q]; [|done]. simpl. rewrite Hp.
      rewrite <- list_fmap_compose. done.
    + destruct x as [d|q]; [|done]. by rewrite Hp.
Qed.

(** X23. After [trigger], [handle] for the event without a namespace calls
    every handler registered under an event id exactly once, in the order
    of the event ids and of registration, each with the value the element
    had when [trigger] ran as the previous value; the data of the element
    is left alone.  A further [handle] calls no handler, until [trigger]
    runs again.  This holds when [$.data] has no two entries of the same
    name and no object of somebody else under an event id. *)
Theorem handle_once_per_trigger (w : World) (handler : Handler) :
  NoDup (data w).*1 →
  own (data w) →
  ∃ w1,
    handle EmptyString handler (trigger w) = (Normal (), w1)
    ∧ called w1
      = (called w ++ ((λ c, (c.1, getValue w)) <$> registered (data w)))%list
    ∧ data w1 = data (trigger w)
    ∧ (data w1).*1 = (data w).*1
    ∧ handle EmptyString handler w1 = (Normal (), w1).
Proof.
  intros Hnd Hown.
  destruct (trigger_data (data w) (getValue w)) as (Hkeys & Hown' & Hreg).
  specialize (Hown' Hown). simpl in Hkeys, Hown', Hreg.
  eexists. split.
  - simpl. apply handle_data_fresh; [by rewrite Hkeys|done|].
    intros e j _. apply not_elem_of_nil.
  - simpl. split; [by rewrite Hreg|]. split; [done|]. split; [done|].
    apply handle_data_done; [done|]. by intros e i Hin.
Qed.

Lemma data_get_put_eq key x (l : list (string * Datum)) :
  data_get key (data_put key x l) = Some x.
Proof.
  induction l as [|[k y] l IH]; simpl.
  - by rewrite bool_decide_eq_true_2.
  - case_bool_decide as Hk; simpl.
    + by rewrite bool_decide_eq_true_2.
    + by rewrite bool_decide_eq_false_2.
Qed.

Lemma data_get_remove key key' (l : list (string * Datum)) :
  data_get key' (data_remove key l)
  = if bool_decide (key' = key) then None else data_get key' l.
Proof.
  unfold data_remove. induction l as [|[k y] l IH]; simpl.
  - by case_bool_decide.
  - destruct (decide (k = key)) as [->|Hk].
    + rewrite filter_cons_False by (simpl; tauto). rewrite IH.
      destruct (decide (key' = key)) as [->|H1].
      * by rewrite !bool_decide_eq_true_2.
      * rewrite (bool_decide_eq_false_2 (key' = key)) by done.
        by rewrite (bool_decide_eq_false_2 (key = key')) by congruence.
    + rewrite filter_cons_True by done. simpl. rewrite IH.
      destruct (decide (key' = key)) as [->|H1].
      * rewrite (bool_decide_eq_true_2 (key = key)) by done.
        by rewrite bool_decide_eq_false_2.
      * by rewrite (bool_decide_eq_false_2 (key' = key)).
Qed.

(** X24. The handler of a namespace that [add] sees for the first time is
    passed the previous value of the input whenever the listener bound by
    [add] runs: at first the value the input had when the handler was
    added, afterwards the value it had when the listener last ran.  The
    listener is bound to the input events of the client, each with the
    event id as its namespace. *)
Theorem listener_passes_previous_value (w : World) (namespace : string)
    (handler : Handler) (events : string) (v1 v2 : JsValue) :
  inputEvent w = Some events →
  data_get (EVENT_ID ++ namespace) (data w) = None →
  ∃ w1 l,
    add namespace handler w = (Normal (), w1)
    ∧ listeners w1 = (listeners w ++ [l])%list
    ∧ l_events l = assignNamespace events (EVENT_ID ++ namespace)
    ∧ data_get (EVENT_ID ++ namespace) (data w1)
      = Some (Eachchange {| handlers := [handler]; prevVal := getValue w |})
    ∧ let w2 := (listener l (set_val (Some v1) w1)).2 in
      let w3 := (listener l (set_val (Some v2) w2)).2 in
      called w3 = (called w ++ [(handler, getValue w); (handler, v1)])%list
      ∧ data_get (EVENT_ID ++ namespace) (data w3)
        = Some (Eachchange {| handlers := [handler]; prevVal := v2 |}).
Proof.
  intros Hev Hnew. unfold add. rewrite Hev, Hnew. simpl.
  eexists _, _. split; [reflexivity|]. split; [reflexivity|].
  split; [reflexivity|]. split; [apply data_get_put_eq|].
  unfold listener. simpl. rewrite data_get_put_eq. simpl.
  rewrite data_get_put_eq. simpl. rewrite data_get_put_eq.
  split; [|done]. by rewrite <- app_assoc.
Qed.

Lemma namespaces_pieces (s : string) : namespaces s ≠ [].
Proof.
  destruct s as [|c s]; simpl; [done|].
  case_bool_decide; [done|]. by destruct (namespaces s).
Qed.

Lemma namespaces_app (a b : string) :
  namespaces (a ++ "." ++ b) = (namespaces a ++ namespaces b)%list.
Proof.
  induction a as [|c a IH].
  - reflexivity.
  - change (String c a ++ "." ++ b) with (String c (a ++ "." ++ b)).
    simpl. rewrite IH. case_bool_decide; [done|].
    pose proof (namespaces_pieces a). by destruct (namespaces a).
Qed.

(** X25. [remove] for a namespace forgets the data stored under its event
    id, and nothing else of the data.  It unbinds the listeners whose
    namespaces include those of the event id, and no others: every listener
    bound for this event id, those of other handlers of the namespace
    included, and every listener bound for an event id that continues this
    one with further namespaces, although the data of such an event id
    stays; a listener that lacks one of the namespaces of the event id
    stays bound, and the listeners that stay keep their order.  Afterwards
    [handle] for an event with this namespace calls no handler. *)
Theorem remove_forgets (w : World) (namespace : string) :
  let eventId := EVENT_ID ++ namespace in
  let w' := remove namespace w in
  data_get eventId (data w') = None
  ∧ (∀ key, key ≠ eventId → data_get key (data w') = data_get key (data w))
  ∧ (∀ l, l ∈ listeners w' ↔
          l ∈ listeners w
          ∧ ¬ namespaces eventId ⊆+ namespaces (l_eventId l))
  ∧ (∀ l, l ∈ listeners w' →
          l_eventId l ≠ eventId
          ∧ ∀ more, l_eventId l ≠ eventId ++ "." ++ more)
  ∧ (∀ l ns, l ∈ listeners w → ns ∈ namespaces eventId →
             ns ∉ namespaces (l_eventId l) → l ∈ listeners w')
  ∧ sublist (listeners w') (listeners w)
  ∧ (∀ handler, namespace ≠ EmptyString →
       handle namespace handler w' = (Normal (), w'))
  ∧ called w' = called w.
Proof.
  intros eventId w'.
  assert (Hin : ∀ l, l ∈ listeners w' ↔
                     l ∈ listeners w
                     ∧ ¬ namespaces eventId ⊆+ namespaces (l_eventId l)).
  { intros l. subst w'. unfold remove, off. simpl.
    by rewrite list_elem_of_filter, (and_comm (l ∈ listeners w)). }
  split_and!.
  - subst w'. simpl. rewrite data_get_remove. by rewrite bool_decide_eq_true_2.
  - intros key Hkey. subst w'. simpl. rewrite data_get_remove.
    by rewrite bool_decide_eq_false_2.
  - exact Hin.
  - intros l [_ Hl]%Hin. split.
    + intros Heq. apply Hl. by rewrite Heq.
    + intros more Heq. apply Hl. rewrite Heq, namespaces_app.
      by apply submseteq_inserts_r.
  - intros l ns Hl Hns Hnot. apply Hin. split; [done|].
    intros Hsub. apply Hnot.
    by apply (elem_of_submseteq _ _ _ Hns Hsub).
  - subst w'. unfold remove, off. simpl. apply sublist_filter.
  - intros handler Hns. unfold handle.
    destruct namespace as [|c s]; [done|].
    subst w'. simpl data. rewrite data_get_remove.
    by rewrite bool_decide_eq_true_2.
  - done.
Qed.

End EachchangeProperties.

(** ** The properties on the concrete configuration *)

(** C1 fails on the code.  First, two requests are with the formatter, for
    [ab] and then for [a3], the value set last; the formatter answers the
    later one, and then the earlier one: the late answer is applied, and the
    view shows the markup of [ab] while its value is [a3].  Second, with the
    requests 3, 5 and 7 at the parser, the answer to request 7, the latest,
    is accepted; request 5, made for a raw value that has been replaced
    since, then fails with a message, and the failure empties the value.
    Third, the answer to request 3 is applied although request 7 is the
    most recent one, because both were made for the raw value [a], with
    different parser options; the answer to request 7 is then dropped. *)
Lemma stale_answers_applied :
  (let st := Sample.go [Call_value (JsData Sample.ab);
                        Call_value (JsData Sample.a3);
                        FormatterDone 2 "<b>a</b>" (JsData Sample.a3)]
               Sample.created in
   let st' := Sample.go [FormatterDone 1 "<b>ab</b>" (JsData Sample.ab)] st in
   (fj_dataValue <$> formatting (env st) !! 1) = Some Sample.ab
   ∧ _value (this st) = Some Sample.a3
   ∧ _formattedValue (this st) = Some "<b>a</b>"
   ∧ _value (this st') = Some Sample.a3
   ∧ _formattedValue (this st') = Some "<b>ab</b>"
   ∧ children (dom st') = [Markup "<b>ab</b>"])
  ∧ (let st := Sample.go [ParserDone 7 (JsData Sample.a3)]
                 Runs.three_requests in
     let st' := Sample.go [ParserFail 5 (Some "no number")] st in
     (pj_rawValue <$> parsing (env st) !! 5) = Some (JsString "ab")
     ∧ (Expert.rawValue <$> the_expert st) = Some (JsString "a")
     ∧ _value (this st) = Some Sample.a3
     ∧ _value (this st') = None)
  ∧ (is_Some (parsing (env Runs.three_requests) !! 3)
     ∧ is_Some (parsing (env Runs.three_requests) !! 7)
     ∧ (pj_valueParser <$> parsing (env Runs.three_requests) !! 3)
       ≠ (pj_valueParser <$> parsing (env Runs.three_requests) !! 7)
     ∧ _value (this Runs.three_requests) = None
     ∧ _value (this (exec (parser_done 3 (JsData Sample.a1))
                       Runs.three_requests))
       = Some Sample.a1
     ∧ _value (this (exec (parser_done 7 (JsData Sample.a3))
                       (exec (parser_done 3 (JsData Sample.a1))
                          Runs.three_requests)))
       = Some Sample.a1).
Proof.
  split; [by vm_compute|]. split; [by vm_compute|].
  split; [by vm_compute; eexists|]. split; [by vm_compute; eexists|].
  split; [by vm_compute|]. by vm_compute.
Qed.

(** C2 fails on the code.  The view shows the value [a1], whose text is
    [a]; the user types [b] after the [a] and removes it again at once.  The
    second notification, for the raw value [a], is not taken for a change,
    because [a] is the text of the accepted value: it neither clears the
    timer started for [ab] nor starts one.  When that timer expires it is
    [ab] that goes to the parser, not the last raw value, and the parser's
    answer is accepted: the value of the view is [ab] while its input
    holds [a]. *)
Lemma retracted_input_parsed :
  let st := Runs.typed_and_reverted in
  let st1 := Sample.go [TimerExpired 4] st in
  let st2 := Sample.go [ParserDone 5 (JsData Sample.ab)] st1 in
  _value (this st) = Some Sample.a1
  ∧ (Expert.rawValue <$> the_expert st) = Some (JsString "a")
  ∧ timers (env st)
    = timers (env (Sample.go [ExpertEdited (JsString "ab") ∅] Runs.editing_a))
  ∧ (tj_rawValue <$> timers (env st) !! 4) = Some (JsString "ab")
  ∧ (pj_rawValue <$> parsing (env st1) !! 5) = Some (JsString "ab")
  ∧ (Expert.rawValue <$> the_expert st2) = Some (JsString "a")
  ∧ _value (this st2) = Some Sample.ab.
Proof. by vm_compute. Qed.

(** C4 fails as stated.  The expert of the first view has no preview: when
    the parser fails on request 5 with a message, the value is emptied and
    the message is dropped; it is shown nowhere, and nothing but the value,
    the request and the events has changed.  On the second view editing was
    stopped while request 5 was with the parser, so that the view has no
    expert when the parser fails: again the value is emptied and the message
    dropped, and the element still shows the markup of the former value. *)
Lemma no_preview_counterexample :
  (let st := Cases.no_preview_request in
   let st' := exec (parser_fail 5 (Some "no number")) st in
   is_Some (parsing (env st) !! 5)
   ∧ _value (this st) = Some Sample.a1
   ∧ (Expert.preview <$> the_expert st) = Some None
   ∧ _value (this st') = None
   ∧ (Expert.preview <$> the_expert st') = Some None
   ∧ st' = on_env (λ n, set_events (events n ++ [Ev_afterparse]) n)
             (on_this (set__value None)
                (on_env (λ n, set_parsing (delete 5 (parsing n)) n) st)))
  ∧ (let st := Cases.stopped_request in
     let st' := exec (parser_fail 5 (Some "no number")) st in
     is_Some (parsing (env st) !! 5)
     ∧ _value (this st) = Some Sample.a1
     ∧ _expert (this st) = None
     ∧ _value (this st') = None
     ∧ children (dom st') = [Markup "<b>a</b>"]
     ∧ st' = on_env (λ n, set_events (events n ++ [Ev_afterparse]) n)
               (on_this (set__value None)
                  (on_env (λ n, set_parsing (delete 5 (parsing n)) n) st))).
Proof.
  split; (split; [by vm_compute; eexists|by vm_compute]).
Qed.

(** C8 fails as stated: [undefined] is neither [null] nor a data value, and
    [value( undefined )] returns the current value instead of throwing. *)
Lemma value_undefined_counterexample :
  JsUndefined ≠ JsNull
  ∧ instanceof_DataValue JsUndefined = false
  ∧ result (value Sample.EmptyValue Sample.UnsupportedValue JsUndefined)
      Sample.created
    = Normal JsNull.
Proof. by vm_compute. Qed.

(** ** Instances *)

Lemma Expert_destroy_idempotent_witness :
  is_Some (Expert.viewPort Sample.an_expert)
  ∧ ∃ e1 w1,
      Expert.destroy Sample.an_expert Sample.a_world = Normal (e1, w1)
      ∧ Expert.destroyed e1
      ∧ Expert.calls w1
        = Expert.calls
            (Expert.callExtensions
               {| Expert.extensions := [["init"; "draw"; "destroy"]] |}
               "destroy" Sample.a_world)
      ∧ vp_contents (Expert.port w1) = []
      ∧ ∀ w', Expert.destroy e1 w' = Normal (e1, w').
Proof.
  split; [by eexists|].
  apply (Expert_destroy_idempotent Sample.an_expert Sample.a_world
           {| Expert.extensions := [["init"; "draw"; "destroy"]] |});
    [by eexists|reflexivity].
Defined.

Lemma value_fails_fast_witness :
  JsString "a" ≠ JsNull
  ∧ instanceof_DataValue (JsString "a") = false
  ∧ value Sample.EmptyValue Sample.UnsupportedValue (JsString "a")
      Sample.created
    = (Thrown NotADataValue, Sample.created).
Proof.
  split; [done|]. split; [done|].
  apply (value_fails_fast Sample.EmptyValue Sample.UnsupportedValue
           Sample.created (JsString "a")); done.
Defined.

Lemma value_same_json_is_noop_witness :
  _value (this Runs.editing_a) = Some Sample.a1
  ∧ dv_json Sample.a3 = dv_json Sample.a1
  ∧ value Sample.EmptyValue Sample.UnsupportedValue (JsData Sample.a3)
      Runs.editing_a
    = (Normal JsUndefined, Runs.editing_a).
Proof.
  split; [by vm_compute|]. split; [done|].
  apply (value_same_json_is_noop Sample.EmptyValue Sample.UnsupportedValue
           Runs.editing_a Sample.a1 Sample.a3); [by vm_compute|done].
Defined.

Lemma parse_bypass_witness :
  _value (this (exec _updateValue
                  (on_expert 1 (Expert.edited (JsData Sample.ab) ∅)
                     Sample.editing)))
  = Some Sample.ab.
Proof.
  apply (parse_bypass
           (on_expert 1 (Expert.edited (JsData Sample.ab) ∅) Sample.editing)
           1 (Expert.edited (JsData Sample.ab) ∅ Sample.an_expert));
    [by vm_compute|by vm_compute|by right].
Defined.

Lemma service_failures_witness :
  (_value (this (exec (parser_fail 3 (Some "no number")) Runs.one_request))
   = None
   ∧ (Expert.preview <$>
        the_expert (exec (parser_fail 3 (Some "no number")) Runs.one_request))
     = Some (Some (PreviewContent "no number")))
  ∧ exec (parser_fail 5 (Some "no number")) Cases.no_preview_request
    = on_env (λ n, set_events (events n ++ [Ev_afterparse]) n)
        (on_this (set__value None)
           (on_env (λ n, set_parsing (delete 5 (parsing n)) n)
              Cases.no_preview_request)).
Proof.
  split.
  - destruct (service_failures Runs.one_request 3) as [Hfail _].
    destruct (Hfail {| pj_rawValue := JsString "a";
                       pj_valueParser :=
                         {| sv_name := "string";
                            sv_options := {[ "lang" := JsString "en" ]} |} |}
                "no number" ltac:(by vm_compute) ltac:(done))
      as (_ & Hvalue & Hpreview & _).
    split; [exact Hvalue|].
    apply (Hpreview 1 (Expert.preview_showSpinner
                         (Expert.edited (JsString "a") ∅ Sample.an_expert))
             PreviewSpinner); by vm_compute.
  - destruct (service_failures Cases.no_preview_request 5) as [Hfail _].
    destruct (Hfail {| pj_rawValue := JsString "ab";
                       pj_valueParser :=
                         {| sv_name := "string";
                            sv_options := {[ "lang" := JsString "en" ]} |} |}
                "no number" ltac:(by vm_compute) ltac:(done))
      as (_ & _ & _ & Hdropped).
    apply Hdropped. right.
    eexists 3, _. split; [by vm_compute|]. split; [by vm_compute|].
    by vm_compute.
Defined.

Lemma stale_parse_answer_dropped_witness :
  parser_done 5 (JsData Sample.ab) Runs.three_requests
  = (Normal (),
     on_env (λ n, set_events (events n ++ [Ev_afterparse]) n)
       (on_env (λ n, set_parsing (delete 5 (parsing n)) n)
          Runs.three_requests)).
Proof.
  destruct (stale_parse_answer_dropped Runs.three_requests 5) as [Hstale _].
  apply (Hstale {| pj_rawValue := JsString "ab";
                   pj_valueParser :=
                     {| sv_name := "string";
                        sv_options := {[ "lang" := JsString "en";
                                         "precision" := JsNumber 1 ]} |} |});
    [by vm_compute|by right|by right; vm_compute].
Defined.

Lemma start_cancel_restores_witness :
  _isInEditMode (this Runs.editing_a) = true
  ∧ structurally_equal
      (_value (this (exec (cancelEditing Sample.EmptyValue Sample.UnsupportedValue)
                       (exec (startEditing Sample.EmptyValue
                                Sample.UnsupportedValue) Runs.editing_a))))
      (_initialValue (this Runs.editing_a)).
Proof.
  split; [by vm_compute|].
  apply (start_cancel_restores Sample.EmptyValue Sample.UnsupportedValue
           Runs.editing_a). by vm_compute.
Defined.

Lemma stopEditing_commits_witness :
  let st1 := exec (parser_done 3 (JsData Sample.a1)) Runs.one_request in
  let st2 := exec (formatter_done 4 "<b>a</b>" (JsData Sample.a1)) st1 in
  let st3 := exec (stopEditing Sample.EmptyValue Sample.UnsupportedValue false)
               st2 in
  _isInEditMode (this st3) = false
  ∧ result (initialValue Sample.EmptyValue Sample.UnsupportedValue) st3
    = Normal (JsData Sample.a1).
Proof.
  apply (stopEditing_commits Sample.EmptyValue Sample.UnsupportedValue
           Runs.one_request 3 4
           {| pj_rawValue := JsString "a";
              pj_valueParser :=
                {| sv_name := "string";
                   sv_options := {[ "lang" := JsString "en" ]} |} |});
    by vm_compute.
Defined.

Lemma parse_timer_restarted_witness :
  let st := run Sample.EmptyValue Sample.UnsupportedValue
              [Call_startEditing; ExpertEdited (JsString "a") ∅]
              (exec (_create Sample.EmptyValue Sample.UnsupportedValue)
                 (new_widget Sample.opts EmptyString)) in
  let st' := exec (expert_edited (JsString "ab") ∅) st in
  (tj_rawValue <$> timers (env st) !! 2) = Some (JsString "a")
  ∧ next_id (env st) = 3
  ∧ parseDelay default_options = 300
  ∧ ∃ job,
      timers (env st') = {[ next_id (env st) := job ]}
      ∧ tj_rawValue job = JsString "ab"
      ∧ tj_delay job = parseDelay (options (this st))
      ∧ parsing (env st') = parsing (env st)
      ∧ (∀ id, id ≠ next_id (env st) → exec (timer_expired id) st' = st')
      ∧ parsing (env (exec (timer_expired (next_id (env st))) st'))
        = <[ S (next_id (env st)) :=
               {| pj_rawValue := JsString "ab";
                  pj_valueParser := tj_valueParser job |} ]>
            (parsing (env st)).
Proof.
  split; [by vm_compute|]. split; [by vm_compute|].
  apply (parse_timer_restarted Sample.EmptyValue Sample.UnsupportedValue
           Sample.opts EmptyString
           [Call_startEditing; ExpertEdited (JsString "a") ∅] 1
           (Expert.edited (JsString "a") ∅ Sample.an_expert)
           (JsString "ab") ∅).
  - by vm_compute.
  - by vm_compute.
  - done.
  - done.
  - by vm_compute.
  - exists (λ _ _, Some Sample.service), (Some "string"), Sample.service;
    by vm_compute.
Defined.

(** ** Instances of the further properties *)

Lemma _create_checks_options_witness :
  _create Sample.EmptyValue Sample.UnsupportedValue
    (new_widget default_options "<b>a</b>")
  = (Thrown RequiredOptionsMissing, new_widget default_options "<b>a</b>")
  ∧ (let st := exec (_create Sample.EmptyValue Sample.UnsupportedValue)
                 (new_widget Cases.foreign_opts EmptyString) in
     result (_create Sample.EmptyValue Sample.UnsupportedValue)
       (new_widget Cases.foreign_opts EmptyString)
     = Thrown NoExpertStore
     ∧ _value (this st) = opt_value Cases.foreign_opts
     ∧ _expertConstructor (this st) = None).
Proof.
  split.
  - apply (_create_checks_options Sample.EmptyValue Sample.UnsupportedValue
             default_options "<b>a</b>"). reflexivity.
  - apply (_create_checks_options Sample.EmptyValue Sample.UnsupportedValue
             Cases.foreign_opts EmptyString); reflexivity.
Defined.

Lemma _create_mode_witness :
  let st := exec (_create Sample.EmptyValue Sample.UnsupportedValue)
              (new_widget Cases.auto_opts EmptyString) in
  _isInEditMode (this st)
  = autoStartEditing Cases.auto_opts
    && bool_decide (opt_value Cases.auto_opts = None)
  ∧ _value (this st) = opt_value Cases.auto_opts.
Proof.
  apply (_create_mode Sample.EmptyValue Sample.UnsupportedValue
           Cases.auto_opts EmptyString). by vm_compute.
Defined.

Lemma _create_adopts_markup_witness :
  let st := exec (_create Sample.EmptyValue Sample.UnsupportedValue)
              (new_widget Cases.valued_opts "<b>a</b>") in
  result (_create Sample.EmptyValue Sample.UnsupportedValue)
    (new_widget Cases.valued_opts "<b>a</b>") = Normal ()
  ∧ _value (this st) = opt_value Cases.valued_opts
  ∧ _formattedValue (this st) = Some "<b>a</b>"
  ∧ children (dom st) = [Markup "<b>a</b>"]
  ∧ instaticmode (dom st) = true
  ∧ _isInEditMode (this st) = false
  ∧ formatting (env st) = ∅
  ∧ events (env st) = [Ev_afterdraw].
Proof.
  apply (_create_adopts_markup Sample.EmptyValue Sample.UnsupportedValue
           Cases.valued_opts (λ _ _, Some Sample.StringValue) "<b>a</b>");
    done.
Defined.

Lemma value_selects_expert_witness :
  let st' := exec (value Sample.EmptyValue Sample.UnsupportedValue
                     (of_data (Some Sample.a1)))
               (new_widget Cases.untyped_opts EmptyString) in
  _value (this st') = Some Sample.a1
  ∧ _expertConstructor (this st') = Some Sample.StringValue.
Proof.
  apply (value_selects_expert Sample.EmptyValue Sample.UnsupportedValue
           (new_widget Cases.untyped_opts EmptyString) (Some Sample.a1)
           (λ _ _, Some Sample.StringValue)); [reflexivity|].
  intros old new Hold. discriminate Hold.
Defined.

Lemma value_null_empties_view_witness :
  let st' := exec (value Sample.EmptyValue Sample.UnsupportedValue JsNull)
               Cases.shown_a in
  result (value Sample.EmptyValue Sample.UnsupportedValue JsNull) Cases.shown_a
  = Normal JsUndefined
  ∧ _value (this st') = None
  ∧ _formattedValue (this st') = None
  ∧ children (dom st') = []
  ∧ instaticmode (dom st') = true
  ∧ ineditmode (dom st') = false
  ∧ formatting (env st') = formatting (env Cases.shown_a)
  ∧ events (env st') = (events (env Cases.shown_a) ++ [Ev_afterdraw])%list.
Proof.
  apply (value_null_empties_view Sample.EmptyValue Sample.UnsupportedValue
           Cases.shown_a (λ _ _, Some Sample.StringValue)); by vm_compute.
Defined.

Lemma parser_result_checked_witness :
  parser_done 3 (JsString "a") Runs.one_request
  = (Thrown UnexpectedParserResult,
     on_env (λ n, set_parsing (delete 3 (parsing n)) n) Runs.one_request).
Proof.
  apply (parser_result_checked Runs.one_request 3
           {| pj_rawValue := JsString "a";
              pj_valueParser :=
                {| sv_name := "string";
                   sv_options := {[ "lang" := JsString "en" ]} |} |}
           (JsString "a")); [by vm_compute|done|done].
Defined.

Lemma service_options_precedence_witness :
  ∃ service,
    (parserStore (options (this Sample.created))
     = StoreInstance (λ _ _, Some Sample.service) →
     _instantiateParser {[ "precision" := JsNumber 1 ]} Sample.created
     = (Normal service, Sample.created))
    ∧ (formatterStore (options (this Sample.created))
       = StoreInstance (λ _ _, Some Sample.service) →
       _instantiateFormatter {[ "precision" := JsNumber 1 ]} Sample.created
       = (Normal service, Sample.created))
    ∧ sv_name service = sd_name Sample.service
    ∧ ∀ i, prop (sv_options service) i
           = if bool_decide (prop {[ "precision" := JsNumber 1 ]} i
                             ≠ JsUndefined)
             then prop {[ "precision" := JsNumber 1 ]} i
             else if bool_decide (prop (sd_options Sample.service) i
                                  ≠ JsUndefined)
             then prop (sd_options Sample.service) i
             else if bool_decide (i = "lang")
             then language (options (this Sample.created))
             else JsUndefined.
Proof.
  apply (service_options_precedence Sample.created
           (λ _ _, Some Sample.service) Sample.service
           {[ "precision" := JsNumber 1 ]}). reflexivity.
Defined.

Lemma expert_only_while_editing_witness :
  let st := run Sample.EmptyValue Sample.UnsupportedValue
              [Call_startEditing; Call_stopEditing false]
              (exec (_create Sample.EmptyValue Sample.UnsupportedValue)
                 (new_widget Sample.opts EmptyString)) in
  _expert (this st) = None
  ∧ _initialValue (this st) = None
  ∧ ∀ r e, experts (env st) !! r = Some e → Expert.destroyed e.
Proof.
  apply (expert_only_while_editing Sample.EmptyValue Sample.UnsupportedValue
           Sample.opts EmptyString [Call_startEditing; Call_stopEditing false]).
  by vm_compute.
Defined.

Lemma one_live_expert_witness :
  let st := run Sample.EmptyValue Sample.UnsupportedValue
              [Call_startEditing; Call_stopEditing false; Call_startEditing]
              (exec (_create Sample.EmptyValue Sample.UnsupportedValue)
                 (new_widget Sample.opts EmptyString)) in
  (∃ e, experts (env st) !! 2 = Some e
        ∧ is_Some (Expert.viewPort e)
        ∧ is_Some (Expert._extendable e))
  ∧ Expert.destroyed
      (Expert.edited JsNull ∅
         {| Expert.definition := Sample.StringValue;
            Expert.uiBaseClass := "valueview-expert-stringvalue";
            Expert.viewPort := None; Expert._viewState := None;
            Expert._viewNotifier := None; Expert._options := None;
            Expert._messageProvider := None;
            Expert._extendable :=
              Some {| Expert.extensions := [["init"; "draw"; "destroy"]] |};
            Expert.raw := JsNull; Expert.characteristics := ∅;
            Expert.preview := Some PreviewIdle |}).
Proof.
  destruct (one_live_expert Sample.EmptyValue Sample.UnsupportedValue
              Sample.opts EmptyString
              [Call_startEditing; Call_stopEditing false; Call_startEditing])
    as [Hlive Hgone].
  split.
  - apply Hlive. by vm_compute.
  - apply (Hgone 1); [by vm_compute|by vm_compute].
Defined.

Lemma stopEditing_releases_witness :
  let st := run Sample.EmptyValue Sample.UnsupportedValue [Call_startEditing]
              (exec (_create Sample.EmptyValue Sample.UnsupportedValue)
                 (new_widget Sample.opts EmptyString)) in
  let st' := exec (stopEditing Sample.EmptyValue Sample.UnsupportedValue false)
               st in
  result (stopEditing Sample.EmptyValue Sample.UnsupportedValue false) st
  = Normal ()
  ∧ _isInEditMode (this st') = false
  ∧ _value (this st') = _value (this st)
  ∧ _initialValue (this st') = None
  ∧ __lastValueCharacteristics (this st') = None
  ∧ _expert (this st') = None
  ∧ (∀ r e, experts (env st') !! r = Some e → Expert.destroyed e)
  ∧ (∀ rawValue characteristics,
       expert_edited rawValue characteristics st' = (Normal (), st'))
  ∧ children (dom st') = html_nodes (_formattedValue (this st))
  ∧ instaticmode (dom st') = true
  ∧ ineditmode (dom st') = false
  ∧ events (env st')
    = (events (env st) ++ [Ev_afterdraw; Ev_afterstopediting false])%list
  ∧ schedule st' = schedule st
  ∧ formatting (env st') = formatting (env st).
Proof.
  apply (stopEditing_releases Sample.EmptyValue Sample.UnsupportedValue
           Sample.opts EmptyString [Call_startEditing]). by vm_compute.
Defined.

Lemma startEditing_empty_witness :
  let st := run Sample.EmptyValue Sample.UnsupportedValue []
              (exec (_create Sample.EmptyValue Sample.UnsupportedValue)
                 (new_widget Sample.opts EmptyString)) in
  let st' := exec (startEditing Sample.EmptyValue Sample.UnsupportedValue) st in
  result (startEditing Sample.EmptyValue Sample.UnsupportedValue) st
  = Normal ()
  ∧ _isInEditMode (this st') = true
  ∧ _value (this st') = None
  ∧ _initialValue (this st') = None
  ∧ _textValue (this st') = Some EmptyString
  ∧ _expert (this st') = Some (next_id (env st))
  ∧ the_expert st' = Some (new_expert Sample.StringValue st)
  ∧ value_node (dom st')
    = addClass ("valueview-expert-" ++ ed_name Sample.StringValue)
        (value_node (dom st))
  ∧ children (dom st') = [ValueNode]
  ∧ ineditmode (dom st') = true
  ∧ instaticmode (dom st') = false
  ∧ events (env st')
    = (events (env st) ++ [Ev_afterdraw; Ev_afterstartediting])%list
  ∧ formatting (env st') = formatting (env st).
Proof.
  apply (startEditing_empty Sample.EmptyValue Sample.UnsupportedValue
           Sample.opts EmptyString [] Sample.StringValue); by vm_compute.
Defined.

Lemma startEditing_waits_for_text_witness :
  let st := run Sample.EmptyValue Sample.UnsupportedValue
              [Call_value (JsData Sample.a1);
               FormatterDone 1 "<b>a</b>" (JsData Sample.a1)]
              (exec (_create Sample.EmptyValue Sample.UnsupportedValue)
                 (new_widget Sample.opts EmptyString)) in
  let st1 := exec (startEditing Sample.EmptyValue Sample.UnsupportedValue) st in
  let st2 := exec (formatter_done (next_id (env st)) "a" (JsData Sample.a1))
               st1 in
  _expert (this st1) = None
  ∧ events (env st1) = events (env st)
  ∧ _textValue (this st2) = Some "a"
  ∧ the_expert st2 = Some (new_expert Sample.StringValue st)
  ∧ events (env st2)
    = (events (env st) ++ [Ev_afterdraw; Ev_afterstartediting])%list.
Proof.
  destruct (startEditing_waits_for_text Sample.EmptyValue
              Sample.UnsupportedValue Sample.opts EmptyString
              [Call_value (JsData Sample.a1);
               FormatterDone 1 "<b>a</b>" (JsData Sample.a1)]
              Sample.StringValue Sample.a1 (λ _ _, Some Sample.service)
              Sample.service)
    as (_ & _ & _ & Hexpert & _ & Hevents & _ & Hdone & _);
    [by vm_compute..|].
  split; [exact Hexpert|]. split; [exact Hevents|].
  apply (Hdone "a"). reflexivity.
Defined.

Lemma value_shows_formatted_witness :
  let st := run Sample.EmptyValue Sample.UnsupportedValue []
              (exec (_create Sample.EmptyValue Sample.UnsupportedValue)
                 (new_widget Sample.opts EmptyString)) in
  let st1 := exec (value Sample.EmptyValue Sample.UnsupportedValue
                     (JsData Sample.a1)) st in
  let st2 := exec (formatter_done (next_id (env st)) "<b>a</b>"
                     (JsData Sample.a1)) st1 in
  _value (this st1) = Some Sample.a1
  ∧ children (dom st1) = children (dom st)
  ∧ _formattedValue (this st2) = Some "<b>a</b>"
  ∧ children (dom st2) = html_nodes (Some "<b>a</b>")
  ∧ instaticmode (dom st2) = true
  ∧ events (env st2)
    = (events (env st) ++ [Ev_afterdraw; Ev_afterformat])%list.
Proof.
  destruct (value_shows_formatted Sample.EmptyValue Sample.UnsupportedValue
              Sample.opts EmptyString [] Sample.a1
              (λ _ _, Some Sample.StringValue) (λ _ _, Some Sample.service)
              Sample.service)
    as (_ & Hvalue & _ & Hchildren & _ & _ & Hdone & _);
    [by vm_compute
    |intros old Hold; vm_compute in Hold; discriminate Hold
    |by vm_compute..|].
  split; [exact Hvalue|]. split; [exact Hchildren|].
  apply (Hdone "<b>a</b>").
Defined.

Lemma parse_survives_stopEditing_witness :
  let st1 := exec (stopEditing Sample.EmptyValue Sample.UnsupportedValue false)
               Runs.one_request in
  let st2 := exec (parser_done 3 (JsData Sample.a1)) st1 in
  _isInEditMode (this st1) = false
  ∧ _value (this st1) = _value (this Runs.one_request)
  ∧ _isInEditMode (this st2) = false
  ∧ _value (this st2) = Some Sample.a1.
Proof.
  apply (parse_survives_stopEditing Sample.EmptyValue Sample.UnsupportedValue
           Runs.one_request 3
           {| pj_rawValue := JsString "a";
              pj_valueParser :=
                {| sv_name := "string";
                   sv_options := {[ "lang" := JsString "en" ]} |} |}
           Sample.a1); [by vm_compute|by vm_compute|done].
Defined.

Lemma _updateExpert_replaces_witness :
  _updateExpert
    (run Sample.EmptyValue Sample.UnsupportedValue [Call_startEditing]
       (exec (_create Sample.EmptyValue Sample.UnsupportedValue)
          (new_widget Sample.opts EmptyString)))
  = (Normal (),
     run Sample.EmptyValue Sample.UnsupportedValue [Call_startEditing]
       (exec (_create Sample.EmptyValue Sample.UnsupportedValue)
          (new_widget Sample.opts EmptyString)))
  ∧ (let st := run Sample.EmptyValue Sample.UnsupportedValue
                 [Call_startEditing; Call_value (JsData Sample.a1)]
                 (exec (_create Sample.EmptyValue Sample.UnsupportedValue)
                    (new_widget Cases.untyped_opts EmptyString)) in
     let st' := exec _updateExpert st in
     result _updateExpert st = Normal ()
     ∧ _expert (this st') = Some (next_id (env st))
     ∧ the_expert st' = Some (new_expert Sample.StringValue st)
     ∧ (∀ r' e', experts (env st') !! r' = Some e' →
                 r' ≠ next_id (env st) → Expert.destroyed e')
     ∧ core st' = core st).
Proof.
  split.
  - apply (_updateExpert_replaces Sample.EmptyValue Sample.UnsupportedValue
             Sample.opts EmptyString [Call_startEditing] 1
             Sample.an_expert Sample.StringValue);
      [by vm_compute|by vm_compute|by vm_compute|done].
  - apply (_updateExpert_replaces Sample.EmptyValue Sample.UnsupportedValue
             Cases.untyped_opts EmptyString
             [Call_startEditing; Call_value (JsData Sample.a1)] 1
             (new_expert Sample.EmptyValue
                (new_widget Cases.untyped_opts EmptyString))
             Sample.StringValue);
      [by vm_compute|by vm_compute|by vm_compute|done].
Defined.

Lemma assignNamespace_names_witness :
  Eachchange.split
    (Eachchange.assignNamespace "input keyup" "jqueryEventSpecialEachchange")
  = map (λ name, name ++ "." ++ "jqueryEventSpecialEachchange")
      (Eachchange.split "input keyup")
  ∧ length (Eachchange.split
              (Eachchange.assignNamespace "input keyup"
                 "jqueryEventSpecialEachchange"))
    = length (Eachchange.split "input keyup")
  ∧ Eachchange.join (Eachchange.split "input keyup") = "input keyup".
Proof.
  apply (assignNamespace_names "input keyup" "jqueryEventSpecialEachchange").
  reflexivity.
Defined.

Lemma handle_once_per_trigger_witness :
  ∃ w1,
    Eachchange.handle EmptyString 0 (Eachchange.trigger Cases.an_input)
    = (Normal (), w1)
    ∧ Eachchange.called w1
      = (Eachchange.called Cases.an_input
         ++ ((λ c, (c.1, Eachchange.getValue Cases.an_input))
               <$> Eachchange.registered (Eachchange.data Cases.an_input)))%list
    ∧ Eachchange.data w1 = Eachchange.data (Eachchange.trigger Cases.an_input)
    ∧ (Eachchange.data w1).*1 = (Eachchange.data Cases.an_input).*1
    ∧ Eachchange.handle EmptyString 0 w1 = (Normal (), w1).
Proof.
  apply (handle_once_per_trigger Cases.an_input 0).
  - apply (bool_decide_unpack _). by vm_compute.
  - intros eventId p Hin. simpl in Hin.
    apply elem_of_cons in Hin as [Hin|Hin]; [discriminate Hin|].
    apply list_elem_of_singleton in Hin. injection Hin as -> _. reflexivity.
Defined.

Lemma listener_passes_previous_value_witness :
  ∃ w1 l,
    Eachchange.add "edit" 3 Cases.an_input = (Normal (), w1)
    ∧ Eachchange.listeners w1
      = (Eachchange.listeners Cases.an_input ++ [l])%list
    ∧ Eachchange.l_events l
      = Eachchange.assignNamespace "input"
          (Eachchange.EVENT_ID ++ "edit")
    ∧ Eachchange.data_get (Eachchange.EVENT_ID ++ "edit") (Eachchange.data w1)
      = Some (Eachchange.Eachchange
                {| Eachchange.handlers := [3];
                   Eachchange.prevVal := Eachchange.getValue Cases.an_input |})
    ∧ let w2 := (Eachchange.listener l
                   (Eachchange.set_val (Some (JsString "abc")) w1)).2 in
      let w3 := (Eachchange.listener l
                   (Eachchange.set_val (Some (JsString "abcd")) w2)).2 in
      Eachchange.called w3
      = (Eachchange.called Cases.an_input
         ++ [(3, Eachchange.getValue Cases.an_input);
             (3, JsString "abc")])%list
      ∧ Eachchange.data_get (Eachchange.EVENT_ID ++ "edit")
          (Eachchange.data w3)
        = Some (Eachchange.Eachchange
                  {| Eachchange.handlers := [3];
                     Eachchange.prevVal := JsString "abcd" |}).
Proof.
  apply (listener_passes_previous_value Cases.an_input "edit" 3 "input"
           (JsString "abc") (JsString "abcd")); reflexivity.
Defined.


Lemma remove_forgets_witness :
  let w := Cases.bound_input in
  let w' := Eachchange.remove "a" w in
  map Eachchange.l_eventId (Eachchange.listeners w)
  = ["jqueryEventSpecialEachchange"; "jqueryEventSpecialEachchangea";
     "jqueryEventSpecialEachchangea.b"; "jqueryEventSpecialEachchangec"]
  ∧ map Eachchange.l_eventId (Eachchange.listeners w')
    = ["jqueryEventSpecialEachchange"; "jqueryEventSpecialEachchangec"]
  ∧ map fst (Eachchange.data w')
    = ["jqueryEventSpecialEachchange"; "jqueryEventSpecialEachchangea.b";
       "jqueryEventSpecialEachchangec"]
  ∧ Eachchange.data_get "jqueryEventSpecialEachchangea" (Eachchange.data w')
    = None
  ∧ {| Eachchange.l_events := "input.jqueryEventSpecialEachchangea.b";
       Eachchange.l_eventId := "jqueryEventSpecialEachchangea.b";
       Eachchange.l_handler := 3 |} ∈ Eachchange.listeners w
  ∧ {| Eachchange.l_events := "input.jqueryEventSpecialEachchangea.b";
       Eachchange.l_eventId := "jqueryEventSpecialEachchangea.b";
       Eachchange.l_handler := 3 |} ∉ Eachchange.listeners w'.
Proof.
  intros w w'.
  destruct (remove_forgets w "a") as (Hdata & _ & _ & Hgone & _).
  split; [by vm_compute|]. split; [by vm_compute|].
  split; [by vm_compute|]. split; [exact Hdata|].
  split.
  - apply (list_elem_of_lookup_2 _ 2). by vm_compute.
  - intros Hin. destruct (Hgone _ Hin) as [_ Hmore].
    by apply (Hmore "b").
Defined.
